(** * bk_png.h : a shallow embedding of the PNG loader and its properties

    The C header [bk_png.h] reads a PNG file, checks the chunk CRCs,
    inflates the IDAT stream, reverses the scanline filters and expands
    the samples to 8-bit RGBA.  This file embeds the loader in Gallina,
    function by function, and proves the properties stated for it.

    Modelling conventions.
    - An [unsigned char] is a [Z] in [0, 256); an assignment of an [int]
      sum to an [unsigned char] is written [_ mod 256].
    - A [uint32_t] is a [Z] in [0, 2^32); products and sums computed in
      [uint32_t] are reduced modulo [2^32] where the source computes them.
    - An [int] is a [Z] in [-2^31, 2^31).  The stride [width * bpp] of
      [bkp_filter_decode] is given the value the compiled code computes
      when the product leaves that range, its reduction into the range
      ([int_wrap]); every other [int] expression is followed only while it
      stays in range.
    - A [FILE*] opened for reading is the list of the bytes not yet read;
      [fread] of [n] bytes fails when fewer than [n] remain.
    - A heap buffer is the list of its bytes.  Allocation is assumed to
      succeed and to return a valid pointer, also for a size of zero.
    - The handlers of PLTE and IDAT chunks copy the chunk into a stack
      array of [length + 4] bytes.  The functions are embedded as if the
      array fits; a statement that promises a return for IDAT chunks of
      any content bounds their length by [STACK_ARRAY_MAX].
    - zlib ([inflate]) and libm ([powf]) are not part of the repository:
      they are the two fields of the class [Externals]. *)

From Stdlib Require Import ZArith List Lia Bool.
From stdpp Require Import base list.
Import ListNotations.
Open Scope Z_scope.

(* ===================================================================== *)
(** * Outcomes *)
(* ===================================================================== *)

(** What a call of one of the decoding functions can do.  [Done a] is the
    normal return ([1], or a buffer), [Fail] is the error return ([0] or
    [NULL]).  [Undef] marks the runs this embedding does not follow: an
    access outside a buffer, the use of a freed buffer, and image
    dimensions for which an offset of the source leaves the [int] range
    or a loop of the source leaves its buffer (see [dims_exact] and
    [dims_in_bounds]). *)
Inductive outcome (A : Type) : Type :=
| Done (a : A)
| Fail
| Undef.
Arguments Done {A} a.
Arguments Fail {A}.
Arguments Undef {A}.

(** Sequencing, through stdpp's monad notation [x ← m; k]. *)
#[global] Instance outcome_bind : MBind outcome := fun A B k m =>
  match m with
  | Done a => k a
  | Fail => Fail
  | Undef => Undef
  end.

#[global] Instance outcome_ret : MRet outcome := fun A a => Done a.

(* ===================================================================== *)
(** * Bytes, words and the input stream *)
(* ===================================================================== *)

Definition is_byte (b : Z) : Prop := 0 <= b < 256.

Definition INT_MAX : Z := 2147483647.
Definition U32 : Z := 4294967296.

(** The value of an [int] product in the compiled code: the product
    itself when it is in [-2^31, 2^31), and otherwise its reduction modulo
    [2^32] into that range. *)
Definition int_wrap (z : Z) : Z := (z + 2147483648) mod U32 - 2147483648.

(** [uint32_t] multiplication and addition. *)
Definition u32_mul (a b : Z) : Z := (a * b) mod U32.
Definition u32_add (a b : Z) : Z := (a + b) mod U32.

(** [~crc] on a [uint32_t]. *)
Definition u32_not (c : Z) : Z := Z.lxor c 0xFFFFFFFF.

Definition stream := list Z.

(** [fread(buf, 1, n, f) == n]: the [n] bytes read and the rest of the
    stream, or [None] on a short read. *)
Definition fread (n : Z) (f : stream) : option (list Z * stream) :=
  if n <=? Z.of_nat (length f)
  then Some (take (Z.to_nat n) f, drop (Z.to_nat n) f)
  else None.

(** The big-endian word [(b0<<24) | (b1<<16) | (b2<<8) | b3]. *)
Definition be32 (b0 b1 b2 b3 : Z) : Z :=
  Z.lor (Z.lor (Z.lor (Z.shiftl b0 24) (Z.shiftl b1 16)) (Z.shiftl b2 8)) b3.

(* ===================================================================== *)
(** * CRC-32 *)
(* ===================================================================== *)

(** One step of the inner table loop: [if (rem & 1) rem = (rem >> 1) ^ POLY;
    else rem >>= 1]. *)
Definition crc_step (rem : Z) : Z :=
  if Z.testbit rem 0 then Z.lxor (Z.shiftr rem 1) 0xEDB88320
  else Z.shiftr rem 1.

(** [table[i]]: eight steps from [i].  The C table is filled on the first
    call; its entries are these values. *)
Definition crc_table (i : Z) : Z :=
  crc_step (crc_step (crc_step (crc_step
    (crc_step (crc_step (crc_step (crc_step i))))))).

Definition bkp_crc32 (crc : Z) (buf : list Z) : Z :=
  u32_not
    (fold_left
       (fun c b => Z.lxor (Z.shiftr c 8) (crc_table (Z.land (Z.lxor c b) 0xFF)))
       buf (u32_not crc)).

(* ===================================================================== *)
(** * Chunk framing *)
(* ===================================================================== *)

Definition bkp_read_be32 (f : stream) : option (Z * stream) :=
  match fread 4 f with
  | Some ([b0; b1; b2; b3], f') => Some (be32 b0 b1 b2 b3, f')
  | _ => None
  end.

(** Returns the length, the four type bytes and the rest of the stream. *)
Definition bkp_read_chunk_header (f : stream) : option (Z * list Z * stream) :=
  match bkp_read_be32 f with
  | None => None
  | Some (length, f1) =>
    match fread 4 f1 with
    | None => None
    | Some (type, f2) => Some (length, type, f2)
    end
  end.

(** The chunk names, as the bytes [strcmp] compares. *)
Definition IHDR : list Z := [73; 72; 68; 82].
Definition PLTE : list Z := [80; 76; 84; 69].
Definition IDAT : list Z := [73; 68; 65; 84].
Definition IEND : list Z := [73; 69; 78; 68].
Definition gAMA : list Z := [103; 65; 77; 65].

(** [strcmp(type, name) == 0] for a four-letter [name]: [type[4]] is [0],
    so the strings are equal exactly when the four bytes are. *)
Definition type_is (type name : list Z) : bool :=
  bool_decide (type = name).

Definition BK_PNG_GRAY : Z := 0.
Definition BK_PNG_GRAY_ALPHA : Z := 4.
Definition BK_PNG_RGB : Z := 2.
Definition BK_PNG_INDEXED : Z := 3.
Definition BK_PNG_RGBA : Z := 6.

Record bkp_ihdr : Type := mk_ihdr {
  width : Z;
  height : Z;
  bit_depth : Z;
  color_type : Z;
  compression_method : Z;
  filter_method : Z;
  interlace_method : Z
}.

Definition bkp_read_ihdr (f : stream) : option (bkp_ihdr * stream) :=
  match bkp_read_chunk_header f with
  | None => None
  | Some (length, type, f1) =>
    if negb (type_is type IHDR) then None
    else if negb (length =? 13) then None
    else
      match fread 13 f1 with
      | None => None
      | Some (data, f2) =>
        match bkp_read_be32 f2 with
        | None => None
        | Some (crc_read, f3) =>
          if negb (bkp_crc32 0 (type ++ data) =? crc_read) then None
          else
            let d i := nth i data 0 in
            let ihdr :=
              {| width := be32 (d 0%nat) (d 1%nat) (d 2%nat) (d 3%nat);
                 height := be32 (d 4%nat) (d 5%nat) (d 6%nat) (d 7%nat);
                 bit_depth := d 8%nat;
                 color_type := d 9%nat;
                 compression_method := d 10%nat;
                 filter_method := d 11%nat;
                 interlace_method := d 12%nat |} in
            if negb (bit_depth ihdr =? 8) then None
            else if negb (compression_method ihdr =? 0) then None
            else if negb (filter_method ihdr =? 0) then None
            else if negb (interlace_method ihdr =? 0) then None
            else Some (ihdr, f3)
        end
      end
  end.

(* ===================================================================== *)
(** * Palette, IDAT and gAMA handlers *)
(* ===================================================================== *)

(** One row of [unsigned char palette[256][4]]. *)
Definition rgba : Type := (Z * Z * Z * Z)%type.

Record bkp_palette : Type := mk_palette {
  palette : list rgba;
  size : Z
}.

(** [bkp_palette palette = {0}]: 256 zeroed entries, size 0. *)
Definition palette_zero : bkp_palette :=
  {| palette := replicate 256 (0, 0, 0, 0); size := 0 |}.

(** The loop [for (i = 0; i < n; i++) pal->palette[i] = {data[3i],
    data[3i+1], data[3i+2], 255}]. *)
Definition plte_fill (data : list Z) (n : nat) (entries : list rgba) : list rgba :=
  fold_left
    (fun es i =>
       <[ i := (nth (i * 3 + 0) data 0, nth (i * 3 + 1) data 0,
                nth (i * 3 + 2) data 0, 255) ]> es)
    (seq 0 n) entries.

Definition bkp_read_plte (f : stream) (length : Z) (pal : bkp_palette)
  : option (bkp_palette * stream) :=
  if negb (length mod 3 =? 0) then None
  else
    let n := length / 3 in
    if 256 <? n then None
    else
      match fread length f with
      | None => None
      | Some (data, f1) =>
        match bkp_read_be32 f1 with
        | None => None
        | Some (crc_read, f2) =>
          if negb (bkp_crc32 0 (PLTE ++ data) =? crc_read) then None
          else Some ({| palette := plte_fill data (Z.to_nat n) (palette pal);
                        size := n |}, f2)
        end
      end.

(** The field [idat_buf.data]: [NULL], a live buffer holding [idat_buf.size]
    bytes, or a pointer that was passed to [free] and not reset. *)
Inductive idat_ptr : Type :=
| IdatNull
| IdatLive (data : list Z)
| IdatFreed.

(** [free(idat_buf->data)] without resetting the field. *)
Definition idat_free (idat : idat_ptr) : idat_ptr :=
  match idat with
  | IdatNull => IdatNull
  | _ => IdatFreed
  end.

(** [realloc] to [size + length] bytes followed by the [memcpy] of the chunk. *)
Definition idat_append (idat : idat_ptr) (chunk_data : list Z) : idat_ptr :=
  match idat with
  | IdatNull => IdatLive chunk_data
  | IdatLive data => IdatLive (data ++ chunk_data)
  | IdatFreed => IdatFreed
  end.

(** Returns the stream after the chunk on success ([None] for the C
    return value [0]) and the new state of [idat_buf]. *)
Definition bkp_collect_idat_data (f : stream) (idat : idat_ptr) (length : Z)
  : option stream * idat_ptr :=
  match fread length f with
  | None => (None, idat_free idat)
  | Some (chunk_data, f1) =>
    match bkp_read_be32 f1 with
    | None => (None, idat_free idat)
    | Some (crc_read, f2) =>
      if negb (bkp_crc32 0 (IDAT ++ chunk_data) =? crc_read)
      then (None, idat_free idat)
      else (Some f2, idat_append idat chunk_data)
    end
  end.

(** The gamma is kept as the 32-bit integer of the chunk: the C value is
    [gamma_int / 100000.0f], which is positive exactly when [gamma_int]
    is. *)
Definition bkp_read_gama (f : stream) (length : Z) : option (Z * stream) :=
  if negb (length =? 4) then None
  else
    match fread 4 f with
    | None => None
    | Some (data, f1) =>
      match bkp_read_be32 f1 with
      | None => None
      | Some (crc_read, f2) =>
        if negb (bkp_crc32 0 (gAMA ++ data) =? crc_read) then None
        else
          let d i := nth i data 0 in
          Some (be32 (d 0%nat) (d 1%nat) (d 2%nat) (d 3%nat), f2)
      end
    end.

(** The label [fail:] of [bkp_skip_and_verify_chunk]: a live IDAT buffer is
    freed and the field is set to [NULL]. *)
Definition idat_release (idat : idat_ptr) : idat_ptr :=
  match idat with
  | IdatLive _ => IdatNull
  | other => other
  end.

(** A short read goes to [fail:]; a CRC mismatch returns [ok = 0] and
    leaves [idat_buf] alone. *)
Definition bkp_skip_and_verify_chunk (f : stream) (length : Z) (type : list Z)
  (idat : idat_ptr) : option stream * idat_ptr :=
  match fread length f with
  | None => (None, idat_release idat)
  | Some (chunk_data, f1) =>
    match bkp_read_be32 f1 with
    | None => (None, idat_release idat)
    | Some (crc_read, f2) =>
      if bkp_crc32 0 (type ++ chunk_data) =? crc_read
      then (Some f2, idat)
      else (None, idat)
    end
  end.

(* ===================================================================== *)
(** * The chunk loop of [bkp_load_png] *)
(* ===================================================================== *)

(** The locals the loop updates. *)
Record chunk_state : Type := mk_chunk_state {
  cs_palette : bkp_palette;
  cs_have_plte : bool;
  cs_gamma : Z;
  cs_idat : idat_ptr
}.

Definition chunk_state_init : chunk_state :=
  {| cs_palette := palette_zero; cs_have_plte := false;
     cs_gamma := 0; cs_idat := IdatNull |}.

(** [while (1) { ... }]: the state at the [break].  Every iteration that
    does not break reads at least the eight header bytes, so [fuel] at
    least the length of the stream is never used up
    ([chunk_loop_fuel]). *)
Fixpoint chunk_loop (fuel : nat) (st : chunk_state) (f : stream) : chunk_state :=
  match fuel with
  | O => st
  | S fuel' =>
    match bkp_read_chunk_header f with
    | None => st
    | Some (length, type, f1) =>
      if type_is type PLTE then
        match bkp_read_plte f1 length (cs_palette st) with
        | None => st
        | Some (pal, f2) =>
          chunk_loop fuel'
            {| cs_palette := pal; cs_have_plte := true;
               cs_gamma := cs_gamma st; cs_idat := cs_idat st |} f2
        end
      else if type_is type IDAT then
        match bkp_collect_idat_data f1 (cs_idat st) length with
        | (None, idat) =>
          {| cs_palette := cs_palette st; cs_have_plte := cs_have_plte st;
             cs_gamma := cs_gamma st; cs_idat := idat |}
        | (Some f2, idat) =>
          chunk_loop fuel'
            {| cs_palette := cs_palette st; cs_have_plte := cs_have_plte st;
               cs_gamma := cs_gamma st; cs_idat := idat |} f2
        end
      else if type_is type IEND then st
      else if type_is type gAMA then
        match bkp_read_gama f1 length with
        | None => st
        | Some (g, f2) =>
          chunk_loop fuel'
            {| cs_palette := cs_palette st; cs_have_plte := cs_have_plte st;
               cs_gamma := g; cs_idat := cs_idat st |} f2
        end
      else
        match bkp_skip_and_verify_chunk f1 length type (cs_idat st) with
        | (None, idat) =>
          {| cs_palette := cs_palette st; cs_have_plte := cs_have_plte st;
             cs_gamma := cs_gamma st; cs_idat := idat |}
        | (Some f2, idat) =>
          chunk_loop fuel'
            {| cs_palette := cs_palette st; cs_have_plte := cs_have_plte st;
               cs_gamma := cs_gamma st; cs_idat := idat |} f2
        end
    end
  end.

Definition read_chunks (f : stream) : chunk_state :=
  chunk_loop (length f) chunk_state_init f.

(* ===================================================================== *)
(** * Filter reconstruction *)
(* ===================================================================== *)

(** The function takes [int]s and returns an [unsigned char]. *)
Definition bkp_paeth_predictor (a b c : Z) : Z :=
  let p := a + b - c in
  let pa := Z.abs (p - a) in
  let pb := Z.abs (p - b) in
  let pc := Z.abs (p - c) in
  if (pa <=? pb) && (pa <=? pc) then a mod 256
  else if pb <=? pc then b mod 256
  else c mod 256.

(** [(i >= bpp) ? out_row[i - bpp] : 0], where [out_row] holds the bytes
    written so far. *)
Definition at_left (bpp : Z) (out_row : list Z) (i : Z) : Z :=
  if bpp <=? i then nth (Z.to_nat (i - bpp)) out_row 0 else 0.

(** [prev_row ? prev_row[i] : 0]; [None] is the [NULL] of the first row. *)
Definition at_up (prev_row : option (list Z)) (i : Z) : Z :=
  match prev_row with
  | Some prev => nth (Z.to_nat i) prev 0
  | None => 0
  end.

(** [(prev_row && i >= bpp) ? prev_row[i - bpp] : 0]. *)
Definition at_up_left (bpp : Z) (prev_row : option (list Z)) (i : Z) : Z :=
  match prev_row with
  | Some prev => if bpp <=? i then nth (Z.to_nat (i - bpp)) prev 0 else 0
  | None => 0
  end.

(** [for (i = 0; i < stride; i++) out_row[i] = body]: [curr] holds the
    bytes [curr_ptr[i..stride)] still to do, [out_row] the bytes
    [out_row[0..i)] already written; [body] gets them, [i] and
    [curr_ptr[i]]. *)
Fixpoint row_loop (body : list Z -> Z -> Z -> Z) (curr out_row : list Z) : list Z :=
  match curr with
  | [] => out_row
  | x :: curr' =>
    row_loop body curr'
      (out_row ++ [body out_row (Z.of_nat (length out_row)) x])
  end.

(** The [switch (filter)] of one scanline; [None] is the [default:] case. *)
Definition unfilter_row (filter bpp : Z) (prev_row : option (list Z))
  (curr : list Z) : option (list Z) :=
  match filter with
  | 0 => Some curr
  | 1 =>
    Some (row_loop (fun out_row i x =>
            (x + at_left bpp out_row i) mod 256) curr [])
  | 2 =>
    Some (row_loop (fun out_row i x =>
            (x + at_up prev_row i) mod 256) curr [])
  | 3 =>
    Some (row_loop (fun out_row i x =>
            (x + Z.shiftr (at_left bpp out_row i + at_up prev_row i) 1) mod 256)
            curr [])
  | 4 =>
    Some (row_loop (fun out_row i x =>
            (x + bkp_paeth_predictor (at_left bpp out_row i) (at_up prev_row i)
                   (at_up_left bpp prev_row i)) mod 256) curr [])
  | _ => None
  end.

(** The scanline loop shared by [bkp_filter_decode] and by each pass of
    [bkp_decode_adam7]: [rows] scanlines of [stride] bytes are read from
    [data], each after its filter byte; the reconstructed rows are appended
    to [out].  Returns the output and the unread rest of [data].  Reading
    past the end of [data] is [Undef]. *)
Fixpoint filter_rows (rows : nat) (stride bpp : Z) (data : list Z)
  (prev_row : option (list Z)) (out : list Z) : outcome (list Z * list Z) :=
  match rows with
  | O => Done (out, data)
  | S rows' =>
    match data with
    | [] => Undef
    | filter :: curr =>
      match unfilter_row filter bpp prev_row (take (Z.to_nat stride) curr) with
      | None => Fail
      | Some out_row =>
        if Z.of_nat (length curr) <? stride then Undef
        else filter_rows rows' stride bpp (drop (Z.to_nat stride) curr)
               (Some out_row) (out ++ out_row)
      end
    end
  end.

(** [const int stride = width * bpp] is an [int] product, and row [y] is
    written at [out + y * stride].  The call is followed when the stride
    is not negative and the row offsets stay in [int] range; the result is
    the [height * stride] bytes written to [out]. *)
Definition bkp_filter_decode (data : list Z) (width height bpp : Z)
  : outcome (list Z) :=
  let stride := int_wrap (width * bpp) in
  if (stride <? 0) || (INT_MAX <? (height - 1) * stride) then Undef
  else
    r ← filter_rows (Z.to_nat height) stride bpp data None [];
    Done (fst r).

(* ===================================================================== *)
(** * Palette expansion *)
(* ===================================================================== *)

Definition bkp_expand_palette (indexed : list Z) (n_pixels : Z)
  (pal : bkp_palette) : list Z :=
  flat_map
    (fun i =>
       let idx := nth i indexed 0 in
       let idx := if size pal <=? idx then 0 else idx in
       let '(r, g, b, a) := nth (Z.to_nat idx) (palette pal) (0, 0, 0, 0) in
       [r; g; b; a])
    (seq 0 (Z.to_nat n_pixels)).

(* ===================================================================== *)
(** * Adam7 *)
(* ===================================================================== *)

(** Starting x, starting y, x increment, y increment. *)
Definition ADAM7_PASSES : list (Z * Z * Z * Z) :=
  [ (0, 0, 8, 8);
    (4, 0, 8, 8);
    (0, 4, 4, 8);
    (2, 0, 4, 4);
    (0, 2, 2, 4);
    (1, 0, 2, 2);
    (0, 1, 1, 2) ].

(** The values [x] takes in [for (x = start; x < limit; x += step)]. *)
Fixpoint for_steps (fuel : nat) (x limit step : Z) : list Z :=
  match fuel with
  | O => []
  | S fuel' =>
    if x <? limit then x :: for_steps fuel' (x + step) limit step else []
  end.

(** With [step >= 1] the loop runs at most [limit - start] times. *)
Definition for_range (start limit step : Z) : list Z :=
  for_steps (Z.to_nat (limit - start)) start limit step.

(** [pass_sizes[p][0]] and [pass_sizes[p][1]]. *)
Definition pass_width (p : Z * Z * Z * Z) (width : Z) : Z :=
  let '(x0, _, dx, _) := p in Z.of_nat (length (for_range x0 width dx)).

Definition pass_height (p : Z * Z * Z * Z) (height : Z) : Z :=
  let '(_, y0, _, dy) := p in Z.of_nat (length (for_range y0 height dy)).

(** The pixels [(x, y)] the scatter loops of pass [p] visit, in order. *)
Definition pass_positions (p : Z * Z * Z * Z) (width height : Z) : list (Z * Z) :=
  let '(x0, y0, dx, dy) := p in
  flat_map (fun y => map (fun x => (x, y)) (for_range x0 width dx))
           (for_range y0 height dy).

(** The positions written by the whole of [bkp_decode_adam7]: a pass with
    [pw == 0 || ph == 0] is skipped. *)
Definition adam7_positions (width height : Z) : list (Z * Z) :=
  flat_map
    (fun p =>
       if (pass_width p width =? 0) || (pass_height p height =? 0) then []
       else pass_positions p width height)
    ADAM7_PASSES.

(** [x] is at or after [start], a whole number of steps away. *)
Definition on_lattice (start step x : Z) : Prop :=
  start <= x /\ (x - start) mod step = 0.

(** Pixel [(x, y)] lies on the lattice of pass [p]. *)
Definition on_pass (p : Z * Z * Z * Z) (x y : Z) : Prop :=
  let '(x0, y0, dx, dy) := p in
  on_lattice x0 dx x /\ on_lattice y0 dy y.

(** A loop whose body can fail. *)
Fixpoint fold_outcome {A B} (body : A -> B -> outcome A) (l : list B) (a : A)
  : outcome A :=
  match l with
  | [] => Done a
  | b :: l' => a' ← body a b; fold_outcome body l' a'
  end.

(** [buf[k] = v]; a store outside the buffer is [Undef]. *)
Definition store (buf : list Z) (k v : Z) : outcome (list Z) :=
  if (0 <=? k) && (k <? Z.of_nat (length buf))
  then Done (<[Z.to_nat k := v]> buf)
  else Undef.

(** The body of the two scatter loops: the [bpp] samples of sub-image
    pixel [idx] go to pixel [(x, y)] of [out]; then [idx++]. *)
Definition scatter_pixel (width bpp : Z) (filtered_pass : list Z)
  (st : list Z * Z) (xy : Z * Z) : outcome (list Z * Z) :=
  let '(out, idx) := st in
  let '(x, y) := xy in
  out' ← fold_outcome
           (fun o c =>
              store o ((y * width + x) * bpp + Z.of_nat c)
                    (nth (Z.to_nat (idx * bpp + Z.of_nat c)) filtered_pass 0))
           (seq 0 (Z.to_nat bpp)) out;
  Done (out', idx + 1).

(** One iteration of [for (p = 0; p < 7; p++)]: the state is the read
    pointer [ptr] and the output buffer. *)
Definition adam7_pass (width height bpp : Z) (st : list Z * list Z)
  (p : Z * Z * Z * Z) : outcome (list Z * list Z) :=
  let '(ptr, out) := st in
  let pw := pass_width p width in
  let ph := pass_height p height in
  if (pw =? 0) || (ph =? 0) then Done (ptr, out)
  else
    r ← filter_rows (Z.to_nat ph) (pw * bpp) bpp ptr None [];
    s ← fold_outcome (scatter_pixel width bpp (fst r))
          (pass_positions p width height) (out, 0);
    Done (snd r, fst s).

(** [out] is the caller's buffer; the result is its final content. *)
Definition bkp_decode_adam7 (data : list Z) (width height bpp : Z)
  (out : list Z) : outcome (list Z) :=
  r ← fold_outcome (adam7_pass width height bpp) ADAM7_PASSES (data, out);
  Done (snd r).

(* ===================================================================== *)
(** * External services *)
(* ===================================================================== *)

(** What the loader takes from zlib and libm.
    - [inflate compressed] stands for [bkp_decompress_zlib], whose loop
      drives zlib's [inflate]: [Some plain] when the stream ends with
      [Z_STREAM_END], [None] when [NULL] is returned.
    - [gamma_channel g v] stands for the float expression
      [(unsigned char)(powf(v / 255.0f, 1.0f / (g / 100000.0f)) * 255.0f + 0.5f)]. *)
Class Externals : Type := {
  inflate : list Z -> option (list Z);
  gamma_channel : Z -> Z -> Z
}.

(* ===================================================================== *)
(** * Gamma correction *)
(* ===================================================================== *)

(** The inner loop [for (c = 0; c < 3; c++)] on pixel [i]. *)
Definition gamma_pixel `{Externals} (gamma : Z) (pixels : list Z) (i : nat)
  : list Z :=
  fold_left
    (fun px c =>
       <[ (i * 4 + c)%nat := gamma_channel gamma (nth (i * 4 + c) px 0) ]> px)
    (seq 0 3) pixels.

(** [gamma] is the integer of the gAMA chunk (see [bkp_read_gama]). *)
Definition bkp_apply_gamma_correction `{Externals} (pixels : list Z)
  (width height gamma : Z) : list Z :=
  if gamma <=? 0 then pixels
  else fold_left (gamma_pixel gamma)
         (seq 0 (Z.to_nat (u32_mul width height))) pixels.

(* ===================================================================== *)
(** * [bkp_load_png] *)
(* ===================================================================== *)

Definition png_signature : list Z := [137; 80; 78; 71; 13; 10; 26; 10].

(** The [switch (ihdr.color_type)]; [None] is the [default:] case. *)
Definition bpp_of (color_type : Z) : option Z :=
  match color_type with
  | 0 => Some 1
  | 4 => Some 2
  | 2 => Some 3
  | 3 => Some 1
  | 6 => Some 4
  | _ => None
  end.

(** [(bpp * ihdr.width + 1) * ihdr.height], computed in [uint32_t]. *)
Definition expected_size (ihdr : bkp_ihdr) (bpp : Z) : Z :=
  u32_mul (u32_add (u32_mul bpp (width ihdr)) 1) (height ihdr).

(** The dimensions of exact arithmetic.  They are enough for every
    [int] and [uint32_t] expression on sizes and offsets below to have its
    mathematical value: the width and the height convert to [int] and leave
    room for the largest loop increment (8, in the Adam7 loops), the size
    of the RGBA buffer fits a [uint32_t], and every offset into the
    scanline buffer, at most [width * height * bpp], fits an [int].  Past
    them some of these expressions wrap around or overflow. *)
Definition dims_exact (ihdr : bkp_ihdr) (bpp : Z) : bool :=
  (0 <=? width ihdr) && (width ihdr + 8 <=? INT_MAX)
  && (0 <=? height ihdr) && (height ihdr + 8 <=? INT_MAX)
  && (4 * (width ihdr * height ihdr) <? U32)
  && (width ihdr * height ihdr * bpp <=? INT_MAX)
  && (width ihdr * bpp <=? INT_MAX).

(** Beyond [dims_exact] the non-interlaced runs are followed as long as
    every access stays inside its buffer.  With [n] the pixel count
    [width * height] of the loops and [stride] the stride of
    [bkp_filter_decode]:
    - [width] and [height] convert to [int] unchanged, and the pixel
      count fits a [uint32_t];
    - the rows are written at offsets in [int] range and inside
      [filtered_pixels], which has [n * bpp] bytes modulo [2^32];
    - the conversion reads bytes the filter decoder wrote, and writes
      inside [raw_pixels], which has [n * 4] bytes modulo [2^32]: the
      [memcpy] of colour type RGBA copies exactly that many, the loops of
      the other colour types write [4 * n] bytes;
    - the gamma loops, when they run, write [4 * n] bytes. *)
Definition dims_in_bounds (ihdr : bkp_ihdr) (bpp gamma : Z) : bool :=
  let w := width ihdr in
  let h := height ihdr in
  let n := u32_mul w h in
  let stride := int_wrap (w * bpp) in
  (interlace_method ihdr =? 0)
  && (0 <=? w) && (w <=? INT_MAX) && (0 <=? h) && (h <=? INT_MAX)
  && (w * h <? U32)
  && (0 <=? stride) && (h * stride <=? INT_MAX)
  && (h * stride <=? u32_mul n bpp)
  && (if color_type ihdr =? BK_PNG_RGBA
      then u32_mul n 4 <=? h * stride
      else (n * bpp <=? h * stride) && (4 * n <? U32))
  && ((gamma <=? 0) || (4 * n <? U32)).

(** Lines 600-607: the choice of the decoder.  [filtered_pixels] is a fresh
    buffer of [width * height * bpp] bytes; its content before the call is
    taken to be zeros, and does not matter
    ([bkp_decode_adam7_overwrites]). *)
Definition decode_scanlines (ihdr : bkp_ihdr) (bpp : Z) (decompressed : list Z)
  : outcome (list Z) :=
  if interlace_method ihdr =? 0 then
    bkp_filter_decode decompressed (width ihdr) (height ihdr) bpp
  else if interlace_method ihdr =? 1 then
    bkp_decode_adam7 decompressed (width ihdr) (height ihdr) bpp
      (replicate
         (Z.to_nat (u32_mul (u32_mul (width ihdr) (height ihdr)) bpp)) 0)
  else Fail.

(** Lines 619-654: the conversion to RGBA; [None] is a [return NULL]. *)
Definition to_rgba (ihdr : bkp_ihdr) (have_plte : bool) (pal : bkp_palette)
  (filtered_pixels : list Z) : option (list Z) :=
  let n := u32_mul (width ihdr) (height ihdr) in
  let px i := nth i filtered_pixels 0 in
  if color_type ihdr =? BK_PNG_INDEXED then
    if negb have_plte then None
    else Some (bkp_expand_palette filtered_pixels n pal)
  else if color_type ihdr =? BK_PNG_GRAY then
    Some (flat_map (fun i => [px i; px i; px i; 255]) (seq 0 (Z.to_nat n)))
  else if color_type ihdr =? BK_PNG_GRAY_ALPHA then
    Some (flat_map
            (fun i => [px (i * 2 + 0)%nat; px (i * 2 + 0)%nat;
                       px (i * 2 + 0)%nat; px (i * 2 + 1)%nat])
            (seq 0 (Z.to_nat n)))
  else if color_type ihdr =? BK_PNG_RGB then
    Some (flat_map
            (fun i => [px (i * 3 + 0)%nat; px (i * 3 + 1)%nat;
                       px (i * 3 + 2)%nat; 255])
            (seq 0 (Z.to_nat n)))
  else if color_type ihdr =? BK_PNG_RGBA then
    Some (take (Z.to_nat (u32_mul n 4)) filtered_pixels)
  else None.

(** The caller's three output variables.  [None] is a [NULL] pointer,
    [Some v] a variable that holds [v]. *)
Record out_params : Type := mk_out_params {
  out_width : option Z;
  out_height : option Z;
  out_color_type : option Z
}.

(** [if (out_width) *out_width = ihdr.width;] and the two others. *)
Definition write_outs (ihdr : bkp_ihdr) (outs : out_params) : out_params :=
  {| out_width := (fun _ => width ihdr) <$> out_width outs;
     out_height := (fun _ => height ihdr) <$> out_height outs;
     out_color_type := (fun _ => color_type ihdr) <$> out_color_type outs |}.

(** A run of [bkp_load_png]: the pointer returned ([None] is [NULL]) with
    the output variables as the run leaves them, or a run the embedding
    does not follow (see [outcome]). *)
Inductive load_result : Type :=
| Returned (pixels : option (list Z)) (outs : out_params)
| Undefined.

(** Lines 568-666: from the inflated stream to the return.  After the
    size check the run is followed for the dimensions of [dims_exact]
    and for those of [dims_in_bounds]. *)
Definition decode_pixels `{Externals} (ihdr : bkp_ihdr) (st : chunk_state)
  (decompressed : list Z) (outs : out_params) : load_result :=
  match bpp_of (color_type ihdr) with
  | None => Returned None outs
  | Some bpp =>
    if Z.of_nat (length decompressed) <? expected_size ihdr bpp
    then Returned None outs
    else if negb (dims_exact ihdr bpp
                  || dims_in_bounds ihdr bpp (cs_gamma st))
    then Undefined
    else
      match decode_scanlines ihdr bpp decompressed with
      | Undef => Undefined
      | Fail => Returned None outs
      | Done filtered_pixels =>
        match to_rgba ihdr (cs_have_plte st) (cs_palette st) filtered_pixels with
        | None => Returned None outs
        | Some raw_pixels =>
          let outs' := write_outs ihdr outs in
          let raw_pixels' :=
            if 0 <? cs_gamma st
            then bkp_apply_gamma_correction raw_pixels (width ihdr)
                   (height ihdr) (cs_gamma st)
            else raw_pixels in
          Returned (Some raw_pixels') outs'
        end
      end
  end.

(** [file] is the content of the file at [path], [None] when it cannot
    be opened. *)
Definition bkp_load_png `{Externals} (file : option (list Z))
  (outs : out_params) : load_result :=
  match file with
  | None => Returned None outs
  | Some f =>
    match fread 8 f with
    | None => Returned None outs
    | Some (signature_read, f1) =>
      if negb (bool_decide (signature_read = png_signature))
      then Returned None outs
      else
        match bkp_read_ihdr f1 with
        | None => Returned None outs
        | Some (ihdr, f2) =>
          let st := read_chunks f2 in
          match cs_idat st with
          | IdatNull => Returned None outs
          | IdatFreed => Undefined
          | IdatLive idat =>
            match inflate idat with
            | None => Returned None outs
            | Some decompressed => decode_pixels ihdr st decompressed outs
            end
          end
        end
    end
  end.

(* ===================================================================== *)
(** * Filter application, as the specification words it *)
(* ===================================================================== *)

(** These definitions follow the text of the specification, not the
    source: they are what the decoder is compared with. *)

(** "let p = a + b − c; compute pa = |p−a|, pb = |p−b|, pc = |p−c|; return
    a if pa ≤ pb and pa ≤ pc, else b if pb ≤ pc, else c". *)
Definition paeth_spec (a b c : Z) : Z :=
  let p := a + b - c in
  let pa := Z.abs (p - a) in
  let pb := Z.abs (p - b) in
  let pc := Z.abs (p - c) in
  if decide (pa <= pb /\ pa <= pc) then a
  else if decide (pb <= pc) then b
  else c.

(** The value the filter of selector [f] subtracts from a raw byte. *)
Definition png_predict (f left up up_left : Z) : Z :=
  match f with
  | 1 => left
  | 2 => up
  | 3 => (left + up) / 2
  | 4 => paeth_spec left up up_left
  | _ => 0
  end.

(** The raw byte [bpp] places to the left in the row, 0 when there is none. *)
Definition raw_left (bpp : Z) (raw : list Z) (i : nat) : Z :=
  if decide (bpp <= Z.of_nat i) then nth (i - Z.to_nat bpp) raw 0 else 0.

(** The raw byte above, 0 in the first row. *)
Definition raw_up (prev : option (list Z)) (i : nat) : Z :=
  match prev with
  | Some r => nth i r 0
  | None => 0
  end.

(** "[up_left] is [prev[i−bpp]] when both predecessors exist, else 0". *)
Definition raw_up_left (bpp : Z) (prev : option (list Z)) (i : nat) : Z :=
  match prev with
  | Some r => if decide (bpp <= Z.of_nat i) then nth (i - Z.to_nat bpp) r 0 else 0
  | None => 0
  end.

(** Filter [f] applied to the raw row [raw] whose predecessor is [prev]. *)
Definition png_filter_row (f bpp : Z) (prev : option (list Z)) (raw : list Z)
  : list Z :=
  imap (fun i x =>
          (x - png_predict f (raw_left bpp raw i) (raw_up prev i)
                 (raw_up_left bpp prev i)) mod 256)
       raw.

(** The filtered stream of an image: each row after its selector. *)
Fixpoint png_filter_rows (bpp : Z) (prev : option (list Z))
  (filters : list Z) (rows : list (list Z)) : list Z :=
  match filters, rows with
  | f :: filters', raw :: rows' =>
    f :: png_filter_row f bpp prev raw
      ++ png_filter_rows bpp (Some raw) filters' rows'
  | _, _ => []
  end.

Definition png_filter_image (bpp : Z) (filters : list Z) (rows : list (list Z))
  : list Z :=
  png_filter_rows bpp None filters rows.

(* ===================================================================== *)
(** * Adam7 interlacing, as the specification words it *)
(* ===================================================================== *)

(** These definitions follow the text of the specification (section 4.8),
    not the source: the sub-image of a pass has
    [pw = ceil ((width - x0) / dx)] columns and
    [ph = ceil ((height - y0) / dy)] rows, its pixel [(i, j)] is the pixel
    [(x0 + i * dx, y0 + j * dy)] of the image, and the stream is the
    seven filtered sub-images one after the other, an empty one
    contributing no byte. *)

(** [ceil ((size - start) / step)], and 0 when [size <= start]. *)
Definition sub_count (size start step : Z) : nat :=
  Z.to_nat ((size - start + step - 1) / step).

(** The coordinates [start + i * step] for [i] below the count. *)
Definition sub_coords (size start step : Z) : list Z :=
  map (fun i => start + Z.of_nat i * step) (seq 0 (sub_count size start step)).



(** The [bpp] bytes of pixel [(x, y)] of a row-major image [img]. *)
Definition image_pixel (width bpp : Z) (img : list Z) (xy : Z * Z) : list Z :=
  take (Z.to_nat bpp)
       (drop (Z.to_nat ((snd xy * width + fst xy) * bpp)) img).

(** The raw scanlines of the sub-image of pass [p]. *)
Definition pass_rows (p : Z * Z * Z * Z) (width height bpp : Z) (img : list Z)
  : list (list Z) :=
  let '(x0, y0, dx, dy) := p in
  map (fun y =>
         flat_map (fun x => image_pixel width bpp img (x, y))
                  (sub_coords width x0 dx))
      (sub_coords height y0 dy).

(** The interlaced stream of [img]; [choose p] gives the filter selector
    of each scanline of pass [p]. *)
Definition adam7_interlace (width height bpp : Z)
  (choose : Z * Z * Z * Z -> list Z) (img : list Z) : list Z :=
  flat_map
    (fun p =>
       let '(x0, y0, dx, dy) := p in
       if (sub_count width x0 dx =? 0)%nat || (sub_count height y0 dy =? 0)%nat
       then []
       else png_filter_image bpp (choose p) (pass_rows p width height bpp img))
    ADAM7_PASSES.

(* ===================================================================== *)
(** * Vocabulary of the statements *)
(* ===================================================================== *)

(** The alpha byte of pixel [i] of an RGBA buffer. *)
Definition alpha_at (pixels : list Z) (i : nat) : Z :=
  nth (i * 4 + 3) pixels 0.

(** The four bytes of pixel [i] of an RGBA buffer. *)
Definition pixel_at (pixels : list Z) (i : nat) : list Z :=
  take 4 (drop (i * 4) pixels).

(** "the source color type lacked an alpha channel (Gray=0, RGB=2,
    Indexed=3)". *)
Definition lacks_alpha (ctype : Z) : Prop :=
  ctype = BK_PNG_GRAY \/ ctype = BK_PNG_RGB \/ ctype = BK_PNG_INDEXED.

(** "the alpha byte equals 255 if and only if the source color type lacked
    an alpha channel", for every pixel of a buffer of [n] pixels. *)
Definition alpha_opaque_iff_no_alpha (ctype : Z) (n : nat) (pixels : list Z)
  : Prop :=
  forall i, (i < n)%nat -> alpha_at pixels i = 255 <-> lacks_alpha ctype.

(** The four bytes [bkp_expand_palette] emits for palette entry [idx]. *)
Definition entry_bytes (pal : bkp_palette) (idx : nat) : list Z :=
  let '(r, g, b, a) := nth idx (palette pal) (0, 0, 0, 0) in [r; g; b; a].

(** Every entry below [size] is opaque, in a table of 256 entries: what the
    PLTE handler establishes. *)
Definition palette_opaque (pal : bkp_palette) : Prop :=
  length (palette pal) = 256%nat
  /\ forall i, (i < Z.to_nat (size pal))%nat ->
       snd (nth i (palette pal) (0, 0, 0, 0)) = 255.

(** Two runs end the same way, with results related by [R]. *)
Definition outcome_rel {A} (R : A -> A -> Prop) (m1 m2 : outcome A) : Prop :=
  match m1, m2 with
  | Done a1, Done a2 => R a1 a2
  | Fail, Fail => True
  | Undef, Undef => True
  | _, _ => False
  end.

(** Two buffers of the same size hold the same bytes at the offsets [K]. *)
Definition agree_on (K : nat -> Prop) (o1 o2 : list Z) : Prop :=
  length o1 = length o2 /\ forall j, K j -> o1 !! j = o2 !! j.

(** The byte offsets of the pixels [L] in a buffer of rows of [width]
    pixels of [bpp] bytes. *)
Definition pixel_offsets (width bpp : Z) (L : list (Z * Z)) (j : nat) : Prop :=
  exists x y c, In (x, y) L /\ (c < Z.to_nat bpp)%nat
                /\ Z.of_nat j = (y * width + x) * bpp + Z.of_nat c.

(** The bytes [pat] occur somewhere in [f], one after the other. *)
Definition occurs (pat f : list Z) : Prop :=
  exists before after, f = before ++ pat ++ after.

(** "Expected inflated size: height × (1 + width × bpp) bytes", as a
    natural number, without the 32-bit arithmetic of the source. *)
Definition stated_expected_size (ihdr : bkp_ihdr) (bpp : Z) : Z :=
  height ihdr * (1 + width ihdr * bpp).

(** The largest stack array the statements take the stack to have room
    for: 64 KiB.  [bkp_collect_idat_data] declares
    [unsigned char crc_buf[length + 4]] for an IDAT chunk of [length]
    bytes. *)
Definition STACK_ARRAY_MAX : Z := 65536.

(** The array [crc_buf] of a chunk with the payload [data] fits. *)
Definition crc_buf_fits (data : list Z) : Prop :=
  Z.of_nat (length data) + 4 <= STACK_ARRAY_MAX.

(** An IDAT payload for which [bkp_collect_idat_data] is taken to return:
    it is not empty, so that no allocation is asked for zero bytes, and
    its [crc_buf] fits the stack. *)
Definition idat_payload_ok (data : list Z) : Prop :=
  0 < Z.of_nat (length data) /\ crc_buf_fits data.

(* ===================================================================== *)
(** * Building files for the examples *)
(* ===================================================================== *)

(** The four bytes of a 32-bit word, most significant first. *)
Definition u32_bytes (n : Z) : list Z :=
  [Z.shiftr n 24 mod 256; Z.shiftr n 16 mod 256; Z.shiftr n 8 mod 256; n mod 256].

(** A chunk with the CRC [crc]. *)
Definition chunk_with_crc (type data : list Z) (crc : Z) : list Z :=
  u32_bytes (Z.of_nat (length data)) ++ type ++ data ++ u32_bytes crc.

(** A chunk with its correct CRC. *)
Definition chunk (type data : list Z) : list Z :=
  chunk_with_crc type data (bkp_crc32 0 (type ++ data)).

Definition ihdr_data (w h depth ctype compression filter interlace : Z) : list Z :=
  u32_bytes w ++ u32_bytes h ++ [depth; ctype; compression; filter; interlace].

(** Adler-32, the checksum that ends a zlib stream. *)
Definition adler32 (data : list Z) : Z :=
  let '(a, b) :=
    fold_left (fun '(a, b) x =>
                 let a' := (a + x) mod 65521 in (a', (b + a') mod 65521))
              data (1, 0) in
  b * 65536 + a.

(** A zlib stream holding [data] in one stored (uncompressed) block. *)
Definition zlib_stored (data : list Z) : list Z :=
  let n := Z.of_nat (length data) in
  [120; 1; 1; n mod 256; n / 256; 255 - n mod 256; 255 - n / 256]
    ++ data ++ u32_bytes (adler32 data).

(** An inflater for the streams [zlib_stored] makes, with the checks zlib
    does on them: header, block type, length complement, checksum. *)
Definition inflate_stored (compressed : list Z) : option (list Z) :=
  match compressed with
  | 120 :: 1 :: 1 :: l0 :: l1 :: n0 :: n1 :: rest =>
    let n := l0 + 256 * l1 in
    if negb ((n0 =? 255 - l0) && (n1 =? 255 - l1)) then None
    else
      let data := take (Z.to_nat n) rest in
      if bool_decide (drop (Z.to_nat n) rest = u32_bytes (adler32 data))
         && (Z.of_nat (length data) =? n)
      then Some data else None
  | _ => None
  end.

(** The instance used to run the loader on the example files; the gamma
    curve is not evaluated in them. *)
Definition stored_externals : Externals :=
  {| inflate := inflate_stored; gamma_channel := fun _ v => v |}.

Definition tEXt : list Z := [116; 69; 88; 116].

(** A PNG file: signature, IHDR, the other chunks. *)
Definition png_file (ihdr_bytes : list Z) (chunks : list (list Z)) : list Z :=
  png_signature ++ chunk IHDR ihdr_bytes ++ concat chunks.

(** 1x1 RGBA, one red opaque pixel, not interlaced. *)
Definition red_1x1_scanlines : list Z := [0; 255; 0; 0; 255].

Definition red_1x1_png : list Z :=
  png_file (ihdr_data 1 1 8 6 0 0 0)
    [chunk IDAT (zlib_stored red_1x1_scanlines); chunk IEND []].

(** The same image, declared Adam7-interlaced: one pixel in pass 1. *)
Definition red_1x1_adam7_png : list Z :=
  png_file (ihdr_data 1 1 8 6 0 0 1)
    [chunk IDAT (zlib_stored red_1x1_scanlines); chunk IEND []].

(** The same image followed by a tEXt chunk whose stored CRC is wrong. *)
Definition red_1x1_bad_text_crc_png : list Z :=
  png_file (ihdr_data 1 1 8 6 0 0 0)
    [chunk IDAT (zlib_stored red_1x1_scanlines);
     chunk_with_crc tEXt [65; 0; 66] 0;
     chunk IEND []].

(** The same image with a wrong CRC in its only IDAT chunk. *)
Definition red_1x1_bad_idat_crc_png : list Z :=
  png_file (ihdr_data 1 1 8 6 0 0 0)
    [chunk_with_crc IDAT (zlib_stored red_1x1_scanlines) 0; chunk IEND []].

(** 2x2 indexed, four palette entries, indices 0 1 / 2 3. *)
Definition indexed_2x2_png : list Z :=
  png_file (ihdr_data 2 2 8 3 0 0 0)
    [chunk PLTE [255; 0; 0; 0; 255; 0; 0; 0; 255; 255; 255; 0];
     chunk IDAT (zlib_stored [0; 0; 1; 0; 2; 3]);
     chunk IEND []].

(** 2x1 grayscale, samples 100 200 behind a Sub filter byte. *)
Definition gray_2x1_png : list Z :=
  png_file (ihdr_data 2 1 8 0 0 0 0)
    [chunk IDAT (zlib_stored [1; 100; 200]); chunk IEND []].

(** The image with its zlib stream cut into two IDAT chunks, the second
    with a wrong CRC. *)
Definition red_1x1_split_idat_bad_crc_png : list Z :=
  png_file (ihdr_data 1 1 8 6 0 0 0)
    [chunk IDAT (take 6 (zlib_stored red_1x1_scanlines));
     chunk_with_crc IDAT (drop 6 (zlib_stored red_1x1_scanlines)) 0;
     chunk IEND []].

(** An RGBA image declared 2^30 pixels wide and 1 high whose inflated
    stream is a single byte. *)
Definition wide_rgba_png : list Z :=
  png_file (ihdr_data 1073741824 1 8 6 0 0 0)
    [chunk IDAT (zlib_stored [0]); chunk IEND []].

(** 1x1 indexed, with a PLTE chunk that holds no entry. *)
Definition indexed_empty_plte_png : list Z :=
  png_file (ihdr_data 1 1 8 3 0 0 0)
    [chunk PLTE []; chunk IDAT (zlib_stored [0; 0]); chunk IEND []].

(** 2x1 indexed with a palette of two entries (red, green) and the
    indices 1 and 9. *)
Definition indexed_out_of_range_png : list Z :=
  png_file (ihdr_data 2 1 8 3 0 0 0)
    [chunk PLTE [255; 0; 0; 0; 255; 0];
     chunk IDAT (zlib_stored [0; 1; 9]);
     chunk IEND []].

Definition outs0 : out_params :=
  {| out_width := Some 0; out_height := Some 0; out_color_type := Some 0 |}.

(** One raw scanline of an image 2^30 pixels wide with 4 bytes per pixel:
    2^32 bytes. *)
Definition wide_row : list Z := replicate (Z.to_nat 4294967296) 7.

(* ===================================================================== *)
(** * Running the loader on the example files *)
(* ===================================================================== *)

Example crc_iend : bkp_crc32 0 IEND = 0xAE426082.
Proof. vm_compute. reflexivity. Qed.

Example crc_empty : bkp_crc32 0 [] = 0.
Proof. reflexivity. Qed.

(** Scenarios 1 to 3 of the specification. *)
Example load_red_1x1 :
  @bkp_load_png stored_externals (Some red_1x1_png) outs0
  = Returned (Some [255; 0; 0; 255])
      {| out_width := Some 1; out_height := Some 1; out_color_type := Some 6 |}.
Proof. vm_compute. reflexivity. Qed.

Example load_indexed_2x2 :
  @bkp_load_png stored_externals (Some indexed_2x2_png) outs0
  = Returned
      (Some [255; 0; 0; 255; 0; 255; 0; 255; 0; 0; 255; 255; 255; 255; 0; 255])
      {| out_width := Some 2; out_height := Some 2; out_color_type := Some 3 |}.
Proof. vm_compute. reflexivity. Qed.

Example load_gray_2x1 :
  @bkp_load_png stored_externals (Some gray_2x1_png) outs0
  = Returned (Some [100; 100; 100; 255; 44; 44; 44; 255])
      {| out_width := Some 2; out_height := Some 1; out_color_type := Some 0 |}.
Proof. vm_compute. reflexivity. Qed.

(** Scenario 5: a wrong CRC in the only IDAT chunk. *)
Example load_bad_idat_crc :
  @bkp_load_png stored_externals (Some red_1x1_bad_idat_crc_png) outs0
  = Returned None outs0.
Proof. vm_compute. reflexivity. Qed.

(** Scenario 4, on the Adam7 decoder itself: a 1x1 image takes one
    scanline of pass 1 and nothing for the six empty passes. *)
Example adam7_1x1 :
  bkp_decode_adam7 red_1x1_scanlines 1 1 4 [0; 0; 0; 0] = Done [255; 0; 0; 255].
Proof. vm_compute. reflexivity. Qed.

(* ===================================================================== *)
(** * The Paeth predictor *)
(* ===================================================================== *)

Section Paeth.

Lemma paeth_matches_spec (a b c : Z) :
  is_byte a -> is_byte b -> is_byte c ->
  bkp_paeth_predictor a b c = paeth_spec a b c.
Proof.
  unfold is_byte, bkp_paeth_predictor, paeth_spec.
  intros Ha Hb Hc. cbv zeta.
  repeat case_decide;
    repeat match goal with
           | |- context [?x <=? ?y] => destruct (Z.leb_spec x y)
           end; cbn [andb];
    try rewrite Z.mod_small by lia; try reflexivity; lia.
Qed.

Lemma paeth_is_byte (a b c : Z) : is_byte (bkp_paeth_predictor a b c).
Proof.
  unfold is_byte, bkp_paeth_predictor. cbv zeta.
  repeat case_match; apply Z.mod_pos_bound; lia.
Qed.

(** C5: on bytes [a], [b], [c] the predictor computes [p = a + b - c],
    the three distances [pa], [pb], [pc], and returns [a] when
    [pa <= pb] and [pa <= pc], else [b] when [pb <= pc], else [c]; in
    particular it returns [x] on [(x, x, x)]. *)
Theorem paeth_predictor_correct (a b c : Z) :
  is_byte a -> is_byte b -> is_byte c ->
  let p := a + b - c in
  let pa := Z.abs (p - a) in
  let pb := Z.abs (p - b) in
  let pc := Z.abs (p - c) in
  bkp_paeth_predictor a b c
  = (if decide (pa <= pb /\ pa <= pc) then a
     else if decide (pb <= pc) then b else c)
  /\ bkp_paeth_predictor a a a = a.
Proof.
  intros Ha Hb Hc. cbv zeta. split.
  - rewrite paeth_matches_spec by assumption. reflexivity.
  - rewrite paeth_matches_spec by assumption. unfold paeth_spec.
    cbv zeta. repeat case_decide; reflexivity.
Qed.

Lemma paeth_predictor_correct_witness :
  bkp_paeth_predictor 10 200 100 = 100
  /\ bkp_paeth_predictor 10 10 10 = 10.
Proof.
  apply (paeth_predictor_correct 10 200 100); unfold is_byte; lia.
Defined.

End Paeth.

(* ===================================================================== *)
(** * The header and the chunk loop *)
(* ===================================================================== *)

Section Header.

(** Whatever [bkp_read_ihdr] accepts has the four fixed field values. *)
Lemma bkp_read_ihdr_fields (f f' : stream) (ihdr : bkp_ihdr) :
  bkp_read_ihdr f = Some (ihdr, f') ->
  bit_depth ihdr = 8 /\ compression_method ihdr = 0
  /\ filter_method ihdr = 0 /\ interlace_method ihdr = 0.
Proof.
  unfold bkp_read_ihdr. intros H.
  repeat case_match; try discriminate.
  simplify_eq. cbn in *.
  repeat match goal with
         | H : negb (_ =? _) = false |- _ =>
           apply negb_false_iff, Z.eqb_eq in H
         end.
  auto.
Qed.

(** No file reaches the Adam7 branch of [decode_scanlines] through
    [bkp_load_png]: the header check has already refused it. *)
Lemma bkp_read_ihdr_never_adam7 (f f' : stream) (ihdr : bkp_ihdr) :
  bkp_read_ihdr f = Some (ihdr, f') -> interlace_method ihdr <> 1.
Proof.
  intros H. apply bkp_read_ihdr_fields in H. lia.
Qed.

(** C1: a well-formed 1x1 RGBA file whose IHDR declares bit depth 8,
    compression 0, filter 0 and interlace method 1 is not decoded:
    [bkp_load_png] returns [NULL], whatever the inflater does. *)
Theorem load_png_adam7_rejected `{Externals} (outs : out_params) :
  bkp_load_png (Some red_1x1_adam7_png) outs = Returned None outs.
Proof.
  unfold bkp_load_png.
  replace (fread 8 red_1x1_adam7_png)
    with (Some (png_signature, drop 8 red_1x1_adam7_png))
    by (vm_compute; reflexivity).
  rewrite bool_decide_eq_true_2 by reflexivity. cbn [negb].
  replace (bkp_read_ihdr (drop 8 red_1x1_adam7_png)) with (@None (bkp_ihdr * stream))
    by (vm_compute; reflexivity).
  reflexivity.
Qed.

(** The chunk loop on the file with the corrupt tEXt chunk: the loop
    breaks at that chunk and keeps the IDAT bytes collected before it. *)
Lemma read_chunks_bad_text_crc :
  read_chunks (drop 33 red_1x1_bad_text_crc_png)
  = {| cs_palette := palette_zero; cs_have_plte := false; cs_gamma := 0;
       cs_idat := IdatLive (zlib_stored red_1x1_scanlines) |}.
Proof. vm_compute. reflexivity. Qed.

(** C2: the stored CRC of the tEXt chunk of this file is wrong, and the
    file is decoded all the same: with an inflater that inflates the
    IDAT stream, [bkp_load_png] returns the pixel. *)
Theorem load_png_bad_crc_accepted `{Externals} (outs : out_params) :
  inflate (zlib_stored red_1x1_scanlines) = Some red_1x1_scanlines ->
  bkp_load_png (Some red_1x1_bad_text_crc_png) outs
  = Returned (Some [255; 0; 0; 255])
      {| out_width := (fun _ => 1) <$> out_width outs;
         out_height := (fun _ => 1) <$> out_height outs;
         out_color_type := (fun _ => 6) <$> out_color_type outs |}.
Proof.
  intros Hinf. unfold bkp_load_png.
  replace (fread 8 red_1x1_bad_text_crc_png)
    with (Some (png_signature, drop 8 red_1x1_bad_text_crc_png))
    by (vm_compute; reflexivity).
  rewrite bool_decide_eq_true_2 by reflexivity. cbn [negb].
  replace (bkp_read_ihdr (drop 8 red_1x1_bad_text_crc_png))
    with (Some (mk_ihdr 1 1 8 6 0 0 0, drop 33 red_1x1_bad_text_crc_png))
    by (vm_compute; reflexivity).
  cbv zeta. rewrite read_chunks_bad_text_crc. cbn [cs_idat].
  rewrite Hinf. reflexivity.
Qed.

Lemma load_png_bad_crc_accepted_witness :
  @bkp_load_png stored_externals (Some red_1x1_bad_text_crc_png) outs0
  = Returned (Some [255; 0; 0; 255])
      {| out_width := Some 1; out_height := Some 1;
         out_color_type := Some 6 |}.
Proof.
  apply (@load_png_bad_crc_accepted stored_externals outs0).
  vm_compute. reflexivity.
Defined.

(** The stored CRC of that tEXt chunk is indeed not the computed one. *)
Example bad_text_crc_differs : bkp_crc32 0 (tEXt ++ [65; 0; 66]) <> 0.
Proof. vm_compute. discriminate. Qed.

End Header.

(* ===================================================================== *)
(** * The output variables *)
(* ===================================================================== *)

Section Frame.
Context `{Externals}.

Lemma decode_pixels_null_frame (ihdr : bkp_ihdr) (st : chunk_state)
  (decompressed : list Z) (outs outs' : out_params) :
  decode_pixels ihdr st decompressed outs = Returned None outs' ->
  outs' = outs.
Proof.
  unfold decode_pixels. intros Hr.
  repeat case_match; congruence.
Qed.

(** C10: when [bkp_load_png] returns [NULL], the variables behind
    [out_width], [out_height] and [out_color_type] hold what they held
    before the call. *)
Theorem load_png_null_frame (file : option (list Z)) (outs outs' : out_params) :
  bkp_load_png file outs = Returned None outs' -> outs' = outs.
Proof.
  unfold bkp_load_png. intros Hr.
  repeat case_match; try congruence.
  eapply decode_pixels_null_frame; eassumption.
Qed.

End Frame.

Lemma load_png_null_frame_witness :
  @bkp_load_png stored_externals (Some red_1x1_bad_idat_crc_png) outs0
  = Returned None outs0
  /\ outs0 = outs0.
Proof.
  split; [vm_compute; reflexivity |].
  apply (@load_png_null_frame stored_externals
           (Some red_1x1_bad_idat_crc_png) outs0 outs0).
  vm_compute. reflexivity.
Defined.

(* ===================================================================== *)
(** * The chunk loop terminates *)
(* ===================================================================== *)

Section ChunkLoop.

Lemma fread_length (n : Z) (f f' : stream) (data : list Z) :
  fread n f = Some (data, f') ->
  length f' = (length f - Z.to_nat n)%nat.
Proof.
  unfold fread. case_match; [|discriminate].
  intros [= <- <-]. apply length_drop.
Qed.

Lemma fread_shorter (n : Z) (f f' : stream) (data : list Z) :
  fread n f = Some (data, f') -> (length f' <= length f)%nat.
Proof. intros Hr. apply fread_length in Hr. lia. Qed.

Lemma bkp_read_be32_shorter (f f' : stream) (v : Z) :
  bkp_read_be32 f = Some (v, f') -> (length f' < length f)%nat.
Proof.
  unfold bkp_read_be32.
  destruct (fread 4 f) as [[data f1]|] eqn:Er; [|discriminate].
  intros Hv. assert (f1 = f') as -> by (repeat case_match; congruence).
  pose proof (fread_length _ _ _ _ Er) as Hl.
  unfold fread in Er. case_match; [|discriminate]. lia.
Qed.

Lemma bkp_read_chunk_header_shorter (f f' : stream) (len : Z) (type : list Z) :
  bkp_read_chunk_header f = Some (len, type, f') ->
  (length f' < length f)%nat.
Proof.
  unfold bkp_read_chunk_header.
  destruct (bkp_read_be32 f) as [[v f1]|] eqn:E1; [|discriminate].
  destruct (fread 4 f1) as [[t f2]|] eqn:E2; [|discriminate].
  intros [= <- <- <-].
  apply bkp_read_be32_shorter in E1. apply fread_shorter in E2. lia.
Qed.

Lemma bkp_read_plte_shorter (f f' : stream) (len : Z) (pal pal' : bkp_palette) :
  bkp_read_plte f len pal = Some (pal', f') -> (length f' <= length f)%nat.
Proof.
  unfold bkp_read_plte. intros Hr.
  repeat case_match; try discriminate. simplify_eq.
  match goal with
  | H1 : fread _ _ = Some _, H2 : bkp_read_be32 _ = Some _ |- _ =>
    apply fread_shorter in H1; apply bkp_read_be32_shorter in H2
  end. lia.
Qed.

Lemma bkp_collect_idat_data_shorter (f f' : stream) (len : Z)
  (idat idat' : idat_ptr) :
  bkp_collect_idat_data f idat len = (Some f', idat') ->
  (length f' <= length f)%nat.
Proof.
  unfold bkp_collect_idat_data. intros Hr.
  repeat case_match; try discriminate. simplify_eq.
  match goal with
  | H1 : fread _ _ = Some _, H2 : bkp_read_be32 _ = Some _ |- _ =>
    apply fread_shorter in H1; apply bkp_read_be32_shorter in H2
  end. lia.
Qed.

Lemma bkp_read_gama_shorter (f f' : stream) (len g : Z) :
  bkp_read_gama f len = Some (g, f') -> (length f' <= length f)%nat.
Proof.
  unfold bkp_read_gama. intros Hr.
  repeat case_match; try discriminate. simplify_eq.
  match goal with
  | H1 : fread _ _ = Some _, H2 : bkp_read_be32 _ = Some _ |- _ =>
    apply fread_shorter in H1; apply bkp_read_be32_shorter in H2
  end. lia.
Qed.

Lemma bkp_skip_and_verify_chunk_shorter (f f' : stream) (len : Z)
  (type : list Z) (idat idat' : idat_ptr) :
  bkp_skip_and_verify_chunk f len type idat = (Some f', idat') ->
  (length f' <= length f)%nat.
Proof.
  unfold bkp_skip_and_verify_chunk. intros Hr.
  repeat case_match; try discriminate. simplify_eq.
  match goal with
  | H1 : fread _ _ = Some _, H2 : bkp_read_be32 _ = Some _ |- _ =>
    apply fread_shorter in H1; apply bkp_read_be32_shorter in H2
  end. lia.
Qed.

(** The loop never runs out of fuel: any two amounts of fuel that are at
    least the length of the stream give the same final state. *)
Lemma chunk_loop_fuel (n m : nat) (st : chunk_state) (f : stream) :
  (length f <= n)%nat -> (length f <= m)%nat ->
  chunk_loop n st f = chunk_loop m st f.
Proof.
  revert m st f. induction n as [|n IH]; intros m st f Hn Hm.
  - destruct f; [|cbn in Hn; lia]. destruct m; reflexivity.
  - destruct m as [|m].
    + destruct f; [|cbn in Hm; lia]. reflexivity.
    + cbn [chunk_loop].
      destruct (bkp_read_chunk_header f) as [[[len type] f1]|] eqn:Eh;
        [|reflexivity].
      apply bkp_read_chunk_header_shorter in Eh.
      repeat case_match; try reflexivity; simplify_eq;
        apply IH;
        match goal with
        | H : bkp_read_plte _ _ _ = Some _ |- _ =>
          apply bkp_read_plte_shorter in H
        | H : bkp_collect_idat_data _ _ _ = _ |- _ =>
          apply bkp_collect_idat_data_shorter in H
        | H : bkp_read_gama _ _ = Some _ |- _ =>
          apply bkp_read_gama_shorter in H
        | H : bkp_skip_and_verify_chunk _ _ _ _ = _ |- _ =>
          apply bkp_skip_and_verify_chunk_shorter in H
        end; lia.
Qed.

End ChunkLoop.

(* ===================================================================== *)
(** * Filter reversal inverts filter application *)
(* ===================================================================== *)

Section FilterRoundTrip.

Variable bpp : Z.
Hypothesis bpp_pos : 1 <= bpp.

Lemma nth_is_byte (l : list Z) (i : nat) :
  Forall is_byte l -> is_byte (nth i l 0).
Proof.
  intros Hl. destruct (nth_in_or_default i l 0) as [Hin | ->].
  - rewrite Forall_forall in Hl. apply Hl, list_elem_of_In, Hin.
  - unfold is_byte. lia.
Qed.

Lemma unfilter_byte (x p : Z) : is_byte x -> ((x - p) mod 256 + p) mod 256 = x.
Proof.
  unfold is_byte. intros Hx.
  rewrite Zplus_mod_idemp_l. replace (x - p + p) with x by lia.
  apply Z.mod_small. lia.
Qed.

(** The neighbours the decoder reads in what it has rebuilt are the raw
    neighbours: [done] is the part of the raw row already rebuilt. *)
Lemma at_left_raw (done todo : list Z) :
  at_left bpp done (Z.of_nat (length done))
  = raw_left bpp (done ++ todo) (length done).
Proof.
  unfold at_left, raw_left.
  destruct (Z.leb_spec bpp (Z.of_nat (length done))); case_decide;
    try lia; try reflexivity.
  replace (Z.to_nat (Z.of_nat (length done) - bpp))
    with (length done - Z.to_nat bpp)%nat by lia.
  symmetry. apply app_nth1. lia.
Qed.

Lemma at_up_raw (prev : option (list Z)) (i : nat) :
  at_up prev (Z.of_nat i) = raw_up prev i.
Proof.
  unfold at_up, raw_up. destruct prev; [|reflexivity].
  rewrite Nat2Z.id. reflexivity.
Qed.

Lemma at_up_left_raw (prev : option (list Z)) (i : nat) :
  at_up_left bpp prev (Z.of_nat i) = raw_up_left bpp prev i.
Proof.
  unfold at_up_left, raw_up_left. destruct prev; [|reflexivity].
  destruct (Z.leb_spec bpp (Z.of_nat i)); case_decide;
    try lia; try reflexivity.
  f_equal. lia.
Qed.

(** The row loop rebuilds a raw row from its filtered bytes, whenever
    the body undoes the filter at each position. *)
Lemma row_loop_rebuilds (body : list Z -> Z -> Z -> Z) (g : nat -> Z -> Z)
  (todo done : list Z) :
  (forall d x t, done ++ todo = d ++ x :: t ->
                 body d (Z.of_nat (length d)) (g (length d) x) = x) ->
  row_loop body (imap (fun j => g (length done + j)%nat) todo) done
  = done ++ todo.
Proof.
  revert done. induction todo as [|x todo IH]; intros done Hbody.
  - cbn. rewrite app_nil_r. reflexivity.
  - cbn [imap row_loop]. rewrite Nat.add_0_r.
    rewrite (Hbody done x todo eq_refl).
    replace (done ++ x :: todo) with ((done ++ [x]) ++ todo)
      by (rewrite <- app_assoc; reflexivity).
    rewrite <- IH.
    + f_equal. apply imap_ext. intros j y _. cbn.
      rewrite length_app. cbn. f_equal. lia.
    + intros d y t Heq. apply (Hbody d y t).
      rewrite <- Heq, <- app_assoc. reflexivity.
Qed.

Lemma paeth_on_bytes (raw : list Z) (prev : option (list Z)) (i : nat) :
  Forall is_byte raw ->
  (forall p, prev = Some p -> Forall is_byte p) ->
  bkp_paeth_predictor (raw_left bpp raw i) (raw_up prev i)
    (raw_up_left bpp prev i)
  = paeth_spec (raw_left bpp raw i) (raw_up prev i) (raw_up_left bpp prev i).
Proof.
  intros Hraw Hprev. apply paeth_matches_spec.
  - unfold raw_left. case_decide; [apply nth_is_byte, Hraw|unfold is_byte; lia].
  - unfold raw_up. destruct prev as [p|]; [|unfold is_byte; lia].
    apply nth_is_byte, Hprev. reflexivity.
  - unfold raw_up_left. destruct prev as [p|]; [|unfold is_byte; lia].
    case_decide; [|unfold is_byte; lia].
    apply nth_is_byte, Hprev. reflexivity.
Qed.

(** One scanline: the [switch] of the decoder undoes the filter. *)
Lemma unfilter_row_inverts (f : Z) (prev : option (list Z)) (raw : list Z) :
  0 <= f <= 4 ->
  Forall is_byte raw ->
  (forall p, prev = Some p -> Forall is_byte p) ->
  unfilter_row f bpp prev (png_filter_row f bpp prev raw) = Some raw.
Proof.
  intros Hf Hraw Hprev.
  assert (Hx : forall d x t, raw = d ++ x :: t -> is_byte x).
  { intros d x t ->. rewrite Forall_app, Forall_cons in Hraw. tauto. }
  assert (Hloop : forall body,
    (forall d x t, raw = d ++ x :: t ->
       body d (Z.of_nat (length d))
         ((x - png_predict f (raw_left bpp raw (length d))
                 (raw_up prev (length d))
                 (raw_up_left bpp prev (length d))) mod 256) = x) ->
    row_loop body (png_filter_row f bpp prev raw) [] = raw).
  { intros body Hbody.
    apply (row_loop_rebuilds body
             (fun i x => (x - png_predict f (raw_left bpp raw i)
                                (raw_up prev i) (raw_up_left bpp prev i))
                         mod 256) raw []).
    intros d x t Heq. apply (Hbody d x t). exact Heq. }
  assert (f = 0 \/ f = 1 \/ f = 2 \/ f = 3 \/ f = 4) as Hcases by lia.
  destruct Hcases as [-> | [-> | [-> | [-> | ->]]]]; cbn [unfilter_row].
  - f_equal. unfold png_filter_row. cbn [png_predict].
    rewrite <- (imap_ext (fun _ x => x)).
    + clear. induction raw as [|x l IH]; [reflexivity|].
      cbn. f_equal. exact IH.
    + intros i x Hi. cbn.
      assert (is_byte x) as Hb.
      { rewrite Forall_forall in Hraw. apply Hraw.
        apply list_elem_of_lookup. eauto. }
      unfold is_byte in Hb. rewrite Z.sub_0_r, Z.mod_small by lia.
      reflexivity.
  - f_equal. apply Hloop. intros d x t Heq. cbn [png_predict].
    rewrite Heq, <- at_left_raw. apply unfilter_byte. eauto.
  - f_equal. apply Hloop. intros d x t Heq. cbn [png_predict].
    rewrite at_up_raw. apply unfilter_byte. eauto.
  - f_equal. apply Hloop. intros d x t Heq. cbn [png_predict].
    rewrite at_up_raw, Z.shiftr_div_pow2 by lia.
    rewrite (at_left_raw d (x :: t)), <- Heq.
    change (2 ^ 1) with 2. apply unfilter_byte. eauto.
  - f_equal. apply Hloop. intros d x t Heq. cbn [png_predict].
    rewrite at_up_raw, at_up_left_raw.
    rewrite (at_left_raw d (x :: t)), <- Heq.
    rewrite paeth_on_bytes by assumption.
    apply unfilter_byte. eauto.
Qed.

Lemma png_filter_row_length (f : Z) (prev : option (list Z)) (raw : list Z) :
  length (png_filter_row f bpp prev raw) = length raw.
Proof. unfold png_filter_row. apply length_imap. Qed.

(** The scanline loop on a filtered stream followed by any further
    bytes [rest]: it appends the raw rows and stops in front of
    [rest]. *)
Lemma filter_rows_inverts (stride : Z) (rows : list (list Z)) :
  forall (filters : list Z) (prev : option (list Z)) (out rest : list Z),
  length filters = length rows ->
  Forall (fun f => 0 <= f <= 4) filters ->
  Forall (fun r => Z.of_nat (length r) = stride /\ Forall is_byte r) rows ->
  (forall p, prev = Some p -> Forall is_byte p) ->
  filter_rows (length rows) stride bpp
    (png_filter_rows bpp prev filters rows ++ rest) prev out
  = Done (out ++ concat rows, rest).
Proof.
  induction rows as [|raw rows IH];
    intros filters prev out rest Hlen Hfs Hrows Hprev.
  - destruct filters; [|discriminate]. cbn. rewrite app_nil_r. reflexivity.
  - destruct filters as [|f filters]; [discriminate|].
    apply Forall_cons in Hfs as [Hf Hfs].
    apply Forall_cons in Hrows as [[Hl Hb] Hrows].
    cbn [length png_filter_rows filter_rows app].
    assert (Hs : Z.to_nat stride
                 = length (png_filter_row f bpp prev raw)).
    { rewrite png_filter_row_length. lia. }
    rewrite <- app_assoc, Hs, take_app_length, drop_app_length.
    rewrite unfilter_row_inverts by assumption.
    rewrite length_app, png_filter_row_length.
    destruct (Z.ltb_spec (Z.of_nat (length raw + length
      (png_filter_rows bpp (Some raw) filters rows ++ rest))) stride);
      [lia|].
    rewrite IH; try assumption.
    + cbn [concat]. rewrite app_assoc. reflexivity.
    + cbn in Hlen. lia.
    + intros p [= <-]. exact Hb.
Qed.

End FilterRoundTrip.

(** An [int] product in range is the product. *)
Lemma int_wrap_exact (z : Z) :
  -2147483648 <= z <= INT_MAX -> int_wrap z = z.
Proof.
  unfold int_wrap, INT_MAX, U32. intros Hz.
  rewrite Z.mod_small by lia. lia.
Qed.

(** Whatever the product, the wrapped value differs from it by a multiple
    of [2^32] and lies in the [int] range. *)
Lemma int_wrap_spec (z : Z) :
  exists q, int_wrap z = z + q * U32
            /\ -2147483648 <= int_wrap z <= INT_MAX.
Proof.
  unfold int_wrap, INT_MAX, U32.
  exists (- ((z + 2147483648) / 4294967296)).
  pose proof (Z.div_mod (z + 2147483648) 4294967296 ltac:(lia)).
  pose proof (Z.mod_pos_bound (z + 2147483648) 4294967296 ltac:(lia)).
  lia.
Qed.

(** With a stride and row offsets in [int] range the decoder is the
    scanline loop on [width * bpp] bytes a row. *)
Lemma bkp_filter_decode_exact (data : list Z) (width height bpp : Z) :
  0 <= width * bpp <= INT_MAX ->
  (height - 1) * (width * bpp) <= INT_MAX ->
  bkp_filter_decode data width height bpp
  = (r ← filter_rows (Z.to_nat height) (width * bpp) bpp data None [];
     Done (fst r)).
Proof.
  intros Hs Ho. unfold bkp_filter_decode.
  rewrite int_wrap_exact by lia. cbv zeta.
  destruct (Z.ltb_spec (width * bpp) 0); [lia|].
  destruct (Z.ltb_spec INT_MAX ((height - 1) * (width * bpp))); [lia|].
  reflexivity.
Qed.

(** C3: within the [int] range of the function, for a width and a height
    of at least 1 and [bpp] among 1, 2, 3, 4 such that the image has at
    most [INT_MAX] bytes, any matrix of raw scanline bytes and any filter
    selector among 0..4 for each row, [bkp_filter_decode] run on the
    filtered stream returns the raw matrix. *)
Theorem filter_decode_inverts_filter (width height bpp : Z)
  (filters : list Z) (rows : list (list Z)) :
  1 <= width -> 1 <= height -> 1 <= bpp <= 4 ->
  height * (width * bpp) <= INT_MAX ->
  Z.of_nat (length rows) = height ->
  length filters = length rows ->
  Forall (fun f => 0 <= f <= 4) filters ->
  Forall (fun r => Z.of_nat (length r) = width * bpp /\ Forall is_byte r) rows ->
  bkp_filter_decode (png_filter_image bpp filters rows) width height bpp
  = Done (concat rows).
Proof.
  intros Hw Hh Hbpp Hint Hrows Hlen Hfs Hbytes.
  rewrite bkp_filter_decode_exact by nia.
  unfold png_filter_image.
  rewrite <- Hrows, Nat2Z.id.
  rewrite <- (app_nil_r (png_filter_rows bpp None filters rows)).
  rewrite (filter_rows_inverts bpp) by (try assumption; try lia; discriminate).
  reflexivity.
Qed.

Lemma filter_decode_inverts_filter_witness :
  bkp_filter_decode
    (png_filter_image 3 [4; 3; 1]
       [[10; 20; 30; 250; 5; 128]; [0; 255; 7; 90; 91; 92]; [1; 2; 3; 4; 5; 6]])
    2 3 3
  = Done [10; 20; 30; 250; 5; 128; 0; 255; 7; 90; 91; 92; 1; 2; 3; 4; 5; 6].
Proof.
  apply (filter_decode_inverts_filter 2 3 3 [4; 3; 1]
           [[10; 20; 30; 250; 5; 128]; [0; 255; 7; 90; 91; 92];
            [1; 2; 3; 4; 5; 6]]);
    unfold INT_MAX; try lia; try reflexivity;
    repeat first [apply Forall_nil_2 | apply Forall_cons_2 | split];
    unfold is_byte; cbn; lia.
Defined.

(** Past the [int] range the claim fails.  For a width of 2^30 and 4
    bytes per pixel the stride [width * bpp] is 2^32, which the [int]
    product reduces to 0: the decoder reads the filter byte, copies no
    byte and returns, and the scanline of 2^32 bytes is not
    reconstructed. *)
Lemma filter_decode_stride_wraps :
  (1 <= 1073741824 /\ 1 <= 1 /\ 1 <= 4 <= 4
   /\ Z.of_nat (length [wide_row]) = 1
   /\ length [0] = length [wide_row]
   /\ Forall (fun f => 0 <= f <= 4) [0]
   /\ Forall (fun r => Z.of_nat (length r) = 1073741824 * 4
                       /\ Forall is_byte r) [wide_row])
  /\ bkp_filter_decode (png_filter_image 4 [0] [wide_row]) 1073741824 1 4
     = Done []
  /\ bkp_filter_decode (png_filter_image 4 [0] [wide_row]) 1073741824 1 4
     <> Done (concat [wide_row]).
Proof.
  assert (Hrun : forall row,
            bkp_filter_decode (png_filter_image 4 [0] [row]) 1073741824 1 4
            = Done []).
  { intros row. unfold bkp_filter_decode.
    change (int_wrap (1073741824 * 4)) with 0. cbv zeta.
    change ((0 <? 0) || (INT_MAX <? (1 - 1) * 0)) with false. cbv iota.
    unfold png_filter_image. cbn [png_filter_rows].
    change (Z.to_nat 1) with 1%nat. cbn [filter_rows].
    change (Z.to_nat 0) with 0%nat. rewrite take_0. cbn [unfilter_row].
    destruct (Z.ltb_spec
                (Z.of_nat (length (png_filter_row 0 4 None row ++ []))) 0);
      [lia|].
    reflexivity. }
  split; [|split].
  - split; [lia|]. split; [lia|]. split; [lia|].
    split; [cbn [length]; lia|]. split; [cbn [length]; lia|].
    split; [apply Forall_cons_2; [lia | apply Forall_nil_2]|].
    apply Forall_cons_2; [|apply Forall_nil_2]. split.
    + unfold wide_row. rewrite length_replicate. lia.
    + unfold wide_row. apply Forall_replicate. unfold is_byte. lia.
  - apply Hrun.
  - rewrite Hrun. intros Heq.
    assert (Hl : Z.of_nat (length (concat [wide_row])) = 4294967296).
    { cbn [concat]. rewrite app_nil_r. unfold wide_row.
      rewrite length_replicate. apply Z2Nat.id. lia. }
    assert (He : @nil Z = concat [wide_row]) by congruence.
    rewrite <- He in Hl. discriminate Hl.
Qed.

(* ===================================================================== *)
(** * Adam7 covers the grid exactly once *)
(* ===================================================================== *)

Section Adam7Coverage.

(** The values of a [for] loop with a positive step: those from the
    start below the limit that are a whole number of steps away. *)
Lemma for_steps_spec (limit step : Z) (fuel : nat) :
  1 <= step ->
  forall start x,
  (Z.to_nat (limit - start) <= fuel)%nat ->
  In x (for_steps fuel start limit step)
  <-> start <= x < limit /\ (x - start) mod step = 0.
Proof.
  intros Hstep. induction fuel as [|fuel IH]; intros start x Hfuel.
  - cbn. split; [tauto | lia].
  - cbn [for_steps]. destruct (Z.ltb_spec start limit) as [Hlt | Hge].
    + cbn [In]. rewrite IH by lia.
      replace (x - (start + step)) with (x - start + (-1) * step) by lia.
      rewrite Z_mod_plus_full.
      split.
      * intros [<- | [Hr Hm]].
        -- rewrite Z.sub_diag, Z.mod_0_l by lia. lia.
        -- lia.
      * intros [Hr Hm].
        destruct (Z.eq_dec start x) as [-> | Hne]; [left; reflexivity|].
        right. split; [|exact Hm].
        apply Z.mod_divide in Hm; [|lia]. destruct Hm as [q Hq].
        assert (1 <= q) by nia. nia.
    + cbn. split; [tauto | lia].
Qed.

Lemma for_range_spec (start limit step x : Z) :
  1 <= step ->
  In x (for_range start limit step)
  <-> start <= x < limit /\ (x - start) mod step = 0.
Proof.
  intros Hstep. unfold for_range. apply for_steps_spec; [exact Hstep | lia].
Qed.

Lemma for_steps_NoDup (limit step : Z) (fuel : nat) :
  1 <= step ->
  forall start,
  (Z.to_nat (limit - start) <= fuel)%nat ->
  NoDup (for_steps fuel start limit step).
Proof.
  intros Hstep. induction fuel as [|fuel IH]; intros start Hfuel.
  - constructor.
  - cbn [for_steps]. destruct (Z.ltb_spec start limit); [|constructor].
    apply NoDup_cons_2.
    + rewrite list_elem_of_In, for_steps_spec by lia. lia.
    + apply IH. lia.
Qed.

Lemma for_range_NoDup (start limit step : Z) :
  1 <= step -> NoDup (for_range start limit step).
Proof.
  intros Hstep. unfold for_range. apply for_steps_NoDup; [exact Hstep | lia].
Qed.

(** The pixels of a pass: its columns paired with its rows. *)
Lemma in_grid_product (xs ys : list Z) (x y : Z) :
  In (x, y) (flat_map (fun y => map (fun x => (x, y)) xs) ys)
  <-> In x xs /\ In y ys.
Proof.
  rewrite in_flat_map. split.
  - intros [y' [Hy Hin]]. apply in_map_iff in Hin as [x' [[= <- <-] Hx]].
    tauto.
  - intros [Hx Hy]. exists y. split; [exact Hy|].
    apply in_map_iff. exists x. tauto.
Qed.

Lemma grid_product_NoDup (xs ys : list Z) :
  NoDup xs -> NoDup ys ->
  NoDup (flat_map (fun y => map (fun x => (x, y)) xs) ys).
Proof.
  intros Hxs Hys. induction Hys as [|y ys Hy Hys IH]; [constructor|].
  cbn [flat_map]. apply NoDup_app. split; [|split].
  - clear -Hxs. induction Hxs as [|x xs Hx Hxs IH]; [constructor|].
    cbn [map]. apply NoDup_cons_2; [|exact IH].
    rewrite list_elem_of_In, in_map_iff. intros [x' [[= ->] Hin]].
    apply Hx, list_elem_of_In, Hin.
  - intros [a b] Ha Hb. rewrite list_elem_of_In in Ha, Hb.
    apply in_map_iff in Ha as [x' [[= <- <-] _]].
    apply in_grid_product in Hb as [_ Hb].
    apply Hy. apply list_elem_of_In. exact Hb.
  - exact IH.
Qed.

Lemma adam7_steps_positive (p : Z * Z * Z * Z) :
  In p ADAM7_PASSES ->
  let '(_, _, dx, dy) := p in 1 <= dx /\ 1 <= dy.
Proof.
  cbn. intros Hin.
  repeat (destruct Hin as [<- | Hin]; [lia|]). destruct Hin.
Qed.

Lemma pass_positions_spec (p : Z * Z * Z * Z) (width height x y : Z) :
  In p ADAM7_PASSES ->
  In (x, y) (pass_positions p width height)
  <-> on_pass p x y /\ x < width /\ y < height.
Proof.
  intros Hp. pose proof (adam7_steps_positive p Hp) as Hpos.
  destruct p as [[[x0 y0] dx] dy]. destruct Hpos as [Hdx Hdy].
  unfold pass_positions, on_pass, on_lattice.
  rewrite in_grid_product, !for_range_spec by assumption. tauto.
Qed.

Lemma pass_positions_NoDup (p : Z * Z * Z * Z) (width height : Z) :
  In p ADAM7_PASSES -> NoDup (pass_positions p width height).
Proof.
  intros Hp. pose proof (adam7_steps_positive p Hp) as Hpos.
  destruct p as [[[x0 y0] dx] dy]. destruct Hpos as [Hdx Hdy].
  unfold pass_positions.
  apply grid_product_NoDup; apply for_range_NoDup; assumption.
Qed.

(** Skipping the empty passes changes nothing: they have no pixel. *)
Lemma skipped_pass_is_empty (p : Z * Z * Z * Z) (width height : Z) :
  (if (pass_width p width =? 0) || (pass_height p height =? 0) then []
   else pass_positions p width height)
  = pass_positions p width height.
Proof.
  destruct p as [[[x0 y0] dx] dy].
  unfold pass_width, pass_height, pass_positions.
  destruct (for_range x0 width dx) as [|x xs] eqn:Ex;
    destruct (for_range y0 height dy) as [|y ys] eqn:Ey; cbn;
    try reflexivity.
  clear. induction ys as [|y' ys IH]; [reflexivity|]. cbn. exact IH.
Qed.

Lemma adam7_positions_all_passes (width height : Z) :
  adam7_positions width height
  = flat_map (fun p => pass_positions p width height) ADAM7_PASSES.
Proof.
  unfold adam7_positions. apply flat_map_ext. intros p.
  apply skipped_pass_is_empty.
Qed.

(** The seven lattices, read off the residue modulo 8. *)
Lemma lattice_0_8 (x : Z) : on_lattice 0 8 x <-> 0 <= x /\ x mod 8 = 0.
Proof. unfold on_lattice. Z.div_mod_to_equations. lia. Qed.

Lemma lattice_4_8 (x : Z) : on_lattice 4 8 x <-> 0 <= x /\ x mod 8 = 4.
Proof. unfold on_lattice. Z.div_mod_to_equations. lia. Qed.

Lemma lattice_0_4 (x : Z) :
  on_lattice 0 4 x <-> 0 <= x /\ (x mod 8 = 0 \/ x mod 8 = 4).
Proof. unfold on_lattice. Z.div_mod_to_equations. lia. Qed.

Lemma lattice_2_4 (x : Z) :
  on_lattice 2 4 x <-> 0 <= x /\ (x mod 8 = 2 \/ x mod 8 = 6).
Proof. unfold on_lattice. Z.div_mod_to_equations. lia. Qed.

Lemma lattice_0_2 (x : Z) :
  on_lattice 0 2 x
  <-> 0 <= x /\ (x mod 8 = 0 \/ x mod 8 = 2 \/ x mod 8 = 4 \/ x mod 8 = 6).
Proof. unfold on_lattice. Z.div_mod_to_equations. lia. Qed.

Lemma lattice_1_2 (x : Z) :
  on_lattice 1 2 x
  <-> 0 <= x /\ (x mod 8 = 1 \/ x mod 8 = 3 \/ x mod 8 = 5 \/ x mod 8 = 7).
Proof. unfold on_lattice. Z.div_mod_to_equations. lia. Qed.

Lemma lattice_0_1 (x : Z) : on_lattice 0 1 x <-> 0 <= x.
Proof. unfold on_lattice. rewrite Z.mod_1_r. lia. Qed.

Create Rewrite HintDb adam7.
Hint Rewrite lattice_0_8 lattice_4_8 lattice_0_4 lattice_2_4 lattice_0_2
  lattice_1_2 lattice_0_1 : adam7.

Ltac split_residue r :=
  let H := fresh in
  assert (H : r = 0 \/ r = 1 \/ r = 2 \/ r = 3
              \/ r = 4 \/ r = 5 \/ r = 6 \/ r = 7) by lia;
  destruct H as [-> | [-> | [-> | [-> | [-> | [-> | [-> | ->]]]]]]].

(** Closes a goal on lattice membership: the residues of [x] and [y]
    modulo 8 are taken through their 64 values. *)
Ltac residues x y :=
  unfold on_pass in *; autorewrite with adam7 in *;
  let rx := fresh "rx" in
  let ry := fresh "ry" in
  pose proof (Z.mod_pos_bound x 8 ltac:(lia));
  pose proof (Z.mod_pos_bound y 8 ltac:(lia));
  set (rx := x mod 8) in *; set (ry := y mod 8) in *;
  clearbody rx ry;
  split_residue rx; split_residue ry; lia.

(** Membership in the concatenation of the seven passes, as arithmetic. *)
Ltac passes_to_arith :=
  repeat match goal with
         | H : _ ∈ _ |- _ => rewrite list_elem_of_In in H
         | H : context [In _ (_ ++ _)] |- _ => rewrite in_app_iff in H
         | H : context [In _ (pass_positions _ _ _)] |- _ =>
           rewrite pass_positions_spec in H by (cbn; tauto)
         | H : context [In _ []] |- _ => cbn [In] in H
         end.

Lemma adam7_positions_in (width height x y : Z) :
  In (x, y) (adam7_positions width height)
  <-> 0 <= x < width /\ 0 <= y < height.
Proof.
  rewrite adam7_positions_all_passes. unfold ADAM7_PASSES.
  cbn [flat_map]. rewrite !in_app_iff.
  rewrite !pass_positions_spec by (cbn; tauto).
  cbn [In]. residues x y.
Qed.

Lemma adam7_positions_NoDup (width height : Z) :
  NoDup (adam7_positions width height).
Proof.
  rewrite adam7_positions_all_passes. unfold ADAM7_PASSES.
  cbn [flat_map].
  repeat (apply NoDup_app; split;
          [apply pass_positions_NoDup; cbn; tauto | split]);
    try apply NoDup_nil_2;
    intros [x y] Hin Hin'; passes_to_arith; residues x y.
Qed.

End Adam7Coverage.

(* ===================================================================== *)
(** * The size of the buffers *)
(* ===================================================================== *)

Section BufferSizes.

Lemma row_loop_length (body : list Z -> Z -> Z -> Z) (curr out_row : list Z) :
  length (row_loop body curr out_row) = (length out_row + length curr)%nat.
Proof.
  revert out_row. induction curr as [|x curr IH]; intros out_row; cbn.
  - lia.
  - rewrite IH, length_app. cbn. lia.
Qed.

Lemma unfilter_row_length (filter bpp : Z) (prev_row : option (list Z))
  (curr out_row : list Z) :
  unfilter_row filter bpp prev_row curr = Some out_row ->
  length out_row = length curr.
Proof.
  unfold unfilter_row. intros Hr.
  repeat case_match; simplify_eq; try reflexivity;
    rewrite row_loop_length; reflexivity.
Qed.

(** The scanline loop appends [rows] rows of [stride] bytes. *)
Lemma filter_rows_length (stride bpp : Z) (rows : nat) :
  0 <= stride ->
  forall data prev_row out out' rest,
  filter_rows rows stride bpp data prev_row out = Done (out', rest) ->
  length out' = (length out + rows * Z.to_nat stride)%nat.
Proof.
  intros Hs. induction rows as [|rows IH];
    intros data prev_row out out' rest Hr; cbn [filter_rows] in Hr.
  - simplify_eq. lia.
  - destruct data as [|filter curr]; [discriminate|].
    destruct (unfilter_row filter bpp prev_row (take (Z.to_nat stride) curr))
      as [out_row|] eqn:Eu; [|discriminate].
    destruct (Z.ltb_spec (Z.of_nat (length curr)) stride); [discriminate|].
    apply IH in Hr. apply unfilter_row_length in Eu.
    rewrite length_app, Eu, length_take in Hr. lia.
Qed.

Lemma bkp_filter_decode_length (data out : list Z) (width height bpp : Z) :
  bkp_filter_decode data width height bpp = Done out ->
  0 <= int_wrap (width * bpp)
  /\ length out
     = (Z.to_nat height * Z.to_nat (int_wrap (width * bpp)))%nat.
Proof.
  unfold bkp_filter_decode. cbv zeta. intros Hr.
  destruct (Z.ltb_spec (int_wrap (width * bpp)) 0) as [|Hs];
    [discriminate|].
  destruct (INT_MAX <? (height - 1) * int_wrap (width * bpp));
    [discriminate|]. cbn [orb] in Hr.
  destruct (filter_rows (Z.to_nat height) (int_wrap (width * bpp)) bpp data
              None [])
    as [[out' rest]| |] eqn:Ef; try discriminate.
  cbn in Hr. simplify_eq. split; [exact Hs|].
  apply filter_rows_length in Ef; [|exact Hs]. cbn in Ef. exact Ef.
Qed.

Lemma store_length (buf buf' : list Z) (k v : Z) :
  store buf k v = Done buf' -> length buf' = length buf.
Proof.
  unfold store. case_match; [|discriminate].
  intros [= <-]. apply length_insert.
Qed.

(** A loop of stores keeps the size of the buffer. *)
Lemma fold_outcome_invariant {A B} (P : A -> Prop)
  (body : A -> B -> outcome A) (l : list B) :
  (forall a b a', P a -> body a b = Done a' -> P a') ->
  forall a a', P a -> fold_outcome body l a = Done a' -> P a'.
Proof.
  intros Hbody. induction l as [|b l IH]; intros a a' Ha Hr; cbn in Hr.
  - simplify_eq. exact Ha.
  - destruct (body a b) as [a1| |] eqn:Eb; try discriminate.
    cbn in Hr. eapply IH; [|exact Hr]. eapply Hbody; eassumption.
Qed.

Lemma scatter_pixel_length (width bpp : Z) (filtered_pass : list Z)
  (st st' : list Z * Z) (xy : Z * Z) :
  scatter_pixel width bpp filtered_pass st xy = Done st' ->
  length (fst st') = length (fst st).
Proof.
  unfold scatter_pixel. destruct st as [out idx], xy as [x y].
  intros Hr.
  match type of Hr with
  | context [fold_outcome ?b ?l out] =>
    destruct (fold_outcome b l out) as [out1| |] eqn:Ef; try discriminate
  end.
  cbn in Hr. simplify_eq. cbn.
  revert Ef. apply (fold_outcome_invariant (fun o => length o = length out));
    [|reflexivity].
  intros o c o' Ho Hs. apply store_length in Hs. congruence.
Qed.

Lemma adam7_pass_length (width height bpp : Z) (st st' : list Z * list Z)
  (p : Z * Z * Z * Z) :
  adam7_pass width height bpp st p = Done st' ->
  length (snd st') = length (snd st).
Proof.
  unfold adam7_pass. destruct st as [ptr out]. intros Hr.
  case_match; [simplify_eq; reflexivity|].
  match type of Hr with
  | context [filter_rows ?a ?b ?c ?d ?e ?f] =>
    destruct (filter_rows a b c d e f) as [r| |]; try discriminate
  end.
  cbn in Hr.
  match type of Hr with
  | context [fold_outcome ?b ?l ?a] =>
    destruct (fold_outcome b l a) as [s| |] eqn:Ef; try discriminate
  end.
  cbn in Hr. simplify_eq. cbn.
  revert Ef.
  apply (fold_outcome_invariant (fun s => length (fst s) = length out));
    [|reflexivity].
  intros s0 xy s1 Hs0 Hs. apply scatter_pixel_length in Hs. congruence.
Qed.

Lemma bkp_decode_adam7_length (data out out' : list Z) (width height bpp : Z) :
  bkp_decode_adam7 data width height bpp out = Done out' ->
  length out' = length out.
Proof.
  unfold bkp_decode_adam7. intros Hr.
  match type of Hr with
  | context [fold_outcome ?b ?l ?a] =>
    destruct (fold_outcome b l a) as [r| |] eqn:Ef; try discriminate
  end.
  cbn in Hr. simplify_eq.
  revert Ef.
  apply (fold_outcome_invariant (fun s => length (snd s) = length out));
    [|reflexivity].
  intros s0 p s1 Hs0 Hs. apply adam7_pass_length in Hs. congruence.
Qed.

Lemma flat_map_length_const {A B} (f : A -> list B) (k : nat) (l : list A) :
  (forall a, length (f a) = k) ->
  length (flat_map f l) = (k * length l)%nat.
Proof.
  intros Hf. induction l as [|a l IH]; cbn.
  - lia.
  - rewrite length_app, Hf, IH. lia.
Qed.

Lemma bkp_expand_palette_length (indexed : list Z) (n_pixels : Z)
  (pal : bkp_palette) :
  length (bkp_expand_palette indexed n_pixels pal)
  = (4 * Z.to_nat n_pixels)%nat.
Proof.
  unfold bkp_expand_palette.
  rewrite (flat_map_length_const _ 4), length_seq; [reflexivity|].
  intros i. destruct (nth _ (palette pal) _) as [[[r g] b] a]. reflexivity.
Qed.

(** With exact dimensions the [uint32_t] products are the products. *)
Lemma dims_exact_spec (ihdr : bkp_ihdr) (bpp : Z) :
  dims_exact ihdr bpp = true ->
  0 <= width ihdr <= 2147483639 /\ 0 <= height ihdr <= 2147483639
  /\ 4 * (width ihdr * height ihdr) < 4294967296
  /\ width ihdr * height ihdr * bpp <= 2147483647
  /\ width ihdr * bpp <= 2147483647.
Proof.
  unfold dims_exact, INT_MAX, U32.
  rewrite !andb_true_iff, !Z.leb_le, Z.ltb_lt. lia.
Qed.

Lemma u32_mul_exact (a b : Z) :
  0 <= a * b < 4294967296 -> u32_mul a b = a * b.
Proof.
  unfold u32_mul, U32. intros Hab. apply Z.mod_small. lia.
Qed.

Lemma to_rgba_length (ihdr : bkp_ihdr) (have_plte : bool) (pal : bkp_palette)
  (filtered_pixels raw_pixels : list Z) (bpp : Z) :
  dims_exact ihdr bpp = true ->
  bpp_of (color_type ihdr) = Some bpp ->
  Z.of_nat (length filtered_pixels) = width ihdr * height ihdr * bpp ->
  to_rgba ihdr have_plte pal filtered_pixels = Some raw_pixels ->
  Z.of_nat (length raw_pixels) = 4 * width ihdr * height ihdr.
Proof.
  intros Hd Hbpp Hlen Hr. apply dims_exact_spec in Hd.
  assert (Hn : u32_mul (width ihdr) (height ihdr) = width ihdr * height ihdr)
    by (apply u32_mul_exact; nia).
  unfold to_rgba in Hr. rewrite Hn in Hr.
  unfold BK_PNG_INDEXED, BK_PNG_GRAY, BK_PNG_GRAY_ALPHA, BK_PNG_RGB,
    BK_PNG_RGBA in Hr.
  repeat case_match; simplify_eq;
    try (rewrite (flat_map_length_const _ 4), length_seq by reflexivity; nia).
  - rewrite bkp_expand_palette_length. nia.
  - rewrite u32_mul_exact by nia.
    rewrite length_take.
    match goal with
    | H : (color_type ihdr =? 6) = true |- _ => apply Z.eqb_eq in H; rewrite H in Hbpp
    end.
    cbn in Hbpp. simplify_eq. nia.
Qed.

End BufferSizes.

Section LoadSize.
Context `{Externals}.

Lemma bpp_of_range (ct bpp : Z) : bpp_of ct = Some bpp -> 1 <= bpp <= 4.
Proof.
  unfold bpp_of. intros Hb. repeat case_match; simplify_eq; lia.
Qed.

Lemma decode_scanlines_length (ihdr : bkp_ihdr) (bpp : Z)
  (decompressed filtered_pixels : list Z) :
  dims_exact ihdr bpp = true ->
  1 <= bpp <= 4 ->
  decode_scanlines ihdr bpp decompressed = Done filtered_pixels ->
  Z.of_nat (length filtered_pixels) = width ihdr * height ihdr * bpp.
Proof.
  intros Hd Hbpp Hr. apply dims_exact_spec in Hd.
  unfold decode_scanlines in Hr. repeat case_match; try discriminate.
  - apply bkp_filter_decode_length in Hr as [_ Hr].
    rewrite int_wrap_exact in Hr by (unfold INT_MAX; nia). nia.
  - apply bkp_decode_adam7_length in Hr.
    rewrite Hr, length_replicate.
    rewrite (u32_mul_exact (width ihdr)) by nia.
    rewrite u32_mul_exact by nia. nia.
Qed.

(** The gamma loops store into the buffer, they do not resize it. *)
Lemma gamma_pixel_length (gamma : Z) (pixels : list Z) (i : nat) :
  length (gamma_pixel gamma pixels i) = length pixels.
Proof.
  unfold gamma_pixel. cbn. rewrite !length_insert. reflexivity.
Qed.

Lemma bkp_apply_gamma_correction_length (pixels : list Z) (w h gamma : Z) :
  length (bkp_apply_gamma_correction pixels w h gamma) = length pixels.
Proof.
  unfold bkp_apply_gamma_correction. case_match; [reflexivity|].
  generalize (seq 0 (Z.to_nat (u32_mul w h))). intros l.
  revert pixels. induction l as [|i l IH]; intros pixels; cbn; [reflexivity|].
  rewrite IH. apply gamma_pixel_length.
Qed.

(** What [dims_in_bounds] says, for the [bpp] of a colour type. *)
Lemma dims_in_bounds_spec (ihdr : bkp_ihdr) (bpp gamma : Z) :
  dims_in_bounds ihdr bpp gamma = true ->
  interlace_method ihdr = 0
  /\ 0 <= width ihdr <= INT_MAX /\ 0 <= height ihdr <= INT_MAX
  /\ u32_mul (width ihdr) (height ihdr) = width ihdr * height ihdr
  /\ width ihdr * height ihdr < U32
  /\ 0 <= int_wrap (width ihdr * bpp)
  /\ height ihdr * int_wrap (width ihdr * bpp) <= INT_MAX
  /\ height ihdr * int_wrap (width ihdr * bpp)
     <= u32_mul (width ihdr * height ihdr) bpp
  /\ (color_type ihdr = BK_PNG_RGBA ->
      u32_mul (width ihdr * height ihdr) 4
      <= height ihdr * int_wrap (width ihdr * bpp))
  /\ (color_type ihdr <> BK_PNG_RGBA ->
      4 * (width ihdr * height ihdr) < U32)
  /\ (0 < gamma -> 4 * (width ihdr * height ihdr) < U32).
Proof.
  unfold dims_in_bounds. cbv zeta.
  rewrite !andb_true_iff, orb_true_iff, !Z.leb_le, !Z.ltb_lt, Z.eqb_eq.
  intros [[[[[[[[[[Hi Hw0] Hw] Hh0] Hh] Hn] Hs] Hhs] Hf] Hc] Hg].
  assert (Hmul : u32_mul (width ihdr) (height ihdr)
                 = width ihdr * height ihdr).
  { unfold u32_mul. apply Z.mod_small. nia. }
  rewrite Hmul in *.
  repeat (split; [first [assumption | lia]|]). split; [|split].
  - intros Hct. rewrite Hct in Hc.
    change (BK_PNG_RGBA =? BK_PNG_RGBA) with true in Hc.
    apply Z.leb_le in Hc. exact Hc.
  - intros Hct. destruct (Z.eqb_spec (color_type ihdr) BK_PNG_RGBA);
      [contradiction|].
    apply andb_true_iff in Hc as [_ Hc]. apply Z.ltb_lt in Hc. exact Hc.
  - intros Hpos. destruct Hg as [Hg | Hg]; [lia | exact Hg].
Qed.

(** The conversion returns [4 * width * height] bytes modulo [2^32], the
    size of [raw_pixels]. *)
Lemma to_rgba_length_mod (ihdr : bkp_ihdr) (have_plte : bool)
  (pal : bkp_palette) (filtered_pixels raw_pixels : list Z) :
  0 <= width ihdr * height ihdr < U32 ->
  (color_type ihdr = BK_PNG_RGBA ->
   u32_mul (width ihdr * height ihdr) 4 <= Z.of_nat (length filtered_pixels)) ->
  (color_type ihdr <> BK_PNG_RGBA -> 4 * (width ihdr * height ihdr) < U32) ->
  to_rgba ihdr have_plte pal filtered_pixels = Some raw_pixels ->
  Z.of_nat (length raw_pixels) = (4 * width ihdr * height ihdr) mod U32.
Proof.
  intros Hn Hrgba Hother Hr.
  assert (Hmul : u32_mul (width ihdr) (height ihdr)
                 = width ihdr * height ihdr)
    by (unfold u32_mul; apply Z.mod_small; lia).
  unfold to_rgba in Hr. rewrite Hmul in Hr.
  unfold BK_PNG_INDEXED, BK_PNG_GRAY, BK_PNG_GRAY_ALPHA, BK_PNG_RGB,
    BK_PNG_RGBA in *.
  repeat match type of Hr with
         | context [color_type ihdr =? ?c] =>
           destruct (Z.eqb_spec (color_type ihdr) c)
         end;
    repeat case_match; simplify_eq;
    try (rewrite Z.mod_small by lia;
         first [rewrite bkp_expand_palette_length
               |rewrite (flat_map_length_const _ 4), length_seq
                  by reflexivity]; lia).
  rewrite length_take.
  replace (4 * width ihdr * height ihdr)
    with (width ihdr * height ihdr * 4) by lia.
  fold (u32_mul (width ihdr * height ihdr) 4).
  assert (0 <= u32_mul (width ihdr * height ihdr) 4)
    by (unfold u32_mul, U32; apply Z.mod_pos_bound; lia).
  specialize (Hrgba ltac:(lia)). lia.
Qed.

(** What a successful run of the last stage returns: a buffer of
    [4 * width * height] bytes modulo [2^32], and the header fields in the
    output variables. *)
Lemma decode_pixels_success (ihdr : bkp_ihdr) (st : chunk_state)
  (decompressed pixels : list Z) (outs outs' : out_params) :
  decode_pixels ihdr st decompressed outs = Returned (Some pixels) outs' ->
  Z.of_nat (length pixels) = (4 * width ihdr * height ihdr) mod U32
  /\ outs' = write_outs ihdr outs.
Proof.
  unfold decode_pixels. intros Hr.
  destruct (bpp_of (color_type ihdr)) as [bpp|] eqn:Ebpp; [|discriminate].
  pose proof (bpp_of_range _ _ Ebpp) as Hbpp.
  destruct (Z.of_nat (length decompressed) <? expected_size ihdr bpp);
    [discriminate|].
  destruct (decode_scanlines ihdr bpp decompressed) as [filtered| |] eqn:Es;
    try (destruct (negb _); discriminate).
  destruct (to_rgba ihdr (cs_have_plte st) (cs_palette st) filtered)
    as [raw|] eqn:Er; [|destruct (negb _); discriminate].
  assert (Hraw : Z.of_nat (length raw)
                 = (4 * width ihdr * height ihdr) mod U32).
  { destruct (dims_exact ihdr bpp) eqn:Ed.
    - rewrite (to_rgba_length _ _ _ _ _ _ Ed Ebpp
                 (decode_scanlines_length _ _ _ _ Ed Hbpp Es) Er).
      apply dims_exact_spec in Ed. symmetry. apply Z.mod_small.
      unfold U32. nia.
    - cbn [orb] in Hr.
      destruct (dims_in_bounds ihdr bpp (cs_gamma st)) eqn:Eb;
        [|discriminate].
      apply dims_in_bounds_spec in Eb
        as (Hi & Hw & Hh & Hmul & Hn & Hs0 & Hhs & _ & Hrgba & Hother & _).
      unfold decode_scanlines in Es. rewrite Hi in Es. cbn [Z.eqb] in Es.
      apply bkp_filter_decode_length in Es as [_ Hlen].
      eapply to_rgba_length_mod; [| | exact Hother | exact Er].
      + nia.
      + intros Hct. specialize (Hrgba Hct).
        rewrite Hct in Ebpp. cbn in Ebpp. simplify_eq. nia. }
  destruct (negb _); [discriminate|]. simplify_eq. split; [|reflexivity].
  case_match; [rewrite bkp_apply_gamma_correction_length|]; exact Hraw.
Qed.

Lemma fread_drop (n : Z) (f f' : stream) (data : list Z) :
  fread n f = Some (data, f') -> f' = drop (Z.to_nat n) f.
Proof.
  unfold fread. case_match; [|discriminate]. intros [= <- <-]. reflexivity.
Qed.

(** Every buffer [bkp_load_png] returns: the file starts with a header
    that [bkp_read_ihdr] accepts, whose fields are stored through the
    output pointers, and the buffer holds [4 * width * height] bytes
    modulo [2^32]: exactly [4 * width * height] when that size fits 32
    bits, and fewer when it does not. *)
Lemma load_png_buffer_size_mod (file : option (list Z)) (pixels : list Z)
  (outs outs' : out_params) :
  bkp_load_png file outs = Returned (Some pixels) outs' ->
  exists f ihdr rest,
    file = Some f
    /\ bkp_read_ihdr (drop 8 f) = Some (ihdr, rest)
    /\ Z.of_nat (length pixels) = (4 * width ihdr * height ihdr) mod U32
    /\ (0 <= 4 * width ihdr * height ihdr < U32 ->
        Z.of_nat (length pixels) = 4 * width ihdr * height ihdr)
    /\ outs' = write_outs ihdr outs.
Proof.
  unfold bkp_load_png. intros Hr.
  destruct file as [f|]; [|discriminate].
  destruct (fread 8 f) as [[signature_read f1]|] eqn:Esig; [|discriminate].
  apply fread_drop in Esig. subst f1.
  destruct (negb (bool_decide (signature_read = png_signature)));
    [discriminate|].
  destruct (bkp_read_ihdr (drop (Z.to_nat 8) f)) as [[ihdr f2]|] eqn:Eh;
    [|discriminate].
  cbv zeta in Hr.
  destruct (cs_idat (read_chunks f2)) as [|idat|]; try discriminate.
  destruct (inflate idat) as [decompressed|]; [|discriminate].
  apply decode_pixels_success in Hr as [Hlen Houts].
  exists f, ihdr, f2. repeat (split; [first [reflexivity | assumption]|]).
  split; [|exact Houts].
  intros Hfit. rewrite Hlen. apply Z.mod_small. exact Hfit.
Qed.

(** The loader on [wide_rgba_png], an RGBA image declared 2^30 pixels
    wide and 1 high whose IDAT stream inflates to the single byte 0.  The
    expected size [(4 * 2^30 + 1) * 1] comes to 1 in [uint32_t], the two
    buffers get [2^30 * 1 * 4 = 0] bytes, the stride [2^30 * 4] of
    [bkp_filter_decode] comes to 0, the one row copies no byte and the
    [memcpy] of the conversion copies none. *)
Lemma load_wide_rgba_png (outs : out_params) :
  inflate (zlib_stored [0]) = Some [0] ->
  bkp_load_png (Some wide_rgba_png) outs
  = Returned (Some [])
      {| out_width := (fun _ => 1073741824) <$> out_width outs;
         out_height := (fun _ => 1) <$> out_height outs;
         out_color_type := (fun _ => 6) <$> out_color_type outs |}.
Proof.
  intros Hinf.
  unfold bkp_load_png.
  replace (fread 8 wide_rgba_png)
    with (Some (png_signature, drop 8 wide_rgba_png))
    by (vm_compute; reflexivity).
  rewrite bool_decide_eq_true_2 by reflexivity. cbn [negb].
  replace (bkp_read_ihdr (drop 8 wide_rgba_png))
    with (Some (mk_ihdr 1073741824 1 8 6 0 0 0, drop 33 wide_rgba_png))
    by (vm_compute; reflexivity).
  cbv zeta.
  replace (read_chunks (drop 33 wide_rgba_png))
    with {| cs_palette := palette_zero; cs_have_plte := false;
            cs_gamma := 0; cs_idat := IdatLive (zlib_stored [0]) |}
    by (vm_compute; reflexivity).
  cbn [cs_idat]. rewrite Hinf. vm_compute. reflexivity.
Qed.

(** C4: the claim fails on the code.  The file [wide_rgba_png] declares an RGBA
    image 2^30 pixels wide and 1 high, and its IDAT stream inflates to
    one byte.  [bkp_load_png] returns a buffer and stores width 2^30 and
    height 1 through the output pointers, and the buffer holds no byte
    where [4 * width * height] is 2^32: the size of [raw_pixels] (line
    587) is computed in [uint32_t] and comes to 0. *)
Theorem load_png_wide_buffer_too_small (outs : out_params) :
  inflate (zlib_stored [0]) = Some [0] ->
  bkp_load_png (Some wide_rgba_png) outs
  = Returned (Some [])
      {| out_width := (fun _ => 1073741824) <$> out_width outs;
         out_height := (fun _ => 1) <$> out_height outs;
         out_color_type := (fun _ => 6) <$> out_color_type outs |}
  /\ Z.of_nat (length (@nil Z)) <> 4 * 1073741824 * 1.
Proof.
  intros Hinf. split; [apply load_wide_rgba_png, Hinf | discriminate].
Qed.

End LoadSize.

Lemma load_png_wide_buffer_too_small_witness :
  @bkp_load_png stored_externals (Some wide_rgba_png) outs0
  = Returned (Some [])
      {| out_width := Some 1073741824; out_height := Some 1;
         out_color_type := Some 6 |}
  /\ Z.of_nat (length (@nil Z)) <> 4 * 1073741824 * 1.
Proof.
  apply (@load_png_wide_buffer_too_small stored_externals outs0).
  vm_compute. reflexivity.
Defined.

(* ===================================================================== *)
(** * The size check on the inflated stream *)
(* ===================================================================== *)

Section SizeCheck.
Context `{Externals}.

(** The expected size of the source is the stated one modulo [2^32]. *)
Lemma expected_size_mod (ihdr : bkp_ihdr) (bpp : Z) :
  expected_size ihdr bpp = stated_expected_size ihdr bpp mod U32.
Proof.
  unfold expected_size, stated_expected_size, u32_mul, u32_add.
  rewrite Z.add_mod_idemp_l by (unfold U32; lia).
  rewrite Z.mul_mod_idemp_l by (unfold U32; lia).
  f_equal. lia.
Qed.

Lemma expected_size_exact (ihdr : bkp_ihdr) (bpp : Z) :
  dims_exact ihdr bpp = true -> 1 <= bpp <= 4 ->
  expected_size ihdr bpp = stated_expected_size ihdr bpp.
Proof.
  intros Hd Hbpp. apply dims_exact_spec in Hd.
  rewrite expected_size_mod. unfold stated_expected_size.
  apply Z.mod_small. unfold U32, INT_MAX in *. nia.
Qed.

(** With [rows] whole scanlines available the loop never leaves [data],
    and bytes after them are handed back untouched. *)
Lemma filter_rows_extra (stride bpp : Z) (extra : list Z) (rows : nat) :
  0 <= stride ->
  forall data prev_row out,
  Z.of_nat rows * (1 + stride) <= Z.of_nat (length data) ->
  filter_rows rows stride bpp data prev_row out <> Undef
  /\ filter_rows rows stride bpp (data ++ extra) prev_row out
     = (r ← filter_rows rows stride bpp data prev_row out;
        Done (fst r, snd r ++ extra)).
Proof.
  intros Hs. induction rows as [|rows IH]; intros data prev_row out Hlen.
  - cbn. split; [discriminate | reflexivity].
  - destruct data as [|filter curr]; [cbn in Hlen; lia|].
    cbn [filter_rows app]. cbn [length] in Hlen.
    assert (Hc : stride <= Z.of_nat (length curr)) by nia.
    rewrite take_app_le by lia.
    destruct (unfilter_row filter bpp prev_row (take (Z.to_nat stride) curr))
      as [out_row|]; [|split; [discriminate | reflexivity]].
    rewrite length_app.
    destruct (Z.ltb_spec (Z.of_nat (length curr)) stride); [lia|].
    destruct (Z.ltb_spec (Z.of_nat (length curr + length extra)) stride);
      [lia|].
    rewrite drop_app_le by lia.
    apply IH. rewrite length_drop. nia.
Qed.

Lemma bkp_filter_decode_extra (data extra : list Z) (width height bpp : Z) :
  0 <= width * bpp <= INT_MAX -> 0 <= height ->
  height * (width * bpp) <= INT_MAX ->
  height * (1 + width * bpp) <= Z.of_nat (length data) ->
  bkp_filter_decode data width height bpp <> Undef
  /\ bkp_filter_decode (data ++ extra) width height bpp
     = bkp_filter_decode data width height bpp.
Proof.
  intros Hs Hh Hint Hlen. rewrite !bkp_filter_decode_exact by nia.
  destruct (filter_rows_extra (width * bpp) bpp extra (Z.to_nat height)
              ltac:(lia) data None []) as [Hne Heq]; [lia|].
  rewrite Heq.
  destruct (filter_rows (Z.to_nat height) (width * bpp) bpp data None [])
    as [[o r]| |]; cbn; split; congruence.
Qed.

(** The size check where the size arithmetic is exact.  For a
    non-interlaced image within [dims_exact] the expected size of the
    source is the stated size [height * (1 + width * bpp)]; with fewer
    bytes the loader returns [NULL]; with at least that many the check
    passes: the filter decoder is run, it stays inside the stream, and the
    result is the one of the decoder and the conversion; bytes after the
    expected size do not change it. *)
Lemma size_check_in_range (ihdr : bkp_ihdr) (st : chunk_state)
  (bpp : Z) (decompressed : list Z) (outs : out_params) :
  bpp_of (color_type ihdr) = Some bpp ->
  interlace_method ihdr = 0 ->
  dims_exact ihdr bpp = true ->
  expected_size ihdr bpp = stated_expected_size ihdr bpp
  /\ (Z.of_nat (length decompressed) < stated_expected_size ihdr bpp ->
      decode_pixels ihdr st decompressed outs = Returned None outs)
  /\ (stated_expected_size ihdr bpp <= Z.of_nat (length decompressed) ->
      bkp_filter_decode decompressed (width ihdr) (height ihdr) bpp <> Undef
      /\ decode_pixels ihdr st decompressed outs
         = match bkp_filter_decode decompressed (width ihdr) (height ihdr)
                   bpp with
           | Undef => Undefined
           | Fail => Returned None outs
           | Done filtered_pixels =>
             match to_rgba ihdr (cs_have_plte st) (cs_palette st)
                     filtered_pixels with
             | None => Returned None outs
             | Some raw_pixels =>
               Returned
                 (Some (if 0 <? cs_gamma st
                        then bkp_apply_gamma_correction raw_pixels
                               (width ihdr) (height ihdr) (cs_gamma st)
                        else raw_pixels))
                 (write_outs ihdr outs)
             end
           end
      /\ forall extra,
           decode_pixels ihdr st (decompressed ++ extra) outs
           = decode_pixels ihdr st decompressed outs).
Proof.
  intros Ebpp Hi Ed. pose proof (bpp_of_range _ _ Ebpp) as Hbpp.
  pose proof (expected_size_exact _ _ Ed Hbpp) as He.
  pose proof (dims_exact_spec _ _ Ed) as Hdims.
  assert (Hrun : forall data,
    stated_expected_size ihdr bpp <= Z.of_nat (length data) ->
    decode_pixels ihdr st data outs
    = match bkp_filter_decode data (width ihdr) (height ihdr) bpp with
      | Undef => Undefined
      | Fail => Returned None outs
      | Done filtered_pixels =>
        match to_rgba ihdr (cs_have_plte st) (cs_palette st)
                filtered_pixels with
        | None => Returned None outs
        | Some raw_pixels =>
          Returned
            (Some (if 0 <? cs_gamma st
                   then bkp_apply_gamma_correction raw_pixels
                          (width ihdr) (height ihdr) (cs_gamma st)
                   else raw_pixels))
            (write_outs ihdr outs)
        end
      end).
  { intros data Hge. unfold decode_pixels. rewrite Ebpp, He.
    destruct (Z.ltb_spec (Z.of_nat (length data))
                (stated_expected_size ihdr bpp)); [lia|].
    rewrite Ed. cbn [orb negb]. unfold decode_scanlines.
    rewrite Hi. cbn [Z.eqb]. reflexivity. }
  split; [exact He|]. split.
  - intros Hlt. unfold decode_pixels. rewrite Ebpp, He.
    destruct (Z.ltb_spec (Z.of_nat (length decompressed))
                (stated_expected_size ihdr bpp)); [reflexivity | lia].
  - intros Hge.
    assert (Hfd : forall extra,
      bkp_filter_decode decompressed (width ihdr) (height ihdr) bpp <> Undef
      /\ bkp_filter_decode (decompressed ++ extra) (width ihdr)
           (height ihdr) bpp
         = bkp_filter_decode decompressed (width ihdr) (height ihdr) bpp).
    { intros extra. unfold stated_expected_size in Hge.
      apply bkp_filter_decode_extra; unfold INT_MAX; nia. }
    split; [apply (Hfd [])|]. split; [apply Hrun, Hge|].
    intros extra. rewrite !Hrun by (rewrite ?length_app; lia).
    destruct (Hfd extra) as [_ ->]. reflexivity.
Qed.

(** C6: the claim fails on the code.  For the image of [wide_rgba_png], 2^30 pixels
    wide, 1 high, 4 bytes per pixel, the stated size
    [height * (1 + width * bpp)] is 2^32 + 1 bytes.  The inflated stream
    holds one byte, fewer than that, and decoding does not fail:
    [expected_size] (line 581) is computed in [uint32_t] and comes to 1,
    the check passes and [bkp_load_png] returns a buffer. *)
Theorem load_png_short_stream_accepted (outs : out_params) :
  inflate (zlib_stored [0]) = Some [0] ->
  stated_expected_size (mk_ihdr 1073741824 1 8 6 0 0 0) 4 = 4294967297
  /\ Z.of_nat (length [0])
     < stated_expected_size (mk_ihdr 1073741824 1 8 6 0 0 0) 4
  /\ expected_size (mk_ihdr 1073741824 1 8 6 0 0 0) 4 = 1
  /\ bkp_load_png (Some wide_rgba_png) outs
     = Returned (Some [])
         {| out_width := (fun _ => 1073741824) <$> out_width outs;
            out_height := (fun _ => 1) <$> out_height outs;
            out_color_type := (fun _ => 6) <$> out_color_type outs |}
  /\ bkp_load_png (Some wide_rgba_png) outs <> Returned None outs.
Proof.
  intros Hinf. rewrite load_wide_rgba_png by exact Hinf.
  repeat split; try reflexivity. discriminate.
Qed.

End SizeCheck.

Lemma load_png_short_stream_accepted_witness :
  stated_expected_size (mk_ihdr 1073741824 1 8 6 0 0 0) 4 = 4294967297
  /\ Z.of_nat (length [0])
     < stated_expected_size (mk_ihdr 1073741824 1 8 6 0 0 0) 4
  /\ expected_size (mk_ihdr 1073741824 1 8 6 0 0 0) 4 = 1
  /\ @bkp_load_png stored_externals (Some wide_rgba_png) outs0
     = Returned (Some [])
         {| out_width := Some 1073741824; out_height := Some 1;
            out_color_type := Some 6 |}
  /\ @bkp_load_png stored_externals (Some wide_rgba_png) outs0
     <> Returned None outs0.
Proof.
  apply (@load_png_short_stream_accepted stored_externals outs0).
  vm_compute. reflexivity.
Defined.

(* ===================================================================== *)
(** * Pixels of the RGBA buffer *)
(* ===================================================================== *)

Section Pixels.
Context `{Externals}.

Lemma nth_insert_ne (l : list Z) (i j : nat) (v : Z) :
  i <> j -> nth i (<[j := v]> l) 0 = nth i l 0.
Proof.
  intros Hne. rewrite !nth_lookup, list_lookup_insert_ne by congruence.
  reflexivity.
Qed.

(** The bytes of pixel [i], one by one. *)
Lemma nth_pixel_at (pixels : list Z) (i j : nat) :
  (j < 4)%nat -> nth j (pixel_at pixels i) 0 = nth (i * 4 + j) pixels 0.
Proof.
  intros Hj. unfold pixel_at.
  rewrite !nth_lookup, lookup_take_lt, lookup_drop by exact Hj.
  reflexivity.
Qed.

Lemma alpha_at_pixel_at (pixels : list Z) (i : nat) :
  alpha_at pixels i = nth 3 (pixel_at pixels i) 0.
Proof. unfold alpha_at. rewrite nth_pixel_at by lia. reflexivity. Qed.

(** A loop that emits four bytes per pixel: pixel [i] is the [i]-th
    emission. *)
Lemma pixel_at_flat_map {A} (f : A -> list Z) (l : list A) (a0 : A) (i : nat) :
  (forall a, length (f a) = 4%nat) ->
  (i < length l)%nat ->
  pixel_at (flat_map f l) i = f (nth i l a0).
Proof.
  intros Hf. unfold pixel_at. revert i.
  induction l as [|a l IH]; intros i Hi; cbn in Hi; [lia|].
  cbn [flat_map]. destruct i as [|i].
  - change (0 * 4)%nat with 0%nat. rewrite drop_0.
    rewrite take_app_length' by (symmetry; apply Hf). reflexivity.
  - replace (S i * 4)%nat with (length (f a) + i * 4)%nat by (rewrite Hf; lia).
    rewrite drop_app_add. cbn [nth]. apply IH. lia.
Qed.

(** Gamma correction stores into the three colour bytes only. *)
Lemma gamma_pixel_alpha (gamma : Z) (pixels : list Z) (i j : nat) :
  alpha_at (gamma_pixel gamma pixels j) i = alpha_at pixels i.
Proof.
  unfold alpha_at, gamma_pixel. cbn [seq fold_left].
  rewrite !nth_insert_ne by lia. reflexivity.
Qed.

Lemma bkp_apply_gamma_correction_alpha (pixels : list Z) (w h gamma : Z)
  (i : nat) :
  alpha_at (bkp_apply_gamma_correction pixels w h gamma) i = alpha_at pixels i.
Proof.
  unfold bkp_apply_gamma_correction. case_match; [reflexivity|].
  generalize (seq 0 (Z.to_nat (u32_mul w h))). intros l.
  revert pixels. induction l as [|j l IH]; intros pixels; cbn [fold_left];
    [reflexivity|].
  rewrite IH. apply gamma_pixel_alpha.
Qed.

(** The PLTE loop: the first [n] entries are rewritten with alpha 255, the
    table keeps its size. *)
Lemma plte_fill_length (data : list Z) (n : nat) (entries : list rgba) :
  length (plte_fill data n entries) = length entries.
Proof.
  unfold plte_fill. generalize (seq 0 n). intros l. revert entries.
  induction l as [|i l IH]; intros entries; cbn; [reflexivity|].
  rewrite IH. apply length_insert.
Qed.

Lemma plte_fill_step (data : list Z) (n : nat) (entries : list rgba) :
  plte_fill data (S n) entries
  = <[ n := (nth (n * 3 + 0) data 0, nth (n * 3 + 1) data 0,
             nth (n * 3 + 2) data 0, 255) ]> (plte_fill data n entries).
Proof.
  unfold plte_fill. rewrite seq_S, fold_left_app. reflexivity.
Qed.

Lemma plte_fill_opaque (data : list Z) (n : nat) (entries : list rgba) (i : nat) :
  (n <= length entries)%nat -> (i < n)%nat ->
  snd (nth i (plte_fill data n entries) (0, 0, 0, 0)) = 255.
Proof.
  induction n as [|n IH]; intros Hn Hi; [lia|].
  rewrite plte_fill_step, nth_lookup.
  destruct (decide (i = n)) as [-> | Hne].
  - rewrite list_lookup_insert_eq by (rewrite plte_fill_length; lia).
    reflexivity.
  - rewrite list_lookup_insert_ne by congruence.
    rewrite <- nth_lookup. apply IH; lia.
Qed.

Lemma bkp_read_plte_opaque (f f' : stream) (len : Z) (pal pal' : bkp_palette) :
  length (palette pal) = 256%nat ->
  bkp_read_plte f len pal = Some (pal', f') -> palette_opaque pal'.
Proof.
  unfold bkp_read_plte. intros Hlen Hr.
  destruct (negb (len mod 3 =? 0)); [discriminate|].
  destruct (Z.ltb_spec 256 (len / 3)); [discriminate|].
  repeat case_match; try discriminate. simplify_eq.
  split; cbn [palette size].
  - rewrite plte_fill_length. exact Hlen.
  - intros i Hi. apply plte_fill_opaque; lia.
Qed.

(** The chunk loop keeps the palette opaque below its size. *)
Lemma chunk_loop_palette_opaque (fuel : nat) :
  forall st f,
  palette_opaque (cs_palette st) ->
  palette_opaque (cs_palette (chunk_loop fuel st f)).
Proof.
  induction fuel as [|fuel IH]; intros st f Hst; [exact Hst|].
  cbn [chunk_loop].
  repeat case_match; try exact Hst; try (apply IH; cbn; exact Hst).
  apply IH. cbn.
  eapply bkp_read_plte_opaque; [apply Hst | eassumption].
Qed.

Lemma read_chunks_palette_opaque (f : stream) :
  palette_opaque (cs_palette (read_chunks f)).
Proof.
  apply chunk_loop_palette_opaque. split; [reflexivity|].
  cbn. intros i Hi. lia.
Qed.

End Pixels.

(* ===================================================================== *)
(** * The alpha channel *)
(* ===================================================================== *)

Section Alpha.
Context `{Externals}.

Lemma pixel_at_loop (f : nat -> list Z) (n i : nat) :
  (forall a, length (f a) = 4%nat) -> (i < n)%nat ->
  pixel_at (flat_map f (seq 0 n)) i = f i.
Proof.
  intros Hf Hi. rewrite (pixel_at_flat_map f _ 0%nat) by (rewrite ?length_seq; auto).
  rewrite seq_nth by exact Hi. reflexivity.
Qed.

Lemma pixel_at_expand_palette (indexed : list Z) (n_pixels : Z)
  (pal : bkp_palette) (i : nat) :
  (i < Z.to_nat n_pixels)%nat ->
  pixel_at (bkp_expand_palette indexed n_pixels pal) i
  = entry_bytes pal
      (Z.to_nat (if size pal <=? nth i indexed 0 then 0 else nth i indexed 0)).
Proof.
  intros Hi. unfold bkp_expand_palette.
  rewrite pixel_at_loop; [reflexivity | | exact Hi].
  intros a. destruct (nth _ (palette pal) _) as [[[r g] b] al]. reflexivity.
Qed.

Lemma entry_bytes_alpha (pal : bkp_palette) (idx : nat) :
  nth 3 (entry_bytes pal idx) 0 = snd (nth idx (palette pal) (0, 0, 0, 0)).
Proof.
  unfold entry_bytes. destruct (nth idx (palette pal) _) as [[[r g] b] al].
  reflexivity.
Qed.

(** The alpha byte each branch of the conversion writes. *)
Lemma to_rgba_alpha (ihdr : bkp_ihdr) (have_plte : bool) (pal : bkp_palette)
  (filtered_pixels raw_pixels : list Z) (i : nat) :
  0 <= width ihdr * height ihdr < U32 ->
  (color_type ihdr = BK_PNG_RGBA ->
   4 * (width ihdr * height ihdr) < U32
   \/ Z.of_nat (length filtered_pixels)
      <= u32_mul (width ihdr * height ihdr) 4) ->
  palette_opaque pal ->
  to_rgba ihdr have_plte pal filtered_pixels = Some raw_pixels ->
  (i < Z.to_nat (width ihdr * height ihdr))%nat ->
  (color_type ihdr = BK_PNG_GRAY \/ color_type ihdr = BK_PNG_RGB ->
   alpha_at raw_pixels i = 255)
  /\ (color_type ihdr = BK_PNG_INDEXED -> 1 <= size pal ->
      alpha_at raw_pixels i = 255)
  /\ (color_type ihdr = BK_PNG_GRAY_ALPHA ->
      alpha_at raw_pixels i = nth (i * 2 + 1) filtered_pixels 0)
  /\ (color_type ihdr = BK_PNG_RGBA ->
      alpha_at raw_pixels i = nth (i * 4 + 3) filtered_pixels 0).
Proof.
  intros Hwh Hrgba [Hplen Hpal] Hr Hi.
  assert (Hn : u32_mul (width ihdr) (height ihdr) = width ihdr * height ihdr)
    by (apply u32_mul_exact; unfold U32 in Hwh; lia).
  unfold to_rgba in Hr. rewrite Hn in Hr.
  unfold BK_PNG_INDEXED, BK_PNG_GRAY, BK_PNG_GRAY_ALPHA, BK_PNG_RGB,
    BK_PNG_RGBA in *.
  repeat match type of Hr with
         | context [color_type ihdr =? ?c] =>
           destruct (Z.eqb_spec (color_type ihdr) c)
         end;
    repeat case_match; simplify_eq;
    (split; [intros [?|?]|split; [intros ? ?|split; intros ?]]); try lia;
    rewrite alpha_at_pixel_at.
  - rewrite pixel_at_expand_palette, entry_bytes_alpha by exact Hi.
    apply Hpal. case_match; lia.
  - rewrite pixel_at_loop by (auto; lia). reflexivity.
  - rewrite pixel_at_loop by (auto; lia). reflexivity.
  - rewrite pixel_at_loop by (auto; lia). reflexivity.
  - destruct (Hrgba ltac:(lia)) as [Hfit | Hall].
    + rewrite nth_pixel_at by lia.
      rewrite !nth_lookup, lookup_take_lt; [reflexivity|].
      rewrite u32_mul_exact by (unfold U32 in *; lia). lia.
    + rewrite take_ge by lia. rewrite <- alpha_at_pixel_at. reflexivity.
Qed.

(** C8, as the source has it: in every image [bkp_load_png] returns, the
    alpha byte of every pixel is 255 when the colour type is Gray or RGB,
    and when it is Indexed with a palette of at least one entry; for
    GrayAlpha and RGBA it is the alpha sample of the reconstructed
    scanlines, unchanged (255 included). *)
Theorem load_png_alpha (file : option (list Z)) (pixels : list Z)
  (outs outs' : out_params) :
  bkp_load_png file outs = Returned (Some pixels) outs' ->
  exists f ihdr rest idat decompressed bpp filtered_pixels,
    file = Some f
    /\ bkp_read_ihdr (drop 8 f) = Some (ihdr, rest)
    /\ cs_idat (read_chunks rest) = IdatLive idat
    /\ inflate idat = Some decompressed
    /\ bpp_of (color_type ihdr) = Some bpp
    /\ decode_scanlines ihdr bpp decompressed = Done filtered_pixels
    /\ forall i, (i < Z.to_nat (width ihdr * height ihdr))%nat ->
         (color_type ihdr = BK_PNG_GRAY \/ color_type ihdr = BK_PNG_RGB ->
          alpha_at pixels i = 255)
         /\ (color_type ihdr = BK_PNG_INDEXED ->
             1 <= size (cs_palette (read_chunks rest)) ->
             alpha_at pixels i = 255)
         /\ (color_type ihdr = BK_PNG_GRAY_ALPHA ->
             alpha_at pixels i = nth (i * 2 + 1) filtered_pixels 0)
         /\ (color_type ihdr = BK_PNG_RGBA ->
             alpha_at pixels i = nth (i * 4 + 3) filtered_pixels 0).
Proof.
  unfold bkp_load_png. intros Hr.
  destruct file as [f|]; [|discriminate].
  destruct (fread 8 f) as [[signature_read f1]|] eqn:Esig; [|discriminate].
  apply fread_drop in Esig. subst f1.
  destruct (negb (bool_decide (signature_read = png_signature)));
    [discriminate|].
  destruct (bkp_read_ihdr (drop (Z.to_nat 8) f)) as [[ihdr f2]|] eqn:Eh;
    [|discriminate].
  cbv zeta in Hr.
  destruct (cs_idat (read_chunks f2)) as [|idat|] eqn:Ei; try discriminate.
  destruct (inflate idat) as [decompressed|] eqn:Ez; [|discriminate].
  unfold decode_pixels in Hr.
  destruct (bpp_of (color_type ihdr)) as [bpp|] eqn:Ebpp; [|discriminate].
  pose proof (bpp_of_range _ _ Ebpp) as Hbpp.
  destruct (Z.of_nat (length decompressed) <? expected_size ihdr bpp);
    [discriminate|].
  destruct (decode_scanlines ihdr bpp decompressed) as [filtered| |] eqn:Es;
    try (destruct (negb _); discriminate).
  destruct (to_rgba ihdr (cs_have_plte (read_chunks f2))
              (cs_palette (read_chunks f2)) filtered) as [raw|] eqn:Er;
    [|destruct (negb _); discriminate].
  assert (Hdims : 0 <= width ihdr * height ihdr < U32
                  /\ (color_type ihdr = BK_PNG_RGBA ->
                      4 * (width ihdr * height ihdr) < U32
                      \/ Z.of_nat (length filtered)
                         <= u32_mul (width ihdr * height ihdr) 4)).
  { destruct (dims_exact ihdr bpp) eqn:Ed.
    - apply dims_exact_spec in Ed. unfold U32. split; [nia|].
      intros _. left. lia.
    - cbn [orb] in Hr.
      destruct (dims_in_bounds ihdr bpp (cs_gamma (read_chunks f2)))
        eqn:Eb; [|discriminate].
      apply dims_in_bounds_spec in Eb
        as (Hi & Hw & Hh & Hmul & Hn & Hs0 & Hhs & Hfilt & _).
      split; [nia|]. intros Hct. right.
      unfold decode_scanlines in Es. rewrite Hi in Es. cbn [Z.eqb] in Es.
      apply bkp_filter_decode_length in Es as [_ Hlen].
      rewrite Hct in Ebpp. cbn in Ebpp. simplify_eq. nia. }
  destruct Hdims as [Hwh Hrgba].
  destruct (negb _); [discriminate|].
  exists f, ihdr, f2, idat, decompressed, bpp, filtered.
  repeat (split; [first [reflexivity | assumption]|]).
  intros i Hi.
  assert (Ha : alpha_at pixels i = alpha_at raw i).
  { simplify_eq. case_match; [|reflexivity].
    apply bkp_apply_gamma_correction_alpha. }
  rewrite Ha.
  eapply to_rgba_alpha; try eassumption.
  apply read_chunks_palette_opaque.
Qed.

End Alpha.

Lemma load_png_alpha_witness :
  exists f ihdr rest idat decompressed bpp filtered_pixels,
    Some gray_2x1_png = Some f
    /\ bkp_read_ihdr (drop 8 f) = Some (ihdr, rest)
    /\ cs_idat (read_chunks rest) = IdatLive idat
    /\ inflate_stored idat = Some decompressed
    /\ bpp_of (color_type ihdr) = Some bpp
    /\ decode_scanlines ihdr bpp decompressed = Done filtered_pixels
    /\ forall i, (i < Z.to_nat (width ihdr * height ihdr))%nat ->
         (color_type ihdr = BK_PNG_GRAY \/ color_type ihdr = BK_PNG_RGB ->
          alpha_at [100; 100; 100; 255; 44; 44; 44; 255] i = 255)
         /\ (color_type ihdr = BK_PNG_INDEXED ->
             1 <= size (cs_palette (read_chunks rest)) ->
             alpha_at [100; 100; 100; 255; 44; 44; 44; 255] i = 255)
         /\ (color_type ihdr = BK_PNG_GRAY_ALPHA ->
             alpha_at [100; 100; 100; 255; 44; 44; 44; 255] i
             = nth (i * 2 + 1) filtered_pixels 0)
         /\ (color_type ihdr = BK_PNG_RGBA ->
             alpha_at [100; 100; 100; 255; 44; 44; 44; 255] i
             = nth (i * 4 + 3) filtered_pixels 0).
Proof.
  apply (@load_png_alpha stored_externals (Some gray_2x1_png)
           [100; 100; 100; 255; 44; 44; 44; 255] outs0
           {| out_width := Some 2; out_height := Some 1;
              out_color_type := Some 0 |}).
  vm_compute. reflexivity.
Defined.

(** An opaque pixel of an RGBA file: the alpha byte is 255 although the
    colour type has an alpha channel. *)
Lemma opaque_rgba_pixel :
  @bkp_load_png stored_externals (Some red_1x1_png) outs0
  = Returned (Some [255; 0; 0; 255])
      {| out_width := Some 1; out_height := Some 1; out_color_type := Some 6 |}
  /\ ~ alpha_opaque_iff_no_alpha 6 1 [255; 0; 0; 255].
Proof.
  split; [vm_compute; reflexivity|].
  intros Hc. destruct (Hc 0%nat ltac:(lia)) as [Hc' _].
  destruct (Hc' eq_refl) as [Hct | [Hct | Hct]]; discriminate Hct.
Qed.

(** An indexed file whose PLTE chunk is empty: the pixel is palette entry
    0 of the zeroed table, alpha 0. *)
Example load_indexed_empty_plte :
  @bkp_load_png stored_externals (Some indexed_empty_plte_png) outs0
  = Returned (Some [0; 0; 0; 0])
      {| out_width := Some 1; out_height := Some 1; out_color_type := Some 3 |}.
Proof. vm_compute. reflexivity. Qed.

(* ===================================================================== *)
(** * Palette indices out of range *)
(* ===================================================================== *)

Section PaletteIndex.
Context `{Externals}.

(** A palette index at or past [size] is replaced by 0; one below [size]
    is kept. *)
Lemma bkp_expand_palette_pixel (indexed : list Z) (n_pixels : Z)
  (pal : bkp_palette) (i : nat) :
  (i < Z.to_nat n_pixels)%nat ->
  (size pal <= nth i indexed 0 ->
   pixel_at (bkp_expand_palette indexed n_pixels pal) i = entry_bytes pal 0)
  /\ (nth i indexed 0 < size pal ->
      pixel_at (bkp_expand_palette indexed n_pixels pal) i
      = entry_bytes pal (Z.to_nat (nth i indexed 0))).
Proof.
  intros Hi. rewrite pixel_at_expand_palette by exact Hi.
  destruct (Z.leb_spec (size pal) (nth i indexed 0)); split; intros ?;
    try lia; reflexivity.
Qed.

(** C9: for an indexed-colour image whose PLTE was seen, once the
    scanlines are reconstructed the loader returns a buffer (it does not
    fail), which is the palette expansion of the indices, gamma-corrected
    when a gAMA chunk asked for it; in that expansion every pixel whose
    index is at or past the palette size carries palette entry 0.
    Without a PLTE the conversion returns [NULL]. *)
Theorem indexed_out_of_range_uses_entry_0 (ihdr : bkp_ihdr) (st : chunk_state)
  (decompressed filtered_pixels : list Z) (outs : out_params) :
  color_type ihdr = BK_PNG_INDEXED ->
  expected_size ihdr 1 <= Z.of_nat (length decompressed) ->
  dims_exact ihdr 1 = true ->
  decode_scanlines ihdr 1 decompressed = Done filtered_pixels ->
  let raw_pixels :=
    bkp_expand_palette filtered_pixels (width ihdr * height ihdr)
      (cs_palette st) in
  (cs_have_plte st = true ->
   decode_pixels ihdr st decompressed outs
   = Returned
       (Some (if 0 <? cs_gamma st
              then bkp_apply_gamma_correction raw_pixels (width ihdr)
                     (height ihdr) (cs_gamma st)
              else raw_pixels))
       (write_outs ihdr outs))
  /\ (cs_have_plte st = false ->
      decode_pixels ihdr st decompressed outs = Returned None outs)
  /\ (forall i, (i < Z.to_nat (width ihdr * height ihdr))%nat ->
        size (cs_palette st) <= nth i filtered_pixels 0 ->
        pixel_at raw_pixels i = entry_bytes (cs_palette st) 0).
Proof.
  intros Hct Hlen Hd Hs raw_pixels.
  assert (Hn : u32_mul (width ihdr) (height ihdr) = width ihdr * height ihdr).
  { apply dims_exact_spec in Hd. apply u32_mul_exact. nia. }
  assert (Hrun : forall r,
    to_rgba ihdr (cs_have_plte st) (cs_palette st) filtered_pixels = r ->
    decode_pixels ihdr st decompressed outs
    = match r with
      | None => Returned None outs
      | Some raw =>
        Returned
          (Some (if 0 <? cs_gamma st
                 then bkp_apply_gamma_correction raw (width ihdr)
                        (height ihdr) (cs_gamma st)
                 else raw))
          (write_outs ihdr outs)
      end).
  { intros r <-. unfold decode_pixels. rewrite Hct. cbn [bpp_of BK_PNG_INDEXED].
    destruct (Z.ltb_spec (Z.of_nat (length decompressed)) (expected_size ihdr 1));
      [lia|].
    rewrite Hd, Hs. cbn [negb]. reflexivity. }
  split; [|split].
  - intros Hp. apply (Hrun (Some raw_pixels)). unfold to_rgba.
    rewrite Hct, Hp, Hn. reflexivity.
  - intros Hp. apply (Hrun None). unfold to_rgba.
    rewrite Hct, Hp. reflexivity.
  - intros i Hi Hidx. apply bkp_expand_palette_pixel; assumption.
Qed.

End PaletteIndex.

Lemma indexed_out_of_range_uses_entry_0_witness :
  @bkp_load_png stored_externals (Some indexed_out_of_range_png) outs0
  = Returned (Some [0; 255; 0; 255; 255; 0; 0; 255])
      {| out_width := Some 2; out_height := Some 1; out_color_type := Some 3 |}
  /\ pixel_at
       (bkp_expand_palette [1; 9] 2
          (cs_palette (read_chunks (drop 33 indexed_out_of_range_png))))
       1
     = [255; 0; 0; 255].
Proof.
  split; [vm_compute; reflexivity|].
  pose proof (@indexed_out_of_range_uses_entry_0 stored_externals
                (mk_ihdr 2 1 8 3 0 0 0)
                (read_chunks (drop 33 indexed_out_of_range_png))
                [0; 1; 9] [1; 9] outs0
                eq_refl ltac:(vm_compute; discriminate) eq_refl eq_refl)
    as [_ [_ Hpix]].
  etransitivity;
    [exact (Hpix 1%nat ltac:(vm_compute; lia) ltac:(vm_compute; discriminate))
    | vm_compute; reflexivity].
Defined.

(** A wrong CRC in the second of two IDAT chunks: the handler frees the
    buffer of the first and leaves the pointer in place, and the loader
    goes on to inflate from it. *)
Example load_split_idat_bad_crc :
  @bkp_load_png stored_externals (Some red_1x1_split_idat_bad_crc_png) outs0
  = Undefined.
Proof. vm_compute. reflexivity. Qed.

(* ===================================================================== *)
(** * Adam7 overwrites the whole output buffer *)
(* ===================================================================== *)

Section Adam7Overwrites.

Variables width height bpp : Z.

Lemma agree_on_weaken (K K' : nat -> Prop) (o1 o2 : list Z) :
  (forall j, K' j -> K j) -> agree_on K o1 o2 -> agree_on K' o1 o2.
Proof. intros HK [Hl Ha]. split; [exact Hl | auto]. Qed.

Lemma outcome_rel_mono {A} (R R' : A -> A -> Prop) (m1 m2 : outcome A) :
  (forall a1 a2, R a1 a2 -> R' a1 a2) ->
  outcome_rel R m1 m2 -> outcome_rel R' m1 m2.
Proof. intros HR. destruct m1, m2; cbn; auto. Qed.

(** A store of the same byte at the same offset in both buffers. *)
Lemma store_rel (K : nat -> Prop) (o1 o2 : list Z) (k v : Z) :
  agree_on K o1 o2 ->
  outcome_rel (agree_on (fun j => K j \/ Z.of_nat j = k))
    (store o1 k v) (store o2 k v).
Proof.
  intros [Hl Ha]. unfold store. rewrite <- Hl.
  destruct ((0 <=? k) && (k <? Z.of_nat (length o1))) eqn:Ek; cbn; [|exact I].
  apply andb_true_iff in Ek as [Hk0 Hk1].
  apply Z.leb_le in Hk0. apply Z.ltb_lt in Hk1.
  split; [rewrite !length_insert; exact Hl|].
  intros j [Hj | Hj].
  - destruct (decide (j = Z.to_nat k)) as [-> | Hne].
    + rewrite !list_lookup_insert_eq by lia. reflexivity.
    + rewrite !list_lookup_insert_ne by congruence. auto.
  - replace j with (Z.to_nat k) by lia.
    rewrite !list_lookup_insert_eq by lia. reflexivity.
Qed.

(** Two runs of a loop stay related when each step keeps them related;
    the relation may depend on the part of the list already done. *)
Lemma fold_outcome_rel {A B} (R : list B -> A -> A -> Prop)
  (body : A -> B -> outcome A) (l : list B) :
  forall done,
  (forall d b a1 a2, R d a1 a2 ->
     outcome_rel (R (d ++ [b])) (body a1 b) (body a2 b)) ->
  forall a1 a2, R done a1 a2 ->
  outcome_rel (R (done ++ l)) (fold_outcome body l a1) (fold_outcome body l a2).
Proof.
  induction l as [|b l IH]; intros done Hbody a1 a2 Ha; cbn [fold_outcome].
  - rewrite app_nil_r. exact Ha.
  - pose proof (Hbody done b a1 a2 Ha) as Hb.
    destruct (body a1 b) as [a1'| |], (body a2 b) as [a2'| |]; cbn in Hb;
      try contradiction; cbn; try exact I.
    replace (done ++ b :: l) with ((done ++ [b]) ++ l)
      by (rewrite <- app_assoc; reflexivity).
    apply IH; assumption.
Qed.

(** The samples of one pixel. *)
Lemma scatter_pixel_rel (K : nat -> Prop) (filtered_pass : list Z)
  (o1 o2 : list Z) (idx : Z) (xy : Z * Z) :
  agree_on K o1 o2 ->
  outcome_rel
    (fun s1 s2 =>
       snd s1 = snd s2
       /\ agree_on (fun j => K j \/ pixel_offsets width bpp [xy] j)
            (fst s1) (fst s2))
    (scatter_pixel width bpp filtered_pass (o1, idx) xy)
    (scatter_pixel width bpp filtered_pass (o2, idx) xy).
Proof.
  intros Ha. destruct xy as [x y]. unfold scatter_pixel.
  match goal with
  | |- context [fold_outcome ?b ?l o1] =>
    pose proof (fold_outcome_rel
      (fun done =>
         agree_on (fun j => K j \/ exists c, In c done
                     /\ Z.of_nat j = (y * width + x) * bpp + Z.of_nat c))
      b l [] ) as Hf
  end.
  cbn [app] in Hf.
  match type of Hf with
  | ?P -> _ => assert (Hstep : P)
  end.
  { intros d c a1 a2 Hd.
    eapply outcome_rel_mono; [|apply (store_rel _ _ _ _ _ Hd)].
    intros b1 b2. apply agree_on_weaken.
    intros j [Hj | [c' [Hc' Hj]]]; [left; left; exact Hj|].
    apply in_app_iff in Hc' as [Hc' | [<- | []]].
    - left. right. exists c'. auto.
    - right. exact Hj. }
  specialize (Hf Hstep o1 o2).
  match type of Hf with
  | ?P -> _ => assert (Hinit : P)
  end.
  { eapply agree_on_weaken; [|exact Ha].
    intros j [Hj | [c [[] _]]]. exact Hj. }
  specialize (Hf Hinit).
  match goal with
  | |- context [fold_outcome ?b ?l o1] =>
    destruct (fold_outcome b l o1) as [r1| |],
             (fold_outcome b l o2) as [r2| |]
  end; cbn in Hf |- *; try contradiction; try exact I.
  split; [reflexivity|].
  eapply agree_on_weaken; [|exact Hf].
  intros j [Hj | [x' [y' [c [[[= <- <-] | []] [Hc Hj]]]]]]; [left; exact Hj|].
  right. exists c. split; [|exact Hj]. apply in_seq. lia.
Qed.

Lemma pixel_offsets_app (L L' : list (Z * Z)) (j : nat) :
  pixel_offsets width bpp (L ++ L') j
  <-> pixel_offsets width bpp L j \/ pixel_offsets width bpp L' j.
Proof.
  unfold pixel_offsets. split.
  - intros [x [y [c [Hin Hr]]]]. apply in_app_iff in Hin as [Hin | Hin];
      [left | right]; exists x, y, c; auto.
  - intros [[x [y [c [Hin Hr]]]] | [x [y [c [Hin Hr]]]]]; exists x, y, c;
      (split; [apply in_app_iff; auto | exact Hr]).
Qed.

(** The scatter loops of one pass. *)
Lemma scatter_rel (K : nat -> Prop) (filtered_pass : list Z)
  (positions : list (Z * Z)) (o1 o2 : list Z) (idx : Z) :
  agree_on K o1 o2 ->
  outcome_rel
    (fun s1 s2 =>
       snd s1 = snd s2
       /\ agree_on (fun j => K j \/ pixel_offsets width bpp positions j)
            (fst s1) (fst s2))
    (fold_outcome (scatter_pixel width bpp filtered_pass) positions (o1, idx))
    (fold_outcome (scatter_pixel width bpp filtered_pass) positions (o2, idx)).
Proof.
  intros Ha.
  apply (fold_outcome_rel
           (fun done s1 s2 =>
              snd s1 = snd s2
              /\ agree_on (fun j => K j \/ pixel_offsets width bpp done j)
                   (fst s1) (fst s2))
           (scatter_pixel width bpp filtered_pass) positions []).
  - intros d xy [a1 i1] [a2 i2] [Hi Hd]. cbn [fst snd] in Hi, Hd. subst i2.
    eapply outcome_rel_mono;
      [|apply (scatter_pixel_rel _ filtered_pass a1 a2 i1 xy Hd)].
    intros s1 s2 [Hs Hag]. split; [exact Hs|].
    eapply agree_on_weaken; [|exact Hag].
    intros j [Hj | Hj]; [left; left; exact Hj|].
    apply pixel_offsets_app in Hj as [Hj | Hj]; [left; right | right]; exact Hj.
  - split; [reflexivity|]. cbn [fst].
    eapply agree_on_weaken; [|exact Ha].
    intros j [Hj | [x [y [c [[] _]]]]]. exact Hj.
Qed.

(** One pass. *)
Lemma adam7_pass_rel (K : nat -> Prop) (ptr o1 o2 : list Z)
  (p : Z * Z * Z * Z) :
  agree_on K o1 o2 ->
  outcome_rel
    (fun s1 s2 =>
       fst s1 = fst s2
       /\ agree_on
            (fun j => K j
                      \/ pixel_offsets width bpp (pass_positions p width height) j)
            (snd s1) (snd s2))
    (adam7_pass width height bpp (ptr, o1) p)
    (adam7_pass width height bpp (ptr, o2) p).
Proof.
  intros Ha. unfold adam7_pass.
  pose proof (skipped_pass_is_empty p width height) as Hskip.
  destruct ((pass_width p width =? 0) || (pass_height p height =? 0)).
  - cbn. split; [reflexivity|]. cbn [snd].
    eapply agree_on_weaken; [|exact Ha].
    intros j [Hj | [x [y [c [Hin _]]]]]; [exact Hj|].
    rewrite <- Hskip in Hin. destruct Hin.
  - destruct (filter_rows _ _ _ ptr None []) as [r| |]; cbn; try exact I.
    pose proof (scatter_rel K (fst r) (pass_positions p width height)
                  o1 o2 0 Ha) as Hs.
    match goal with
    | |- context [fold_outcome ?b ?l (o1, 0)] =>
      destruct (fold_outcome b l (o1, 0)) as [s1| |],
               (fold_outcome b l (o2, 0)) as [s2| |]
    end; cbn in Hs |- *; try contradiction; try exact I.
    split; [reflexivity | apply Hs].
Qed.

(** Every byte offset of the buffer belongs to a pixel of the grid. *)
Lemma grid_offsets (j : nat) :
  1 <= bpp -> 0 <= width -> 0 <= height ->
  Z.of_nat j < width * height * bpp ->
  pixel_offsets width bpp (adam7_positions width height) j.
Proof.
  intros Hb Hw Hh Hj.
  assert (0 < width) by nia.
  pose proof (Z.div_mod (Z.of_nat j) bpp ltac:(lia)) as Hq.
  pose proof (Z.mod_pos_bound (Z.of_nat j) bpp ltac:(lia)) as Hc.
  pose proof (Z.div_mod (Z.of_nat j / bpp) width ltac:(lia)) as Hy.
  pose proof (Z.mod_pos_bound (Z.of_nat j / bpp) width ltac:(lia)) as Hx.
  set (c := Z.of_nat j mod bpp) in *. set (q := Z.of_nat j / bpp) in *.
  set (x := q mod width) in *. set (y := q / width) in *.
  assert (0 <= q) by (subst q; apply Z.div_pos; lia).
  assert (0 <= y) by (subst y; apply Z.div_pos; lia).
  assert (q < width * height) by nia.
  assert (y < height) by nia.
  exists x, y, (Z.to_nat c). split; [|split].
  - apply adam7_positions_in. lia.
  - lia.
  - rewrite Z2Nat.id by lia. lia.
Qed.

(** The decoder reads nothing of the output buffer and leaves none of its
    bytes as it found it: two buffers of the right size give the same
    run.  The content [malloc] happened to hand out does not matter. *)
Lemma bkp_decode_adam7_overwrites (data out1 out2 : list Z) :
  1 <= bpp -> 0 <= width -> 0 <= height ->
  Z.of_nat (length out1) = width * height * bpp ->
  length out2 = length out1 ->
  bkp_decode_adam7 data width height bpp out1
  = bkp_decode_adam7 data width height bpp out2.
Proof.
  intros Hb Hw Hh Hlen Hlen2. unfold bkp_decode_adam7.
  pose proof (fold_outcome_rel
    (fun done s1 s2 =>
       fst s1 = fst s2
       /\ agree_on
            (pixel_offsets width bpp
               (flat_map (fun p => pass_positions p width height) done))
            (snd s1) (snd s2))
    (adam7_pass width height bpp) ADAM7_PASSES []) as Hf.
  cbn [app] in Hf.
  match type of Hf with
  | ?P -> _ => assert (Hstep : P)
  end.
  { intros d p [p1 a1] [p2 a2] [Hp Hd]. cbn [fst snd] in Hp, Hd. subst p2.
    eapply outcome_rel_mono; [|apply (adam7_pass_rel _ p1 a1 a2 p Hd)].
    intros s1 s2 [Hs Hag]. split; [exact Hs|].
    eapply agree_on_weaken; [|exact Hag].
    intros j Hj. rewrite flat_map_app in Hj. cbn [flat_map] in Hj.
    rewrite app_nil_r in Hj.
    apply pixel_offsets_app in Hj. exact Hj. }
  specialize (Hf Hstep (data, out1) (data, out2)).
  match type of Hf with
  | ?P -> _ => assert (Hinit : P)
  end.
  { split; [reflexivity|]. split; [cbn; congruence|].
    intros j [x [y [c [[] _]]]]. }
  specialize (Hf Hinit).
  rewrite <- adam7_positions_all_passes in Hf.
  destruct (fold_outcome (adam7_pass width height bpp) ADAM7_PASSES (data, out1))
    as [[p1 r1]| |] eqn:E1,
    (fold_outcome (adam7_pass width height bpp) ADAM7_PASSES (data, out2))
    as [[p2 r2]| |]; cbn in Hf |- *; try contradiction; try reflexivity.
  destruct Hf as [_ [Hl Hag]]. f_equal.
  apply list_eq. intros j.
  destruct (decide (j < length r1)%nat) as [Hj | Hj].
  - apply Hag, grid_offsets; try assumption.
    assert (length r1 = length out1); [|lia].
    change r1 with (snd (p1, r1)).
    revert E1.
    apply (fold_outcome_invariant (fun s => length (snd s) = length out1));
      [|reflexivity].
    intros s0 p s1 Hs0 Hs. apply adam7_pass_length in Hs. congruence.
  - rewrite !lookup_ge_None_2 by lia. reflexivity.
Qed.

End Adam7Overwrites.

(* ===================================================================== *)
(** * Adam7: what the scatter loops store *)
(* ===================================================================== *)

Section Adam7Scatter.

Variables width height bpp : Z.
Hypothesis bpp_pos : 1 <= bpp.
Hypothesis width_nonneg : 0 <= width.
Hypothesis height_nonneg : 0 <= height.






End Adam7Scatter.

(* ===================================================================== *)
(** * CRC-32: chaining, range, and the detection of a changed byte *)
(* ===================================================================== *)

Section Crc.

Lemma u32_not_involutive (c : Z) : u32_not (u32_not c) = c.
Proof.
  unfold u32_not. rewrite Z.lxor_assoc, Z.lxor_nilpotent, Z.lxor_0_r.
  reflexivity.
Qed.

Lemma lxor_cancel_r (a b t : Z) : Z.lxor a t = Z.lxor b t -> a = b.
Proof.
  intros Heq.
  rewrite <- (Z.lxor_0_r a), <- (Z.lxor_0_r b), <- (Z.lxor_nilpotent t).
  rewrite <- !Z.lxor_assoc, Heq. reflexivity.
Qed.

(** X1: the [crc] argument chains calls: the CRC of a buffer given in two
    pieces, the second call started from the result of the first, is the
    CRC of the whole buffer. *)
Theorem crc32_chains (crc : Z) (a b : list Z) :
  bkp_crc32 (bkp_crc32 crc a) b = bkp_crc32 crc (a ++ b).
Proof.
  unfold bkp_crc32. rewrite u32_not_involutive, fold_left_app. reflexivity.
Qed.

Lemma lxor_u32 (a b : Z) :
  0 <= a < 4294967296 -> 0 <= b < 4294967296 ->
  0 <= Z.lxor a b < 4294967296.
Proof.
  intros Ha Hb. split; [apply Z.lxor_nonneg; lia|].
  destruct (Z.eq_dec (Z.lxor a b) 0) as [-> | Hne]; [lia|].
  assert (0 < Z.lxor a b) by (pose proof (proj2 (Z.lxor_nonneg a b)); lia).
  change 4294967296 with (2 ^ 32). apply Z.log2_lt_pow2; [assumption|].
  pose proof (Z.log2_lxor a b ltac:(lia) ltac:(lia)) as Hl.
  assert (Hla : Z.log2 a < 32).
  { destruct (Z.eq_dec a 0) as [-> | ?]; [cbn; lia|].
    apply Z.log2_lt_pow2; lia. }
  assert (Hlb : Z.log2 b < 32).
  { destruct (Z.eq_dec b 0) as [-> | ?]; [cbn; lia|].
    apply Z.log2_lt_pow2; lia. }
  lia.
Qed.

Lemma shiftr_u32 (a n : Z) :
  0 <= n -> 0 <= a < 4294967296 -> 0 <= Z.shiftr a n < 4294967296.
Proof.
  intros Hn Ha. rewrite Z.shiftr_div_pow2 by exact Hn.
  assert (0 < 2 ^ n) by (apply Z.pow_pos_nonneg; lia).
  split; [apply Z.div_pos; lia|].
  apply Z.le_lt_trans with a; [|lia].
  apply Z.div_le_upper_bound; [lia|]. nia.
Qed.

Lemma crc_step_u32 (rem : Z) :
  0 <= rem < 4294967296 -> 0 <= crc_step rem < 4294967296.
Proof.
  intros Hr. unfold crc_step. case_match.
  - apply lxor_u32; [apply shiftr_u32; lia | lia].
  - apply shiftr_u32; lia.
Qed.

Lemma crc_table_u32 (i : Z) :
  0 <= i < 4294967296 -> 0 <= crc_table i < 4294967296.
Proof.
  intros Hi. unfold crc_table. do 8 apply crc_step_u32. exact Hi.
Qed.

Lemma land_lxor_distr (a b m : Z) :
  Z.land (Z.lxor a b) m = Z.lxor (Z.land a m) (Z.land b m).
Proof.
  apply Z.bits_inj'. intros n Hn.
  rewrite Z.land_spec, !Z.lxor_spec, !Z.land_spec.
  destruct (Z.testbit a n), (Z.testbit b n), (Z.testbit m n); reflexivity.
Qed.

Lemma low_byte (a : Z) : Z.land a 255 = a mod 256.
Proof. apply (Z.land_ones a 8). lia. Qed.

(** One iteration of the byte loop of [bkp_crc32]. *)
Lemma crc_byte_u32 (c b : Z) :
  0 <= c < 4294967296 ->
  0 <= Z.lxor (Z.shiftr c 8) (crc_table (Z.land (Z.lxor c b) 255))
  < 4294967296.
Proof.
  intros Hc. apply lxor_u32; [apply shiftr_u32; lia|].
  apply crc_table_u32. rewrite low_byte.
  pose proof (Z.mod_pos_bound (Z.lxor c b) 256 ltac:(lia)). lia.
Qed.

Lemma crc_fold_u32 (buf : list Z) (c : Z) :
  0 <= c < 4294967296 ->
  0 <= fold_left
         (fun c b =>
            Z.lxor (Z.shiftr c 8) (crc_table (Z.land (Z.lxor c b) 255)))
         buf c < 4294967296.
Proof.
  revert c. induction buf as [|b buf IH]; intros c Hc; cbn [fold_left].
  - exact Hc.
  - apply IH, crc_byte_u32, Hc.
Qed.

Lemma bkp_crc32_range (crc : Z) (buf : list Z) :
  0 <= crc < 4294967296 -> 0 <= bkp_crc32 crc buf < 4294967296.
Proof.
  intros Hc. unfold bkp_crc32, u32_not.
  apply lxor_u32; [|lia]. apply crc_fold_u32. apply lxor_u32; lia.
Qed.

(** X2: for a 32-bit starting value the result is a 32-bit value, whatever
    the buffer holds. *)
Theorem crc32_is_u32 (crc : Z) (buf : list Z) :
  0 <= crc < 4294967296 -> 0 <= bkp_crc32 crc buf < 4294967296.
Proof. apply bkp_crc32_range. Qed.

Lemma crc32_is_u32_witness : 0 <= bkp_crc32 0 IEND < 4294967296.
Proof. apply (crc32_is_u32 0 IEND). lia. Defined.

(** The top bytes of the 256 table entries are pairwise different. *)
Lemma crc_table_top_bytes (i j : Z) :
  0 <= i < 256 -> 0 <= j < 256 ->
  Z.shiftr (crc_table i) 24 = Z.shiftr (crc_table j) 24 -> i = j.
Proof.
  intros Hi Hj Heq.
  assert (Hall :
    forallb (fun i => forallb (fun j =>
      implb (Z.shiftr (crc_table (Z.of_nat i)) 24
             =? Z.shiftr (crc_table (Z.of_nat j)) 24)
            (Nat.eqb i j)) (seq 0 256)) (seq 0 256) = true)
    by (vm_compute; reflexivity).
  rewrite forallb_forall in Hall.
  specialize (Hall (Z.to_nat i)). rewrite forallb_forall in Hall.
  specialize (Hall ltac:(apply in_seq; lia) (Z.to_nat j)
                   ltac:(apply in_seq; lia)).
  rewrite !Z2Nat.id in Hall by lia.
  rewrite (proj2 (Z.eqb_eq _ _) Heq) in Hall. cbn in Hall.
  apply Nat.eqb_eq in Hall. lia.
Qed.

(** The byte step is injective in the state ... *)
Lemma crc_byte_inj_state (b c c' : Z) :
  0 <= c < 4294967296 -> 0 <= c' < 4294967296 ->
  Z.lxor (Z.shiftr c 8) (crc_table (Z.land (Z.lxor c b) 255))
  = Z.lxor (Z.shiftr c' 8) (crc_table (Z.land (Z.lxor c' b) 255)) ->
  c = c'.
Proof.
  intros Hc Hc' Heq.
  set (i := Z.land (Z.lxor c b) 255) in *.
  set (i' := Z.land (Z.lxor c' b) 255) in *.
  assert (Hi : 0 <= i < 256).
  { subst i. rewrite low_byte. apply Z.mod_pos_bound. lia. }
  assert (Hi' : 0 <= i' < 256).
  { subst i'. rewrite low_byte. apply Z.mod_pos_bound. lia. }
  assert (Htop : forall x, 0 <= x < 4294967296 ->
                           Z.shiftr (Z.shiftr x 8) 24 = 0).
  { intros x Hx. rewrite Z.shiftr_shiftr by lia.
    rewrite Z.shiftr_div_pow2 by lia. apply Z.div_small.
    change (2 ^ (8 + 24)) with 4294967296. lia. }
  assert (Hii : i = i').
  { apply crc_table_top_bytes; try assumption.
    apply (f_equal (fun x => Z.shiftr x 24)) in Heq.
    rewrite !Z.shiftr_lxor, !Htop in Heq by assumption.
    rewrite !Z.lxor_0_l in Heq. exact Heq. }
  rewrite <- Hii in Heq. apply lxor_cancel_r in Heq.
  assert (Hlow : Z.land c 255 = Z.land c' 255).
  { subst i i'. rewrite !land_lxor_distr in Hii.
    apply lxor_cancel_r in Hii. exact Hii. }
  rewrite !low_byte in Hlow. rewrite !Z.shiftr_div_pow2 in Heq by lia.
  change (2 ^ 8) with 256 in Heq.
  rewrite (Z.div_mod c 256), (Z.div_mod c' 256) by lia. congruence.
Qed.

(** ... and in the byte. *)
Lemma crc_byte_inj_byte (c b b' : Z) :
  is_byte b -> is_byte b' ->
  Z.lxor (Z.shiftr c 8) (crc_table (Z.land (Z.lxor c b) 255))
  = Z.lxor (Z.shiftr c 8) (crc_table (Z.land (Z.lxor c b') 255)) ->
  b = b'.
Proof.
  unfold is_byte. intros Hb Hb' Heq.
  rewrite (Z.lxor_comm (Z.shiftr c 8)), (Z.lxor_comm (Z.shiftr c 8) (crc_table _))
    in Heq.
  apply lxor_cancel_r in Heq.
  assert (Hii : Z.land (Z.lxor c b) 255 = Z.land (Z.lxor c b') 255).
  { apply crc_table_top_bytes;
      try (rewrite low_byte; apply Z.mod_pos_bound; lia).
    rewrite Heq. reflexivity. }
  rewrite !land_lxor_distr in Hii.
  rewrite (Z.lxor_comm (Z.land c 255)), (Z.lxor_comm (Z.land c 255) (Z.land b' 255))
    in Hii.
  apply lxor_cancel_r in Hii. rewrite !low_byte in Hii.
  rewrite !Z.mod_small in Hii by lia. exact Hii.
Qed.

Lemma crc_fold_inj (buf : list Z) (c c' : Z) :
  0 <= c < 4294967296 -> 0 <= c' < 4294967296 ->
  fold_left
    (fun c b => Z.lxor (Z.shiftr c 8) (crc_table (Z.land (Z.lxor c b) 255)))
    buf c
  = fold_left
      (fun c b => Z.lxor (Z.shiftr c 8) (crc_table (Z.land (Z.lxor c b) 255)))
      buf c' ->
  c = c'.
Proof.
  revert c c'. induction buf as [|b buf IH]; intros c c' Hc Hc' Heq;
    cbn [fold_left] in Heq.
  - exact Heq.
  - apply IH in Heq; try (apply crc_byte_u32; assumption).
    eapply crc_byte_inj_state; eassumption.
Qed.

Lemma bkp_crc32_changed_byte (crc x x' : Z) (before after : list Z) :
  0 <= crc < 4294967296 ->
  is_byte x -> is_byte x' -> x <> x' ->
  bkp_crc32 crc (before ++ x :: after) <> bkp_crc32 crc (before ++ x' :: after).
Proof.
  intros Hc Hx Hx' Hne Heq. unfold bkp_crc32 in Heq.
  apply lxor_cancel_r in Heq.
  rewrite !fold_left_app in Heq. cbn [fold_left] in Heq.
  assert (Hs : 0 <= u32_not crc < 4294967296)
    by (unfold u32_not; apply lxor_u32; lia).
  pose proof (crc_fold_u32 before _ Hs) as Hb.
  apply crc_fold_inj in Heq; try (apply crc_byte_u32; exact Hb).
  apply crc_byte_inj_byte in Heq; auto.
Qed.

(** X3: changing one byte of a buffer changes its CRC: two buffers that
    differ in exactly one position never have the same CRC. *)
Theorem crc32_detects_changed_byte (crc x x' : Z) (before after : list Z) :
  0 <= crc < 4294967296 ->
  is_byte x -> is_byte x' -> x <> x' ->
  bkp_crc32 crc (before ++ x :: after) <> bkp_crc32 crc (before ++ x' :: after).
Proof. apply bkp_crc32_changed_byte. Qed.

Lemma crc32_detects_changed_byte_witness :
  bkp_crc32 0 ([73; 68] ++ 65 :: [84]) <> bkp_crc32 0 ([73; 68] ++ 64 :: [84]).
Proof.
  apply (crc32_detects_changed_byte 0 65 64 [73; 68] [84]);
    unfold is_byte; lia.
Defined.

End Crc.

(* ===================================================================== *)
(** * Chunk framing: words, headers and the IHDR chunk *)
(* ===================================================================== *)

Section Framing.

Lemma lor_shiftl_add (a b n : Z) :
  0 <= n -> 0 <= b < 2 ^ n -> Z.lor (Z.shiftl a n) b = a * 2 ^ n + b.
Proof.
  intros Hn Hb.
  assert (Hland : Z.land (Z.shiftl a n) b = 0).
  { apply Z.bits_inj'. intros m Hm.
    rewrite Z.land_spec, Z.bits_0.
    destruct (Z.lt_ge_cases m n) as [Hlt | Hge].
    - rewrite Z.shiftl_spec_low by exact Hlt. reflexivity.
    - rewrite <- (Z.mod_small b (2 ^ n)) by exact Hb.
      rewrite Z.mod_pow2_bits_high by lia. apply andb_false_r. }
  pose proof (Z.add_lor_land (Z.shiftl a n) b) as Hadd.
  rewrite Hland, Z.add_0_r in Hadd. rewrite Hadd.
  rewrite Z.shiftl_mul_pow2 by exact Hn. reflexivity.
Qed.

(** The word [be32] builds from four bytes. *)
Lemma be32_value (b0 b1 b2 b3 : Z) :
  is_byte b0 -> is_byte b1 -> is_byte b2 -> is_byte b3 ->
  be32 b0 b1 b2 b3 = b0 * 16777216 + b1 * 65536 + b2 * 256 + b3.
Proof.
  unfold is_byte, be32. intros H0 H1 H2 H3.
  replace (Z.shiftl b0 24) with (Z.shiftl (Z.shiftl b0 8) 16)
    by (rewrite Z.shiftl_shiftl by lia; reflexivity).
  rewrite <- Z.shiftl_lor, (lor_shiftl_add b0 b1 8) by lia.
  replace (Z.shiftl (b0 * 2 ^ 8 + b1) 16)
    with (Z.shiftl (Z.shiftl (b0 * 2 ^ 8 + b1) 8) 8)
    by (rewrite Z.shiftl_shiftl by lia; reflexivity).
  rewrite <- Z.shiftl_lor, (lor_shiftl_add _ b2 8) by lia.
  rewrite (lor_shiftl_add _ b3 8) by lia.
  change (2 ^ 8) with 256. lia.
Qed.

Lemma u32_bytes_are_bytes (n : Z) : Forall is_byte (u32_bytes n).
Proof.
  unfold u32_bytes, is_byte.
  repeat apply Forall_cons_2; try apply Forall_nil_2;
    apply Z.mod_pos_bound; lia.
Qed.

Lemma be32_u32_bytes (n : Z) :
  0 <= n < 4294967296 ->
  be32 (Z.shiftr n 24 mod 256) (Z.shiftr n 16 mod 256)
       (Z.shiftr n 8 mod 256) (n mod 256) = n.
Proof.
  intros Hn.
  rewrite be32_value by (unfold is_byte; apply Z.mod_pos_bound; lia).
  rewrite !Z.shiftr_div_pow2 by lia.
  change (2 ^ 24) with 16777216. change (2 ^ 16) with 65536.
  change (2 ^ 8) with 256.
  Z.div_mod_to_equations. lia.
Qed.

Lemma fread_app (n : Z) (data rest : list Z) :
  Z.of_nat (length data) = n -> fread n (data ++ rest) = Some (data, rest).
Proof.
  intros <-. unfold fread. rewrite length_app, Nat2Z.id.
  destruct (Z.leb_spec (Z.of_nat (length data))
              (Z.of_nat (length data + length rest))); [|lia].
  rewrite take_app_length, drop_app_length. reflexivity.
Qed.

Lemma fread_split (n : Z) (f f' data : list Z) :
  fread n f = Some (data, f') ->
  f = data ++ f' /\ length data = Z.to_nat n.
Proof.
  unfold fread. case_match; [|discriminate]. intros [= <- <-].
  rewrite take_drop, length_take. split; [reflexivity | lia].
Qed.

Lemma bkp_read_be32_u32_bytes (n : Z) (rest : list Z) :
  0 <= n < 4294967296 ->
  bkp_read_be32 (u32_bytes n ++ rest) = Some (n, rest).
Proof.
  intros Hn. unfold bkp_read_be32.
  rewrite (fread_app 4 (u32_bytes n) rest) by reflexivity.
  unfold u32_bytes. rewrite be32_u32_bytes by exact Hn. reflexivity.
Qed.

(** X4: [bkp_read_be32] fails on a stream of fewer than four bytes and
    otherwise returns the big-endian value of the first four, a 32-bit
    value, leaving the stream behind them. *)
Theorem bkp_read_be32_spec (f : stream) :
  Forall is_byte f ->
  match bkp_read_be32 f with
  | None => (length f < 4)%nat
  | Some (v, f') =>
    exists b0 b1 b2 b3,
      f = b0 :: b1 :: b2 :: b3 :: f'
      /\ v = b0 * 16777216 + b1 * 65536 + b2 * 256 + b3
      /\ 0 <= v < 4294967296
  end.
Proof.
  intros Hf.
  destruct f as [|b0 [|b1 [|b2 [|b3 f']]]];
    try (unfold bkp_read_be32, fread; cbn [length Z.of_nat];
         match goal with
         | |- context [4 <=? ?n] => destruct (Z.leb_spec 4 n); [lia|]
         end; cbn; lia).
  unfold bkp_read_be32.
  change (b0 :: b1 :: b2 :: b3 :: f') with ([b0; b1; b2; b3] ++ f').
  rewrite (fread_app 4 [b0; b1; b2; b3] f') by reflexivity.
  apply Forall_cons in Hf as [H0 Hf]. apply Forall_cons in Hf as [H1 Hf].
  apply Forall_cons in Hf as [H2 Hf]. apply Forall_cons in Hf as [H3 Hf].
  exists b0, b1, b2, b3. rewrite be32_value by assumption.
  unfold is_byte in *. repeat split; lia.
Qed.

Lemma bkp_read_be32_spec_witness :
  match bkp_read_be32 [0; 0; 1; 2; 9] with
  | None => (length [0; 0; 1; 2; 9] < 4)%nat
  | Some (v, f') =>
    exists b0 b1 b2 b3,
      [0; 0; 1; 2; 9] = b0 :: b1 :: b2 :: b3 :: f'
      /\ v = b0 * 16777216 + b1 * 65536 + b2 * 256 + b3
      /\ 0 <= v < 4294967296
  end.
Proof.
  apply (bkp_read_be32_spec [0; 0; 1; 2; 9]).
  repeat apply Forall_cons_2; try apply Forall_nil_2; unfold is_byte; lia.
Defined.

Lemma bkp_read_chunk_header_chunk (type data rest : list Z) (crc : Z) :
  length type = 4%nat ->
  Z.of_nat (length data) < 4294967296 ->
  bkp_read_chunk_header (chunk_with_crc type data crc ++ rest)
  = Some (Z.of_nat (length data), type, data ++ u32_bytes crc ++ rest).
Proof.
  intros Ht Hd. unfold bkp_read_chunk_header, chunk_with_crc.
  rewrite <- !app_assoc, bkp_read_be32_u32_bytes by lia.
  rewrite (fread_app 4 type) by lia. reflexivity.
Qed.

End Framing.

(* ===================================================================== *)
(** * The IHDR and PLTE handlers *)
(* ===================================================================== *)

Section Handlers.

Lemma bkp_read_be32_split (f f' : stream) (v : Z) :
  bkp_read_be32 f = Some (v, f') ->
  exists b0 b1 b2 b3, f = b0 :: b1 :: b2 :: b3 :: f' /\ v = be32 b0 b1 b2 b3.
Proof.
  unfold bkp_read_be32.
  destruct (fread 4 f) as [[data f1]|] eqn:Er; [|discriminate].
  apply fread_split in Er as [-> Hl].
  destruct data as [|b0 [|b1 [|b2 [|b3 [|]]]]]; try discriminate.
  intros [= <- <-]. exists b0, b1, b2, b3. split; reflexivity.
Qed.

Lemma ihdr_data_length (w h d c z f i : Z) :
  length (ihdr_data w h d c z f i) = 13%nat.
Proof. reflexivity. Qed.

(** The header [bkp_read_ihdr] returns for a well-formed chunk. *)
Lemma bkp_read_ihdr_chunk (w h ctype : Z) (rest : list Z) :
  0 <= w < 4294967296 -> 0 <= h < 4294967296 ->
  bkp_read_ihdr (chunk IHDR (ihdr_data w h 8 ctype 0 0 0) ++ rest)
  = Some (mk_ihdr w h 8 ctype 0 0 0, rest).
Proof.
  intros Hw Hh. unfold bkp_read_ihdr, chunk.
  rewrite bkp_read_chunk_header_chunk by (cbn; lia).
  change (type_is IHDR IHDR) with true.
  rewrite ihdr_data_length. cbn [negb Z.of_nat Pos.of_succ_nat Pos.succ Z.eqb Pos.eqb].
  rewrite (fread_app 13) by reflexivity.
  rewrite bkp_read_be32_u32_bytes by (apply bkp_crc32_range; lia).
  unfold ihdr_data, u32_bytes. cbn [app nth].
  rewrite !be32_u32_bytes by assumption.
  rewrite !Z.eqb_refl. reflexivity.
Qed.

(** X5: [bkp_read_ihdr] accepts every well-formed IHDR chunk that declares
    bit depth 8, compression 0, filter 0 and no interlacing, for any 32-bit
    width and height and any colour-type byte, and returns its fields and
    the stream after the chunk. *)
Theorem bkp_read_ihdr_accepts (w h ctype : Z) (rest : list Z) :
  0 <= w < 4294967296 -> 0 <= h < 4294967296 ->
  bkp_read_ihdr (chunk IHDR (ihdr_data w h 8 ctype 0 0 0) ++ rest)
  = Some (mk_ihdr w h 8 ctype 0 0 0, rest).
Proof. apply bkp_read_ihdr_chunk. Qed.

Lemma bkp_read_ihdr_accepts_witness :
  bkp_read_ihdr (chunk IHDR (ihdr_data 640 480 8 2 0 0 0) ++ [1; 2; 3])
  = Some (mk_ihdr 640 480 8 2 0 0 0, [1; 2; 3]).
Proof. apply (bkp_read_ihdr_accepts 640 480 2 [1; 2; 3]); lia. Defined.

Lemma bkp_read_ihdr_layout (f rest : stream) (ihdr : bkp_ihdr) :
  bkp_read_ihdr f = Some (ihdr, rest) ->
  exists l0 l1 l2 l3 data c0 c1 c2 c3,
    f = [l0; l1; l2; l3] ++ IHDR ++ data ++ [c0; c1; c2; c3] ++ rest
    /\ be32 l0 l1 l2 l3 = 13
    /\ length data = 13%nat
    /\ be32 c0 c1 c2 c3 = bkp_crc32 0 (IHDR ++ data)
    /\ bit_depth ihdr = 8 /\ compression_method ihdr = 0
    /\ filter_method ihdr = 0 /\ interlace_method ihdr = 0
    /\ color_type ihdr = nth 9 data 0.
Proof.
  intros Hr. pose proof (bkp_read_ihdr_fields _ _ _ Hr) as Hfields.
  unfold bkp_read_ihdr, bkp_read_chunk_header in Hr.
  destruct (bkp_read_be32 f) as [[len f0]|] eqn:El; [|discriminate].
  destruct (fread 4 f0) as [[type f1]|] eqn:Et; [|discriminate].
  destruct (type_is type IHDR) eqn:Ety; [|discriminate].
  destruct (Z.eqb_spec len 13) as [Hlen|]; [|discriminate]. cbn [negb] in Hr.
  destruct (fread 13 f1) as [[data f2]|] eqn:Ed; [|discriminate].
  destruct (bkp_read_be32 f2) as [[crc_read f3]|] eqn:Ec; [|discriminate].
  destruct (Z.eqb_spec (bkp_crc32 0 (type ++ data)) crc_read) as [Hcrc|];
    [|discriminate]. cbn [negb] in Hr.
  repeat case_match; try discriminate. simplify_eq.
  apply bkp_read_be32_split in El as [l0 [l1 [l2 [l3 [-> Hl]]]]].
  apply bkp_read_be32_split in Ec as [c0 [c1 [c2 [c3 [-> Hc]]]]].
  apply fread_split in Et as [-> _]. apply fread_split in Ed as [-> Hd].
  apply bool_decide_eq_true in Ety. subst type.
  exists l0, l1, l2, l3, data, c0, c1, c2, c3.
  cbn [color_type]. repeat split; try tauto; try congruence.
Qed.

(** X6: whatever [bkp_read_ihdr] accepts is a 25-byte chunk of type IHDR
    whose stored CRC is the CRC-32 of its type and data, with bit depth 8,
    compression 0, filter 0 and interlace 0; the colour type is taken as
    it is. *)
Theorem bkp_read_ihdr_sound (f rest : stream) (ihdr : bkp_ihdr) :
  bkp_read_ihdr f = Some (ihdr, rest) ->
  exists l0 l1 l2 l3 data c0 c1 c2 c3,
    f = [l0; l1; l2; l3] ++ IHDR ++ data ++ [c0; c1; c2; c3] ++ rest
    /\ be32 l0 l1 l2 l3 = 13
    /\ length data = 13%nat
    /\ be32 c0 c1 c2 c3 = bkp_crc32 0 (IHDR ++ data)
    /\ bit_depth ihdr = 8 /\ compression_method ihdr = 0
    /\ filter_method ihdr = 0 /\ interlace_method ihdr = 0
    /\ color_type ihdr = nth 9 data 0.
Proof. apply bkp_read_ihdr_layout. Qed.

Lemma bkp_read_ihdr_sound_witness :
  exists l0 l1 l2 l3 data c0 c1 c2 c3,
    chunk IHDR (ihdr_data 1 1 8 6 0 0 0) ++ [7]
    = [l0; l1; l2; l3] ++ IHDR ++ data ++ [c0; c1; c2; c3] ++ [7]
    /\ be32 l0 l1 l2 l3 = 13
    /\ length data = 13%nat
    /\ be32 c0 c1 c2 c3 = bkp_crc32 0 (IHDR ++ data)
    /\ bit_depth (mk_ihdr 1 1 8 6 0 0 0) = 8
    /\ compression_method (mk_ihdr 1 1 8 6 0 0 0) = 0
    /\ filter_method (mk_ihdr 1 1 8 6 0 0 0) = 0
    /\ interlace_method (mk_ihdr 1 1 8 6 0 0 0) = 0
    /\ color_type (mk_ihdr 1 1 8 6 0 0 0) = nth 9 data 0.
Proof.
  apply (bkp_read_ihdr_sound (chunk IHDR (ihdr_data 1 1 8 6 0 0 0) ++ [7])
           [7] (mk_ihdr 1 1 8 6 0 0 0)).
  vm_compute. reflexivity.
Defined.

End Handlers.

Section Palette.

Lemma plte_fill_nth (data : list Z) (n : nat) (entries : list rgba) (i : nat) :
  (n <= length entries)%nat ->
  nth i (plte_fill data n entries) (0, 0, 0, 0)
  = if (i <? n)%nat
    then (nth (i * 3 + 0) data 0, nth (i * 3 + 1) data 0,
          nth (i * 3 + 2) data 0, 255)
    else nth i entries (0, 0, 0, 0).
Proof.
  induction n as [|n IH]; intros Hn.
  - reflexivity.
  - rewrite plte_fill_step, nth_lookup.
    destruct (decide (i = n)) as [-> | Hne].
    + rewrite list_lookup_insert_eq by (rewrite plte_fill_length; lia).
      rewrite (proj2 (Nat.ltb_lt n (S n))) by lia. reflexivity.
    + rewrite list_lookup_insert_ne by congruence.
      rewrite <- nth_lookup, IH by lia.
      destruct (Nat.ltb_spec i n), (Nat.ltb_spec i (S n)); try lia;
        reflexivity.
Qed.

(** X7: when the PLTE handler succeeds, the chunk length is a multiple of
    3 and at most 768, the stored CRC is the CRC-32 of "PLTE" and the
    data, the palette has [length / 3] entries made of the data triplets
    with alpha 255, and the entries from [length / 3] on are the ones the
    table held before. *)
Theorem bkp_read_plte_spec (f f' : stream) (len : Z) (pal pal' : bkp_palette) :
  length (palette pal) = 256%nat ->
  bkp_read_plte f len pal = Some (pal', f') ->
  exists data c0 c1 c2 c3,
    f = data ++ [c0; c1; c2; c3] ++ f'
    /\ length data = Z.to_nat len
    /\ len mod 3 = 0 /\ len <= 768
    /\ be32 c0 c1 c2 c3 = bkp_crc32 0 (PLTE ++ data)
    /\ size pal' = len / 3
    /\ length (palette pal') = 256%nat
    /\ forall i,
         nth i (palette pal') (0, 0, 0, 0)
         = if Z.of_nat i <? len / 3
           then (nth (i * 3 + 0) data 0, nth (i * 3 + 1) data 0,
                 nth (i * 3 + 2) data 0, 255)
           else nth i (palette pal) (0, 0, 0, 0).
Proof.
  intros Hpal Hr. unfold bkp_read_plte in Hr.
  destruct (Z.eqb_spec (len mod 3) 0) as [Hmod|]; [|discriminate].
  destruct (Z.ltb_spec 256 (len / 3)) as [|Hn]; [discriminate|].
  cbn [negb] in Hr.
  destruct (fread len f) as [[data f1]|] eqn:Ed; [|discriminate].
  destruct (bkp_read_be32 f1) as [[crc_read f2]|] eqn:Ec; [|discriminate].
  destruct (Z.eqb_spec (bkp_crc32 0 (PLTE ++ data)) crc_read) as [Hcrc|];
    [|discriminate].
  cbn [negb] in Hr. simplify_eq.
  apply fread_split in Ed as [-> Hd].
  apply bkp_read_be32_split in Ec as [c0 [c1 [c2 [c3 [-> Hc]]]]].
  exists data, c0, c1, c2, c3. cbn [size palette].
  split; [reflexivity|]. split; [exact Hd|]. split; [exact Hmod|].
  split; [Z.div_mod_to_equations; lia|].
  split; [congruence|]. split; [reflexivity|].
  split; [rewrite plte_fill_length; exact Hpal|].
  intros i. rewrite plte_fill_nth by lia.
  destruct (Nat.ltb_spec i (Z.to_nat (len / 3))), (Z.ltb_spec (Z.of_nat i) (len / 3));
    try lia; reflexivity.
Qed.

Lemma bkp_read_plte_spec_witness :
  exists data c0 c1 c2 c3,
    drop 8 (chunk PLTE [255; 0; 0; 0; 255; 0]) ++ [9]
    = data ++ [c0; c1; c2; c3] ++ [9]
    /\ length data = Z.to_nat 6
    /\ 6 mod 3 = 0 /\ 6 <= 768
    /\ be32 c0 c1 c2 c3 = bkp_crc32 0 (PLTE ++ data)
    /\ size (mk_palette
               ((255, 0, 0, 255) :: (0, 255, 0, 255)
                :: replicate 254 (0, 0, 0, 0)) 2) = 6 / 3
    /\ length (palette (mk_palette
               ((255, 0, 0, 255) :: (0, 255, 0, 255)
                :: replicate 254 (0, 0, 0, 0)) 2)) = 256%nat
    /\ forall i,
         nth i (palette (mk_palette
               ((255, 0, 0, 255) :: (0, 255, 0, 255)
                :: replicate 254 (0, 0, 0, 0)) 2)) (0, 0, 0, 0)
         = if Z.of_nat i <? 6 / 3
           then (nth (i * 3 + 0) data 0, nth (i * 3 + 1) data 0,
                 nth (i * 3 + 2) data 0, 255)
           else nth i (palette palette_zero) (0, 0, 0, 0).
Proof.
  apply (bkp_read_plte_spec
           (drop 8 (chunk PLTE [255; 0; 0; 0; 255; 0]) ++ [9]) [9] 6
           palette_zero); vm_compute; reflexivity.
Defined.

End Palette.

(* ===================================================================== *)
(** * The chunk loop on well-formed chunks *)
(* ===================================================================== *)

Section ChunkSteps.

Lemma bkp_collect_idat_data_chunk (data rest : list Z) (idat : idat_ptr) (crc : Z) :
  Z.of_nat (length data) < 4294967296 ->
  0 <= crc < 4294967296 ->
  bkp_collect_idat_data (data ++ u32_bytes crc ++ rest) idat
    (Z.of_nat (length data))
  = if bkp_crc32 0 (IDAT ++ data) =? crc
    then (Some rest, idat_append idat data)
    else (None, idat_free idat).
Proof.
  intros Hd Hc. unfold bkp_collect_idat_data.
  rewrite fread_app by reflexivity.
  rewrite bkp_read_be32_u32_bytes by exact Hc.
  destruct (bkp_crc32 0 (IDAT ++ data) =? crc); reflexivity.
Qed.

Lemma bkp_skip_and_verify_chunk_chunk (type data rest : list Z)
  (idat : idat_ptr) (crc : Z) :
  Z.of_nat (length data) < 4294967296 ->
  0 <= crc < 4294967296 ->
  bkp_skip_and_verify_chunk (data ++ u32_bytes crc ++ rest)
    (Z.of_nat (length data)) type idat
  = if bkp_crc32 0 (type ++ data) =? crc
    then (Some rest, idat)
    else (None, idat).
Proof.
  intros Hd Hc. unfold bkp_skip_and_verify_chunk.
  rewrite fread_app by reflexivity.
  rewrite bkp_read_be32_u32_bytes by exact Hc. reflexivity.
Qed.

(** One well-formed IDAT chunk at the head of the stream. *)
Lemma chunk_loop_idat (fuel : nat) (st : chunk_state) (data rest : list Z) :
  Z.of_nat (length data) < 4294967296 ->
  chunk_loop (S fuel) st (chunk IDAT data ++ rest)
  = chunk_loop fuel
      {| cs_palette := cs_palette st; cs_have_plte := cs_have_plte st;
         cs_gamma := cs_gamma st; cs_idat := idat_append (cs_idat st) data |}
      rest.
Proof.
  intros Hd. cbn [chunk_loop]. unfold chunk.
  rewrite bkp_read_chunk_header_chunk by (cbn; lia).
  change (type_is IDAT PLTE) with false. change (type_is IDAT IDAT) with true.
  cbv iota.
  rewrite bkp_collect_idat_data_chunk
    by (try apply bkp_crc32_range; lia).
  rewrite Z.eqb_refl. reflexivity.
Qed.

Lemma fold_idat_append_live (parts : list (list Z)) (acc : list Z) :
  fold_left idat_append parts (IdatLive acc) = IdatLive (acc ++ concat parts).
Proof.
  revert acc. induction parts as [|p parts IH]; intros acc; cbn.
  - rewrite app_nil_r. reflexivity.
  - rewrite IH, app_assoc. reflexivity.
Qed.

Lemma chunks_length_ge (parts : list (list Z)) :
  (length parts <= length (concat (map (chunk IDAT) parts)))%nat.
Proof.
  induction parts as [|p parts IH]; cbn [map concat length]; [lia|].
  assert (1 <= length (chunk IDAT p))%nat
    by (unfold chunk, chunk_with_crc, u32_bytes; rewrite !length_app;
        cbn [length]; lia).
  rewrite length_app. lia.
Qed.

(** A run of well-formed IDAT chunks: their payloads are appended in
    order. *)
Lemma chunk_loop_idats (parts : list (list Z)) :
  forall (fuel : nat) (st : chunk_state) (rest : list Z),
  Forall (fun p => Z.of_nat (length p) < 4294967296) parts ->
  (length parts <= fuel)%nat ->
  chunk_loop fuel st (concat (map (chunk IDAT) parts) ++ rest)
  = chunk_loop (fuel - length parts)
      {| cs_palette := cs_palette st; cs_have_plte := cs_have_plte st;
         cs_gamma := cs_gamma st;
         cs_idat := fold_left idat_append parts (cs_idat st) |}
      rest.
Proof.
  induction parts as [|p parts IH]; intros fuel st rest Hp Hfuel.
  - cbn. rewrite Nat.sub_0_r. destruct st; reflexivity.
  - apply Forall_cons in Hp as [Hp0 Hp].
    destruct fuel as [|fuel]; [cbn in Hfuel; lia|].
    cbn [map concat]. rewrite <- app_assoc.
    rewrite chunk_loop_idat by exact Hp0.
    rewrite IH by (try assumption; cbn in Hfuel; lia).
    reflexivity.
Qed.

End ChunkSteps.

Section ChunkLoopProperties.
Context `{Externals}.

Lemma chunk_loop_iend (fuel : nat) (st : chunk_state) (n : Z) (tail : list Z) :
  0 <= n < 4294967296 ->
  chunk_loop fuel st (u32_bytes n ++ IEND ++ tail) = st.
Proof.
  intros Hn. destruct fuel as [|fuel]; [reflexivity|].
  cbn [chunk_loop]. unfold bkp_read_chunk_header.
  rewrite bkp_read_be32_u32_bytes by exact Hn.
  rewrite (fread_app 4 IEND) by reflexivity.
  reflexivity.
Qed.

Lemma chunk_loop_eof (fuel : nat) (st : chunk_state) :
  chunk_loop fuel st [] = st.
Proof. destruct fuel; reflexivity. Qed.

Lemma fold_idat_append_null (parts : list (list Z)) :
  parts <> [] ->
  fold_left idat_append parts IdatNull = IdatLive (concat parts).
Proof.
  destruct parts as [|p parts]; [congruence|]. intros _.
  cbn [fold_left idat_append concat]. apply fold_idat_append_live.
Qed.

Lemma read_chunks_idat_run (parts : list (list Z)) (n : Z)
  (tail : list Z) :
  parts <> [] ->
  Forall (fun p => 0 < Z.of_nat (length p) < 4294967296) parts ->
  0 <= n < 4294967296 ->
  let collected :=
    {| cs_palette := palette_zero; cs_have_plte := false; cs_gamma := 0;
       cs_idat := IdatLive (concat parts) |} in
  read_chunks (concat (map (chunk IDAT) parts) ++ u32_bytes n ++ IEND ++ tail)
  = collected
  /\ read_chunks (concat (map (chunk IDAT) parts)) = collected.
Proof.
  intros Hne Hp' Hn collected.
  assert (Hp : Forall (fun p => Z.of_nat (length p) < 4294967296) parts)
    by (eapply Forall_impl; [exact Hp' | cbn; intros; lia]).
  unfold read_chunks. split.
  - rewrite chunk_loop_idats; [|exact Hp|].
    + rewrite chunk_loop_iend by exact Hn. cbn [chunk_state_init cs_idat
        cs_palette cs_have_plte cs_gamma].
      rewrite fold_idat_append_null by exact Hne. reflexivity.
    + rewrite length_app. pose proof (chunks_length_ge parts). lia.
  - rewrite <- (app_nil_r (concat (map (chunk IDAT) parts))) at 2.
    rewrite chunk_loop_idats; [|exact Hp|].
    + rewrite chunk_loop_eof. cbn [chunk_state_init cs_idat
        cs_palette cs_have_plte cs_gamma].
      rewrite fold_idat_append_null by exact Hne. reflexivity.
    + apply chunks_length_ge.
Qed.

(** X8: the payloads of IDAT chunks, however the stream is cut into
    chunks, are collected in file order: after one or more well-formed,
    non-empty IDAT chunks followed by an IEND header (whose length, CRC
    and what follows are not looked at) or by the end of the file, the IDAT
    buffer holds the concatenation of the payloads and nothing else was
    recorded.  Each payload is small enough for the stack array
    [crc_buf[length + 4]] of the handler (at most [STACK_ARRAY_MAX] bytes),
    and the payloads together stay below [2^32 - 4] bytes, so that
    [idat_buf->size + length] does not wrap. *)
Theorem read_chunks_concatenates_idat (parts : list (list Z)) (n : Z)
  (tail : list Z) :
  parts <> [] ->
  Forall idat_payload_ok parts ->
  Z.of_nat (length (concat parts)) < 4294967292 ->
  0 <= n < 4294967296 ->
  let collected :=
    {| cs_palette := palette_zero; cs_have_plte := false; cs_gamma := 0;
       cs_idat := IdatLive (concat parts) |} in
  read_chunks (concat (map (chunk IDAT) parts) ++ u32_bytes n ++ IEND ++ tail)
  = collected
  /\ read_chunks (concat (map (chunk IDAT) parts)) = collected.
Proof.
  intros Hne Hparts Htotal Hn. apply read_chunks_idat_run;
    [exact Hne | | exact Hn].
  clear Hne. induction Hparts as [|p parts [Hp _] _ IH];
    [apply Forall_nil_2|].
  cbn [concat] in Htotal. rewrite length_app in Htotal.
  apply Forall_cons_2; [lia | apply IH; lia].
Qed.

Lemma read_chunks_concatenates_idat_witness :
  read_chunks (concat (map (chunk IDAT) [[1; 2]; [3]])
               ++ u32_bytes 0 ++ IEND ++ [9; 9])
  = {| cs_palette := palette_zero; cs_have_plte := false; cs_gamma := 0;
       cs_idat := IdatLive [1; 2; 3] |}
  /\ read_chunks (concat (map (chunk IDAT) [[1; 2]; [3]]))
     = {| cs_palette := palette_zero; cs_have_plte := false; cs_gamma := 0;
          cs_idat := IdatLive [1; 2; 3] |}.
Proof.
  apply (read_chunks_concatenates_idat [[1; 2]; [3]] 0 [9; 9]);
    [discriminate | | cbn; lia | lia].
  repeat apply Forall_cons_2; try apply Forall_nil_2;
    unfold idat_payload_ok, crc_buf_fits, STACK_ARRAY_MAX; cbn; lia.
Defined.

(** X9: a chunk of any other type than PLTE, IDAT, IEND and gAMA whose
    CRC is right changes nothing: the loop goes on with the chunk after it
    in the same state.  This holds for critical chunk types too.  The
    data are shorter than [2^32 - 4] bytes, the sizes for which
    [malloc(length + 4)] gets the size meant. *)
Theorem chunk_loop_skips_unknown (n m : nat) (st : chunk_state)
  (type data rest : list Z) :
  length type = 4%nat ->
  type <> PLTE -> type <> IDAT -> type <> IEND -> type <> gAMA ->
  Z.of_nat (length data) < 4294967292 ->
  (length (chunk type data ++ rest) <= n)%nat ->
  (length rest <= m)%nat ->
  chunk_loop n st (chunk type data ++ rest) = chunk_loop m st rest.
Proof.
  intros Ht H1 H2 H3 H4 Hd Hn Hm.
  destruct n as [|n].
  { destruct (chunk type data ++ rest) eqn:E; [|cbn in Hn; lia].
    apply (f_equal (@length Z)) in E. rewrite length_app in E.
    unfold chunk, chunk_with_crc, u32_bytes in E.
    rewrite !length_app in E. cbn [length] in E. lia. }
  cbn [chunk_loop]. unfold chunk.
  rewrite bkp_read_chunk_header_chunk by (try assumption; lia).
  unfold type_is. rewrite !bool_decide_eq_false_2 by assumption.
  rewrite bkp_skip_and_verify_chunk_chunk
    by (try apply bkp_crc32_range; lia).
  rewrite Z.eqb_refl.
  assert (Hl : (length rest <= n)%nat).
  { rewrite length_app in Hn. unfold chunk, chunk_with_crc, u32_bytes in Hn.
    rewrite !length_app in Hn. cbn [length] in Hn. lia. }
  destruct st. apply chunk_loop_fuel; assumption.
Qed.

Lemma chunk_loop_skips_unknown_witness :
  chunk_loop 100 chunk_state_init
    (chunk tEXt [65; 0; 66] ++ chunk IDAT [1; 2])
  = chunk_loop 50 chunk_state_init (chunk IDAT [1; 2]).
Proof.
  apply (chunk_loop_skips_unknown 100 50 chunk_state_init tEXt [65; 0; 66]
           (chunk IDAT [1; 2]));
    try discriminate; try reflexivity; cbn; lia.
Defined.

(** The loader on a file that starts with the signature and a well-formed
    IHDR chunk. *)
Lemma load_png_after_header (w h ctype : Z) (body : list Z) (outs : out_params) :
  0 <= w < 4294967296 -> 0 <= h < 4294967296 ->
  bkp_load_png
    (Some (png_signature ++ chunk IHDR (ihdr_data w h 8 ctype 0 0 0) ++ body))
    outs
  = match cs_idat (read_chunks body) with
    | IdatNull => Returned None outs
    | IdatFreed => Undefined
    | IdatLive idat =>
      match inflate idat with
      | None => Returned None outs
      | Some decompressed =>
        decode_pixels (mk_ihdr w h 8 ctype 0 0 0) (read_chunks body)
          decompressed outs
      end
    end.
Proof.
  intros Hw Hh. unfold bkp_load_png.
  rewrite (fread_app 8 png_signature) by reflexivity.
  rewrite bool_decide_eq_true_2 by reflexivity. cbn [negb].
  rewrite bkp_read_ihdr_chunk by assumption. reflexivity.
Qed.

Lemma read_chunks_bad_first_idat (data rest : list Z) (crc : Z) :
  Z.of_nat (length data) < 4294967296 ->
  0 <= crc < 4294967296 ->
  crc <> bkp_crc32 0 (IDAT ++ data) ->
  cs_idat (read_chunks (chunk_with_crc IDAT data crc ++ rest)) = IdatNull.
Proof.
  intros Hd Hc Hne. unfold read_chunks.
  destruct (length (chunk_with_crc IDAT data crc ++ rest)) as [|fuel];
    [reflexivity|].
  cbn [chunk_loop].
  rewrite bkp_read_chunk_header_chunk by (cbn; lia).
  change (type_is IDAT PLTE) with false. change (type_is IDAT IDAT) with true.
  cbv iota.
  rewrite bkp_collect_idat_data_chunk by assumption.
  destruct (Z.eqb_spec (bkp_crc32 0 (IDAT ++ data)) crc); [congruence|].
  reflexivity.
Qed.

(** X10: a wrong stored CRC on the first chunk after IHDR, when that chunk
    is an IDAT whose stack array [crc_buf] fits, is fatal: [bkp_load_png]
    returns [NULL] and leaves the output variables alone, whatever follows
    in the file. *)
Theorem load_png_rejects_bad_first_idat_crc (w h ctype crc : Z)
  (data rest : list Z) (outs : out_params) :
  0 <= w < 4294967296 -> 0 <= h < 4294967296 ->
  crc_buf_fits data ->
  0 <= crc < 4294967296 ->
  crc <> bkp_crc32 0 (IDAT ++ data) ->
  bkp_load_png
    (Some (png_signature ++ chunk IHDR (ihdr_data w h 8 ctype 0 0 0)
           ++ chunk_with_crc IDAT data crc ++ rest))
    outs
  = Returned None outs.
Proof.
  intros Hw Hh Hd Hc Hne.
  unfold crc_buf_fits, STACK_ARRAY_MAX in Hd.
  rewrite load_png_after_header by assumption.
  rewrite read_chunks_bad_first_idat by (try assumption; lia). reflexivity.
Qed.

(** X11: changing one byte of the payload of that IDAT chunk, the stored
    CRC left as it was, is always detected: the loader returns [NULL].
    The payload is small enough for the stack array [crc_buf]. *)
Theorem load_png_rejects_tampered_idat (w h ctype x x' : Z)
  (before after rest : list Z) (outs : out_params) :
  0 <= w < 4294967296 -> 0 <= h < 4294967296 ->
  crc_buf_fits (before ++ x :: after) ->
  is_byte x -> is_byte x' -> x <> x' ->
  bkp_load_png
    (Some (png_signature ++ chunk IHDR (ihdr_data w h 8 ctype 0 0 0)
           ++ chunk_with_crc IDAT (before ++ x' :: after)
                (bkp_crc32 0 (IDAT ++ before ++ x :: after))
           ++ rest))
    outs
  = Returned None outs.
Proof.
  intros Hw Hh Hd Hx Hx' Hne.
  unfold crc_buf_fits, STACK_ARRAY_MAX in Hd.
  rewrite load_png_after_header by assumption.
  rewrite read_chunks_bad_first_idat; [reflexivity | | |].
  - rewrite length_app in *. cbn [length] in *. lia.
  - apply bkp_crc32_range. lia.
  - rewrite !app_assoc. apply bkp_crc32_changed_byte; auto. lia.
Qed.

End ChunkLoopProperties.

Lemma load_png_rejects_bad_first_idat_crc_witness :
  @bkp_load_png stored_externals
    (Some (png_signature ++ chunk IHDR (ihdr_data 1 1 8 6 0 0 0)
           ++ chunk_with_crc IDAT (zlib_stored red_1x1_scanlines) 0
           ++ chunk IEND []))
    outs0
  = Returned None outs0.
Proof.
  apply (@load_png_rejects_bad_first_idat_crc stored_externals 1 1 6 0
           (zlib_stored red_1x1_scanlines) (chunk IEND []) outs0);
    unfold crc_buf_fits, STACK_ARRAY_MAX; try lia; try (cbn; lia).
  vm_compute. discriminate.
Defined.

Lemma load_png_rejects_tampered_idat_witness :
  @bkp_load_png stored_externals
    (Some (png_signature ++ chunk IHDR (ihdr_data 1 1 8 6 0 0 0)
           ++ chunk_with_crc IDAT ([120; 1; 1; 5; 0; 250; 255; 0] ++ 254 :: [0; 0; 255; 5; 0; 1; 255])
                (bkp_crc32 0 (IDAT ++ [120; 1; 1; 5; 0; 250; 255; 0] ++ 255 :: [0; 0; 255; 5; 0; 1; 255]))
           ++ chunk IEND []))
    outs0
  = Returned None outs0.
Proof.
  apply (@load_png_rejects_tampered_idat stored_externals 1 1 6 255 254
           [120; 1; 1; 5; 0; 250; 255; 0] [0; 0; 255; 5; 0; 1; 255]
           (chunk IEND []) outs0);
    unfold is_byte, crc_buf_fits, STACK_ARRAY_MAX; try lia; cbn; lia.
Defined.

(* ===================================================================== *)
(** * Files without image data *)
(* ===================================================================== *)

Section NoIdat.
Context `{Externals}.

Lemma occurs_suffix (pat pre f : list Z) :
  occurs pat f -> occurs pat (pre ++ f).
Proof.
  intros [a [b ->]]. exists (pre ++ a), b. rewrite <- app_assoc. reflexivity.
Qed.

Lemma bkp_read_be32_suffix (f f' : stream) (v : Z) :
  bkp_read_be32 f = Some (v, f') -> exists pre, f = pre ++ f'.
Proof.
  intros Hr. apply bkp_read_be32_split in Hr as [b0 [b1 [b2 [b3 [-> _]]]]].
  exists [b0; b1; b2; b3]. reflexivity.
Qed.

Lemma fread_suffix (n : Z) (f f' data : list Z) :
  fread n f = Some (data, f') -> exists pre, f = pre ++ f'.
Proof. intros Hr. apply fread_split in Hr as [-> _]. eauto. Qed.

(** Each handler that lets the loop go on hands it a suffix of what it
    was given. *)
Lemma handler_suffix (f f' : stream) :
  (exists len pal pal', bkp_read_plte f len pal = Some (pal', f'))
  \/ (exists len idat idat', bkp_collect_idat_data f idat len = (Some f', idat'))
  \/ (exists len g, bkp_read_gama f len = Some (g, f'))
  \/ (exists len type idat idat',
        bkp_skip_and_verify_chunk f len type idat = (Some f', idat')) ->
  exists pre, f = pre ++ f'.
Proof.
  intros [[len [pal [pal' Hr]]] | [[len [idat [idat' Hr]]]
          | [[len [g Hr]] | [len [type [idat [idat' Hr]]]]]]];
    unfold bkp_read_plte, bkp_collect_idat_data, bkp_read_gama,
      bkp_skip_and_verify_chunk in Hr;
    repeat case_match; try discriminate; simplify_eq;
    match goal with
    | H1 : fread _ _ = Some _, H2 : bkp_read_be32 _ = Some _ |- _ =>
      apply fread_suffix in H1 as [p1 ->];
      apply bkp_read_be32_suffix in H2 as [p2 ->]
    end;
    exists (p1 ++ p2); rewrite <- app_assoc; reflexivity.
Qed.

(** Without the bytes "IDAT" in the stream the loop never allocates the
    IDAT buffer. *)
Lemma chunk_loop_without_idat (fuel : nat) :
  forall (st : chunk_state) (f : stream),
  cs_idat st = IdatNull -> ~ occurs IDAT f ->
  cs_idat (chunk_loop fuel st f) = IdatNull.
Proof.
  induction fuel as [|fuel IH]; intros st f Hst Hno; [exact Hst|].
  cbn [chunk_loop].
  destruct (bkp_read_chunk_header f) as [[[len type] f1]|] eqn:Eh;
    [|exact Hst].
  unfold bkp_read_chunk_header in Eh.
  destruct (bkp_read_be32 f) as [[len' f0]|] eqn:El; [|discriminate].
  destruct (fread 4 f0) as [[type' f1']|] eqn:Et; [|discriminate].
  simplify_eq.
  apply bkp_read_be32_suffix in El as [p0 ->].
  apply fread_split in Et as [-> _].
  assert (Hno1 : ~ occurs IDAT f1).
  { intros Ho. apply Hno. rewrite app_assoc. apply occurs_suffix, Ho. }
  assert (Hsuf : forall f2, (exists pre, f1 = pre ++ f2) -> ~ occurs IDAT f2).
  { intros f2 [pre ->] Ho. apply Hno1. apply occurs_suffix, Ho. }
  destruct (type_is type PLTE).
  { destruct (bkp_read_plte f1 len (cs_palette st)) as [[pal f2]|] eqn:Ep;
      [|exact Hst].
    apply IH; [exact Hst|]. apply Hsuf, handler_suffix. left. eauto. }
  destruct (type_is type IDAT) eqn:Ety.
  { exfalso. apply Hno. apply bool_decide_eq_true in Ety. subst type.
    exists p0, f1. reflexivity. }
  destruct (type_is type IEND); [exact Hst|].
  destruct (type_is type gAMA).
  { destruct (bkp_read_gama f1 len) as [[g f2]|] eqn:Eg; [|exact Hst].
    apply IH; [exact Hst|]. apply Hsuf, handler_suffix.
    right. right. left. eauto. }
  destruct (bkp_skip_and_verify_chunk f1 len type (cs_idat st))
    as [[f2|] idat] eqn:Es.
  - assert (idat = IdatNull) as ->.
    { unfold bkp_skip_and_verify_chunk in Es. rewrite Hst in Es.
      repeat case_match; simplify_eq; reflexivity. }
    apply IH; [reflexivity|]. apply Hsuf, handler_suffix.
    right. right. right. eauto.
  - unfold bkp_skip_and_verify_chunk in Es. rewrite Hst in Es.
    repeat case_match; simplify_eq; reflexivity.
Qed.

(** X12: a file in which the four bytes "IDAT" occur nowhere is never
    decoded: [bkp_load_png] returns [NULL] without calling the inflater,
    and leaves the output variables alone.  The file is shorter than
    [2^32 - 4] bytes, so that no chunk in it has a length for which
    [length + 4] wraps. *)
Theorem load_png_without_idat (f : list Z) (outs : out_params) :
  Z.of_nat (length f) < 4294967292 ->
  ~ occurs IDAT f -> bkp_load_png (Some f) outs = Returned None outs.
Proof.
  intros _ Hno. unfold bkp_load_png.
  destruct (fread 8 f) as [[signature_read f1]|] eqn:Es; [|reflexivity].
  destruct (negb (bool_decide (signature_read = png_signature)));
    [reflexivity|].
  destruct (bkp_read_ihdr f1) as [[ihdr f2]|] eqn:Eh; [|reflexivity].
  cbv zeta. unfold read_chunks.
  rewrite chunk_loop_without_idat; [reflexivity | reflexivity |].
  intros Ho. apply Hno.
  apply fread_split in Es as [-> _].
  apply bkp_read_ihdr_layout in Eh
    as [l0 [l1 [l2 [l3 [data [c0 [c1 [c2 [c3 [-> _]]]]]]]]]].
  apply occurs_suffix.
  change ([l0; l1; l2; l3] ++ IHDR ++ data ++ [c0; c1; c2; c3] ++ f2)
    with (([l0; l1; l2; l3] ++ IHDR) ++ data ++ [c0; c1; c2; c3] ++ f2).
  apply occurs_suffix.
  replace (data ++ [c0; c1; c2; c3] ++ f2)
    with ((data ++ [c0; c1; c2; c3]) ++ f2)
    by (rewrite <- app_assoc; reflexivity).
  apply occurs_suffix, Ho.
Qed.

End NoIdat.

Lemma load_png_without_idat_witness :
  @bkp_load_png stored_externals
    (Some (png_signature ++ chunk IHDR (ihdr_data 1 1 8 6 0 0 0)
           ++ chunk IEND []))
    outs0
  = Returned None outs0.
Proof.
  apply (@load_png_without_idat stored_externals);
    [vm_compute; reflexivity|].
  intros [a [b E]]. vm_compute in E.
  repeat (destruct a as [|? a];
          [discriminate E | first [discriminate E | injection E as _ E]]).
Defined.

(* ===================================================================== *)
(** * Decoding a well-formed file *)
(* ===================================================================== *)

Section WellFormed.
Context `{Externals}.

Lemma png_filter_rows_length (bpp stride : Z) (rows : list (list Z)) :
  forall (filters : list Z) (prev : option (list Z)),
  length filters = length rows ->
  Forall (fun r => Z.of_nat (length r) = stride /\ Forall is_byte r) rows ->
  Z.of_nat (length (png_filter_rows bpp prev filters rows))
  = Z.of_nat (length rows) * (1 + stride).
Proof.
  induction rows as [|raw rows IH]; intros filters prev Hlen Hrows.
  - destruct filters; [reflexivity | discriminate].
  - destruct filters as [|f filters]; [discriminate|].
    apply Forall_cons in Hrows as [[Hl _] Hrows].
    cbn [png_filter_rows length]. rewrite length_app.
    unfold png_filter_row at 1. rewrite length_imap.
    rewrite !Nat2Z.inj_succ, Nat2Z.inj_add, IH by (try assumption; cbn in Hlen; lia).
    lia.
Qed.

Lemma concat_rows_length (stride : Z) (rows : list (list Z)) :
  Forall (fun r => Z.of_nat (length r) = stride /\ Forall is_byte r) rows ->
  Z.of_nat (length (concat rows)) = Z.of_nat (length rows) * stride.
Proof.
  induction 1 as [|r rows [Hl _] _ IH]; [reflexivity|].
  cbn [concat length]. rewrite length_app. lia.
Qed.

Lemma idat_payloads_bounded (parts : list (list Z)) :
  Forall idat_payload_ok parts ->
  Forall (fun p => 0 < Z.of_nat (length p) < 4294967296) parts.
Proof.
  intros Hparts. eapply Forall_impl; [exact Hparts|].
  intros p [Hp Hfit]. unfold crc_buf_fits, STACK_ARRAY_MAX in Hfit. lia.
Qed.

(** The loader on a well-formed, non-interlaced file without PLTE and
    gAMA chunks. *)
Lemma load_png_well_formed (w h ctype bpp n : Z) (filters : list Z)
  (rows parts : list (list Z)) (tail : list Z) (outs : out_params) :
  bpp_of ctype = Some bpp ->
  dims_exact (mk_ihdr w h 8 ctype 0 0 0) bpp = true ->
  Z.of_nat (length rows) = h ->
  length filters = length rows ->
  Forall (fun f => 0 <= f <= 4) filters ->
  Forall (fun r => Z.of_nat (length r) = w * bpp /\ Forall is_byte r) rows ->
  parts <> [] ->
  Forall (fun p => 0 < Z.of_nat (length p) < 4294967296) parts ->
  inflate (concat parts) = Some (png_filter_image bpp filters rows) ->
  0 <= n < 4294967296 ->
  bkp_load_png
    (Some (png_signature ++ chunk IHDR (ihdr_data w h 8 ctype 0 0 0)
           ++ concat (map (chunk IDAT) parts) ++ u32_bytes n ++ IEND ++ tail))
    outs
  = match to_rgba (mk_ihdr w h 8 ctype 0 0 0) false palette_zero (concat rows)
    with
    | Some pixels =>
      Returned (Some pixels) (write_outs (mk_ihdr w h 8 ctype 0 0 0) outs)
    | None => Returned None outs
    end.
Proof.
  intros Hbpp Hd Hh Hlen Hfs Hrows Hne Hparts Hinf Hn.
  pose proof (dims_exact_spec _ _ Hd) as Hdims. cbn [width height] in Hdims.
  pose proof (bpp_of_range _ _ Hbpp) as Hb.
  rewrite load_png_after_header by lia.
  destruct (read_chunks_idat_run parts n tail Hne Hparts Hn) as [-> _].
  cbn [cs_idat]. rewrite Hinf.
  unfold decode_pixels. cbn [color_type]. rewrite Hbpp.
  rewrite expected_size_exact by assumption.
  unfold stated_expected_size, png_filter_image. cbn [width height].
  rewrite (png_filter_rows_length bpp (w * bpp)) by assumption.
  destruct (Z.ltb_spec (Z.of_nat (length rows) * (1 + w * bpp))
              (h * (1 + w * bpp))); [nia|].
  rewrite Hd. cbn [orb negb].
  unfold decode_scanlines.
  cbn [interlace_method width height Z.eqb].
  rewrite bkp_filter_decode_exact by (unfold INT_MAX; nia).
  rewrite <- Hh, Nat2Z.id.
  rewrite <- (app_nil_r (png_filter_rows bpp None filters rows)).
  rewrite (filter_rows_inverts bpp) by (try assumption; try lia; discriminate).
  cbn [mbind outcome_bind fst app cs_have_plte cs_palette cs_gamma].
  destruct (to_rgba _ false palette_zero (concat rows)); reflexivity.
Qed.

(** X13: a well-formed non-interlaced file of colour type Gray, RGB,
    GrayAlpha or RGBA is decoded to the RGBA expansion of its raw
    scanlines: the signature, an IHDR chunk, the zlib stream cut into any
    number of non-empty IDAT chunks, each small enough for the stack array
    [crc_buf] of the handler, and an IEND header (anything may follow
    it).  The stream may use any filter on any row. *)
Theorem load_png_decodes_well_formed (w h ctype bpp n : Z) (filters : list Z)
  (rows parts : list (list Z)) (tail : list Z) (outs : out_params) :
  bpp_of ctype = Some bpp ->
  ctype <> BK_PNG_INDEXED ->
  dims_exact (mk_ihdr w h 8 ctype 0 0 0) bpp = true ->
  Z.of_nat (length rows) = h ->
  length filters = length rows ->
  Forall (fun f => 0 <= f <= 4) filters ->
  Forall (fun r => Z.of_nat (length r) = w * bpp /\ Forall is_byte r) rows ->
  parts <> [] ->
  Forall idat_payload_ok parts ->
  Z.of_nat (length (concat parts)) < 4294967292 ->
  inflate (concat parts) = Some (png_filter_image bpp filters rows) ->
  0 <= n < 4294967296 ->
  exists pixels,
    to_rgba (mk_ihdr w h 8 ctype 0 0 0) false palette_zero (concat rows)
    = Some pixels
    /\ bkp_load_png
         (Some (png_signature ++ chunk IHDR (ihdr_data w h 8 ctype 0 0 0)
                ++ concat (map (chunk IDAT) parts)
                ++ u32_bytes n ++ IEND ++ tail))
         outs
       = Returned (Some pixels) (write_outs (mk_ihdr w h 8 ctype 0 0 0) outs).
Proof.
  intros Hbpp Hct Hd Hh Hlen Hfs Hrows Hne Hparts _ Hinf Hn.
  apply idat_payloads_bounded in Hparts.
  rewrite (load_png_well_formed w h ctype bpp n filters rows parts tail outs)
    by assumption.
  destruct (to_rgba (mk_ihdr w h 8 ctype 0 0 0) false palette_zero
              (concat rows)) as [pixels|] eqn:Er.
  - exists pixels. split; reflexivity.
  - exfalso. unfold to_rgba in Er. cbn [color_type] in Er.
    unfold bpp_of in Hbpp. unfold BK_PNG_INDEXED, BK_PNG_GRAY,
      BK_PNG_GRAY_ALPHA, BK_PNG_RGB, BK_PNG_RGBA in *.
    repeat case_match; simplify_eq; try discriminate; lia.
Qed.

(** X14: for colour type RGBA the pixels returned are the raw scanlines
    themselves, byte for byte: what was filtered, compressed and cut into
    chunks (non-empty, each small enough for the stack array [crc_buf])
    comes back unchanged. *)
Theorem load_png_rgba_round_trip (w h n : Z) (filters : list Z)
  (rows parts : list (list Z)) (tail : list Z) (outs : out_params) :
  dims_exact (mk_ihdr w h 8 BK_PNG_RGBA 0 0 0) 4 = true ->
  Z.of_nat (length rows) = h ->
  length filters = length rows ->
  Forall (fun f => 0 <= f <= 4) filters ->
  Forall (fun r => Z.of_nat (length r) = w * 4 /\ Forall is_byte r) rows ->
  parts <> [] ->
  Forall idat_payload_ok parts ->
  Z.of_nat (length (concat parts)) < 4294967292 ->
  inflate (concat parts) = Some (png_filter_image 4 filters rows) ->
  0 <= n < 4294967296 ->
  bkp_load_png
    (Some (png_signature ++ chunk IHDR (ihdr_data w h 8 BK_PNG_RGBA 0 0 0)
           ++ concat (map (chunk IDAT) parts) ++ u32_bytes n ++ IEND ++ tail))
    outs
  = Returned (Some (concat rows))
      (write_outs (mk_ihdr w h 8 BK_PNG_RGBA 0 0 0) outs).
Proof.
  intros Hd Hh Hlen Hfs Hrows Hne Hparts _ Hinf Hn.
  apply idat_payloads_bounded in Hparts.
  rewrite (load_png_well_formed w h BK_PNG_RGBA 4 n filters rows parts tail outs)
    by (try assumption; reflexivity).
  pose proof (dims_exact_spec _ _ Hd) as Hdims. cbn [width height] in Hdims.
  pose proof (concat_rows_length _ _ Hrows) as Hc.
  unfold to_rgba. cbn [color_type width height].
  change (BK_PNG_RGBA =? BK_PNG_INDEXED) with false.
  change (BK_PNG_RGBA =? BK_PNG_GRAY) with false.
  change (BK_PNG_RGBA =? BK_PNG_GRAY_ALPHA) with false.
  change (BK_PNG_RGBA =? BK_PNG_RGB) with false.
  change (BK_PNG_RGBA =? BK_PNG_RGBA) with true. cbv iota.
  rewrite (u32_mul_exact w h) by nia. rewrite u32_mul_exact by nia.
  rewrite take_ge by lia. reflexivity.
Qed.

End WellFormed.

Lemma load_png_decodes_well_formed_witness :
  exists pixels,
    to_rgba (mk_ihdr 2 1 8 0 0 0 0) false palette_zero (concat [[100; 44]])
    = Some pixels
    /\ @bkp_load_png stored_externals
         (Some (png_signature ++ chunk IHDR (ihdr_data 2 1 8 0 0 0 0)
                ++ concat (map (chunk IDAT)
                     [take 5 (zlib_stored [1; 100; 200]);
                      drop 5 (zlib_stored [1; 100; 200])])
                ++ u32_bytes 0 ++ IEND ++ [1; 2; 3]))
         outs0
       = Returned (Some pixels) (write_outs (mk_ihdr 2 1 8 0 0 0 0) outs0).
Proof.
  apply (@load_png_decodes_well_formed stored_externals 2 1 0 1 0 [1]
           [[100; 44]]
           [take 5 (zlib_stored [1; 100; 200]);
            drop 5 (zlib_stored [1; 100; 200])]
           [1; 2; 3] outs0);
    try reflexivity; try discriminate; try lia;
    repeat first [apply Forall_nil_2 | apply Forall_cons_2 | split];
    unfold is_byte, crc_buf_fits, STACK_ARRAY_MAX; cbn; lia.
Defined.

Lemma load_png_rgba_round_trip_witness :
  @bkp_load_png stored_externals
    (Some (png_signature ++ chunk IHDR (ihdr_data 1 1 8 BK_PNG_RGBA 0 0 0)
           ++ concat (map (chunk IDAT) [zlib_stored red_1x1_scanlines])
           ++ u32_bytes 0 ++ IEND ++ []))
    outs0
  = Returned (Some (concat [[255; 0; 0; 255]]))
      (write_outs (mk_ihdr 1 1 8 BK_PNG_RGBA 0 0 0) outs0).
Proof.
  apply (@load_png_rgba_round_trip stored_externals 1 1 0 [0]
           [[255; 0; 0; 255]] [zlib_stored red_1x1_scanlines] [] outs0);
    try reflexivity; try discriminate; try lia;
    repeat first [apply Forall_nil_2 | apply Forall_cons_2 | split];
    unfold is_byte, crc_buf_fits, STACK_ARRAY_MAX; cbn; lia.
Defined.

(* ===================================================================== *)
(** * Gamma correction, byte by byte *)
(* ===================================================================== *)

Section Gamma.
Context `{Externals}.

Lemma nth_insert_eq (l : list Z) (i : nat) (v : Z) :
  (i < length l)%nat -> nth i (<[i := v]> l) 0 = v.
Proof.
  intros Hi. rewrite nth_lookup, list_lookup_insert_eq by exact Hi.
  reflexivity.
Qed.

(** The three stores of the inner loop on pixel [j]. *)
Lemma gamma_pixel_nth (gamma : Z) (pixels : list Z) (j i c : nat) :
  (j * 4 + 3 <= length pixels)%nat -> (c < 4)%nat ->
  nth (i * 4 + c) (gamma_pixel gamma pixels j) 0
  = if (i =? j)%nat && (c <? 3)%nat
    then gamma_channel gamma (nth (i * 4 + c) pixels 0)
    else nth (i * 4 + c) pixels 0.
Proof.
  intros Hj Hc. unfold gamma_pixel. cbn [seq fold_left].
  destruct (Nat.eqb_spec i j) as [-> | Hne]; cbn [andb].
  - destruct c as [|[|[|c]]]; cbn [Nat.ltb Nat.leb].
    + rewrite !nth_insert_ne, nth_insert_eq by lia. reflexivity.
    + rewrite !nth_insert_ne, nth_insert_eq by (rewrite ?length_insert; lia).
      rewrite nth_insert_ne by lia. reflexivity.
    + rewrite nth_insert_eq by (rewrite ?length_insert; lia).
      rewrite !nth_insert_ne by lia. reflexivity.
    + rewrite !nth_insert_ne by lia. reflexivity.
  - rewrite !nth_insert_ne by lia. reflexivity.
Qed.

Lemma gamma_loop_nth (gamma : Z) (pixels : list Z) (n i c : nat) :
  (n * 4 <= length pixels)%nat -> (c < 4)%nat ->
  nth (i * 4 + c) (fold_left (gamma_pixel gamma) (seq 0 n) pixels) 0
  = if (i <? n)%nat && (c <? 3)%nat
    then gamma_channel gamma (nth (i * 4 + c) pixels 0)
    else nth (i * 4 + c) pixels 0.
Proof.
  intros Hn Hc. induction n as [|n IH].
  - reflexivity.
  - rewrite seq_S, fold_left_app. cbn [fold_left Nat.add].
    assert (Hlen : length (fold_left (gamma_pixel gamma) (seq 0 n) pixels)
                   = length pixels).
    { clear. generalize (seq 0 n). intros l. revert pixels.
      induction l as [|j l IHl]; intros pixels; cbn [fold_left];
        [reflexivity|].
      rewrite IHl. apply gamma_pixel_length. }
    rewrite gamma_pixel_nth by (rewrite ?Hlen; lia).
    rewrite IH by lia.
    destruct (Nat.eqb_spec i n), (Nat.ltb_spec i n), (Nat.ltb_spec i (S n));
      try lia; cbn [andb]; try reflexivity.
Qed.

(** X15: gamma correction keeps the size of the buffer, replaces each of
    the three colour bytes of each of the [width * height] pixels by its
    corrected value, each computed from the byte as it was, and leaves
    every alpha byte as it is; with a gamma of zero it changes nothing. *)
Theorem bkp_apply_gamma_correction_spec (pixels : list Z) (w h gamma : Z)
  (i c : nat) :
  4 * u32_mul w h < 4294967296 ->
  4 * u32_mul w h <= Z.of_nat (length pixels) ->
  (c < 4)%nat ->
  length (bkp_apply_gamma_correction pixels w h gamma) = length pixels
  /\ nth (i * 4 + c) (bkp_apply_gamma_correction pixels w h gamma) 0
     = if (0 <? gamma) && (Z.of_nat i <? u32_mul w h) && (c <? 3)%nat
       then gamma_channel gamma (nth (i * 4 + c) pixels 0)
       else nth (i * 4 + c) pixels 0.
Proof.
  intros _ Hlen Hc. split; [apply bkp_apply_gamma_correction_length|].
  unfold bkp_apply_gamma_correction.
  destruct (Z.leb_spec gamma 0), (Z.ltb_spec 0 gamma); try lia;
    cbn [andb]; [reflexivity|].
  rewrite gamma_loop_nth by lia.
  destruct (Nat.ltb_spec i (Z.to_nat (u32_mul w h))),
    (Z.ltb_spec (Z.of_nat i) (u32_mul w h)); try lia; reflexivity.
Qed.

End Gamma.

Lemma bkp_apply_gamma_correction_spec_witness :
  length (@bkp_apply_gamma_correction stored_externals
            [10; 20; 30; 40; 50; 60; 70; 80] 2 1 45455)
  = length [10; 20; 30; 40; 50; 60; 70; 80]
  /\ nth (1 * 4 + 3)
       (@bkp_apply_gamma_correction stored_externals
          [10; 20; 30; 40; 50; 60; 70; 80] 2 1 45455) 0
     = 80.
Proof.
  apply (@bkp_apply_gamma_correction_spec stored_externals
           [10; 20; 30; 40; 50; 60; 70; 80] 2 1 45455 1 3);
    [vm_compute; reflexivity | vm_compute; discriminate | lia].
Defined.

(* ===================================================================== *)
(** * The conversion to RGBA, pixel by pixel *)
(* ===================================================================== *)

Section Conversion.

(** X16: the conversion writes, for pixel [i] of a Gray source, the sample
    three times and 255; for GrayAlpha the gray sample three times and the
    alpha sample; for RGB the three samples and 255; for RGBA the four
    samples; for Indexed, with a PLTE seen, the four bytes of the palette
    entry of the index, entry 0 when the index is not below the palette
    size. *)
Theorem to_rgba_pixel (ihdr : bkp_ihdr) (have_plte : bool) (pal : bkp_palette)
  (filtered_pixels raw_pixels : list Z) (i : nat) :
  0 <= width ihdr * height ihdr ->
  4 * (width ihdr * height ihdr) < 4294967296 ->
  (i < Z.to_nat (width ihdr * height ihdr))%nat ->
  to_rgba ihdr have_plte pal filtered_pixels = Some raw_pixels ->
  let px k := nth k filtered_pixels 0 in
  (color_type ihdr = BK_PNG_GRAY ->
   pixel_at raw_pixels i = [px i; px i; px i; 255])
  /\ (color_type ihdr = BK_PNG_GRAY_ALPHA ->
      pixel_at raw_pixels i
      = [px (i * 2)%nat; px (i * 2)%nat; px (i * 2)%nat; px (i * 2 + 1)%nat])
  /\ (color_type ihdr = BK_PNG_RGB ->
      pixel_at raw_pixels i
      = [px (i * 3)%nat; px (i * 3 + 1)%nat; px (i * 3 + 2)%nat; 255])
  /\ (color_type ihdr = BK_PNG_RGBA ->
      pixel_at raw_pixels i = pixel_at filtered_pixels i)
  /\ (color_type ihdr = BK_PNG_INDEXED ->
      have_plte = true
      /\ pixel_at raw_pixels i
         = entry_bytes pal
             (Z.to_nat (if size pal <=? px i then 0 else px i))).
Proof.
  intros Hn0 Hn4 Hi Hr px.
  assert (Hn : u32_mul (width ihdr) (height ihdr) = width ihdr * height ihdr)
    by (apply u32_mul_exact; lia).
  unfold to_rgba in Hr. rewrite Hn in Hr.
  unfold BK_PNG_INDEXED, BK_PNG_GRAY, BK_PNG_GRAY_ALPHA, BK_PNG_RGB,
    BK_PNG_RGBA in *.
  repeat match type of Hr with
         | context [color_type ihdr =? ?c] =>
           destruct (Z.eqb_spec (color_type ihdr) c)
         end;
    try discriminate;
    (split; [|split; [|split; [|split]]]); intros Hct; try lia.
  - destruct have_plte; [|discriminate]. cbn [negb] in Hr. simplify_eq.
    split; [reflexivity|]. apply pixel_at_expand_palette. exact Hi.
  - simplify_eq. rewrite pixel_at_loop by (auto; lia). reflexivity.
  - simplify_eq. rewrite pixel_at_loop by (auto; lia).
    rewrite !Nat.add_0_r. reflexivity.
  - simplify_eq. rewrite pixel_at_loop by (auto; lia).
    rewrite !Nat.add_0_r. reflexivity.
  - simplify_eq. rewrite u32_mul_exact by lia. unfold pixel_at.
    rewrite skipn_firstn_comm, take_take. f_equal. lia.
Qed.

Lemma to_rgba_pixel_witness :
  pixel_at [7; 7; 7; 255; 9; 9; 9; 255] 1 = [9; 9; 9; 255].
Proof.
  pose proof (to_rgba_pixel (mk_ihdr 2 1 8 0 0 0 0) false palette_zero
                [7; 9] [7; 7; 7; 255; 9; 9; 9; 255] 1
                ltac:(cbn; lia) ltac:(cbn; lia) ltac:(cbn; lia) eq_refl)
    as [Hgray _].
  exact (Hgray eq_refl).
Defined.

End Conversion.

(* ===================================================================== *)
(** * Unknown filter selectors *)
(* ===================================================================== *)

Section FilterSelectors.

Lemma unfilter_row_none (filter bpp : Z) (prev_row : option (list Z))
  (curr : list Z) :
  unfilter_row filter bpp prev_row curr = None <-> ~ 0 <= filter <= 4.
Proof.
  unfold unfilter_row. split.
  - intros Hr Hf.
    assert (filter = 0 \/ filter = 1 \/ filter = 2 \/ filter = 3 \/ filter = 4)
      as [-> | [-> | [-> | [-> | ->]]]] by lia; discriminate.
  - intros Hf. repeat case_match; try reflexivity; lia.
Qed.

(** The scanline loop with all its scanlines available: it fails exactly
    when one of the [rows] filter bytes is not a selector, and otherwise
    returns. *)
Lemma filter_rows_fail_iff (stride bpp : Z) (rows : nat) :
  0 <= stride ->
  forall data prev_row out,
  Z.of_nat rows * (1 + stride) <= Z.of_nat (length data) ->
  (filter_rows rows stride bpp data prev_row out = Fail
   <-> exists y, (y < rows)%nat
                 /\ ~ 0 <= nth (y * (1 + Z.to_nat stride)) data 0 <= 4)
  /\ (filter_rows rows stride bpp data prev_row out <> Fail ->
      exists r, filter_rows rows stride bpp data prev_row out = Done r).
Proof.
  intros Hs. induction rows as [|rows IH]; intros data prev_row out Hlen.
  - cbn [filter_rows]. split; [|eauto].
    split; [discriminate | intros [y [Hy _]]; lia].
  - destruct data as [|filter curr]; [cbn in Hlen; lia|].
    cbn [length] in Hlen. cbn [filter_rows].
    destruct (unfilter_row filter bpp prev_row (take (Z.to_nat stride) curr))
      as [out_row|] eqn:Eu.
    + assert (Hok : 0 <= filter <= 4).
      { destruct (decide (0 <= filter <= 4)) as [|Hbad]; [assumption|].
        apply (unfilter_row_none filter bpp prev_row
                 (take (Z.to_nat stride) curr)) in Hbad. congruence. }
      destruct (Z.ltb_spec (Z.of_nat (length curr)) stride); [nia|].
      specialize (IH (drop (Z.to_nat stride) curr) (Some out_row)
                     (out ++ out_row)).
      destruct IH as [IHf IHd]; [rewrite length_drop; nia|].
      split; [|exact IHd].
      rewrite IHf. split.
      * intros [y [Hy Hbad]]. exists (S y). split; [lia|].
        replace (S y * (1 + Z.to_nat stride))%nat
          with (S (Z.to_nat stride + y * (1 + Z.to_nat stride)))%nat by lia.
        cbn [nth]. rewrite nth_lookup, <- lookup_drop, <- nth_lookup.
        exact Hbad.
      * intros [[|y] [Hy Hbad]]; [cbn in Hbad; lia|].
        exists y. split; [lia|].
        replace (S y * (1 + Z.to_nat stride))%nat
          with (S (Z.to_nat stride + y * (1 + Z.to_nat stride)))%nat
          in Hbad by lia.
        cbn [nth] in Hbad.
        rewrite nth_lookup, <- lookup_drop, <- nth_lookup in Hbad.
        exact Hbad.
    + split; [|congruence].
      split; [|reflexivity]. intros _. exists 0%nat. split; [lia|].
      cbn [Nat.mul nth]. apply (unfilter_row_none _ _ _ _) in Eu. exact Eu.
Qed.

(** X17: when the stream holds all [height] scanlines,
    [bkp_filter_decode] fails exactly when the filter byte of some row is
    not one of 0, 1, 2, 3, 4 (the bytes of a row are never a reason to
    fail), and otherwise it returns [height * width * bpp] bytes. *)
Theorem bkp_filter_decode_fails_iff (data : list Z) (width height bpp : Z) :
  0 <= width * bpp -> 0 <= height ->
  width * bpp <= INT_MAX -> height * (width * bpp) <= INT_MAX ->
  height * (1 + width * bpp) <= Z.of_nat (length data) ->
  (bkp_filter_decode data width height bpp = Fail
   <-> exists y, (y < Z.to_nat height)%nat
                 /\ ~ 0 <= nth (y * (1 + Z.to_nat (width * bpp))) data 0 <= 4)
  /\ (bkp_filter_decode data width height bpp <> Fail ->
      exists out,
        bkp_filter_decode data width height bpp = Done out
        /\ Z.of_nat (length out) = height * (width * bpp)).
Proof.
  intros Hs Hh Hmax Hint Hlen. rewrite !bkp_filter_decode_exact by nia.
  destruct (filter_rows_fail_iff (width * bpp) bpp (Z.to_nat height) Hs
              data None []) as [Hf Hd]; [lia|].
  destruct (filter_rows (Z.to_nat height) (width * bpp) bpp data None [])
    as [[o r]| |] eqn:Ef; cbn [mbind outcome_bind].
  - split.
    + rewrite <- Hf. split; discriminate.
    + intros _. exists o. split; [reflexivity|].
      apply filter_rows_length in Ef; [|exact Hs]. cbn [length] in Ef.
      cbn [fst]. nia.
  - split; [|congruence]. rewrite <- Hf. tauto.
  - destruct Hd as [r Hr]; discriminate.
Qed.

Lemma bkp_filter_decode_fails_iff_witness :
  (bkp_filter_decode [0; 1; 2; 9; 3; 4] 2 2 1 = Fail
   <-> exists y, (y < Z.to_nat 2)%nat
                 /\ ~ 0 <= nth (y * (1 + Z.to_nat (2 * 1)))
                            [0; 1; 2; 9; 3; 4] 0 <= 4)
  /\ (bkp_filter_decode [0; 1; 2; 9; 3; 4] 2 2 1 <> Fail ->
      exists out,
        bkp_filter_decode [0; 1; 2; 9; 3; 4] 2 2 1 = Done out
        /\ Z.of_nat (length out) = 2 * (2 * 1)).
Proof.
  apply (bkp_filter_decode_fails_iff [0; 1; 2; 9; 3; 4] 2 2 1);
    unfold INT_MAX; cbn; lia.
Defined.

End FilterSelectors.

(* ===================================================================== *)
(** * Adam7: the size of the passes *)
(* ===================================================================== *)

Section Adam7Sizes.

(** The values of a [for] loop with a positive step, in closed form. *)
Lemma for_steps_closed_form (limit step : Z) (fuel : nat) :
  1 <= step ->
  forall start,
  (Z.to_nat (limit - start) <= fuel)%nat ->
  for_steps fuel start limit step = sub_coords limit start step.
Proof.
  intros Hstep. unfold sub_coords, sub_count.
  induction fuel as [|fuel IH]; intros start Hfuel.
  - cbn [for_steps].
    replace (Z.to_nat ((limit - start + step - 1) / step)) with 0%nat;
      [reflexivity|].
    assert ((limit - start + step - 1) / step <= 0); [|lia].
    apply Z.lt_succ_r. apply Z.div_lt_upper_bound; lia.
  - cbn [for_steps]. destruct (Z.ltb_spec start limit) as [Hlt | Hge].
    + rewrite IH by lia.
      replace (limit - start + step - 1)
        with (limit - (start + step) + step - 1 + 1 * step) by lia.
      rewrite Z_div_plus_full by lia.
      assert (0 <= (limit - (start + step) + step - 1) / step)
        by (apply Z.div_pos; lia).
      replace (Z.to_nat ((limit - (start + step) + step - 1) / step + 1))
        with (S (Z.to_nat ((limit - (start + step) + step - 1) / step)))
        by lia.
      cbn [seq map]. f_equal; [lia|].
      rewrite <- seq_shift, map_map. apply map_ext. intros i. lia.
    + replace (Z.to_nat ((limit - start + step - 1) / step)) with 0%nat;
        [reflexivity|].
      assert ((limit - start + step - 1) / step <= 0); [|lia].
      apply Z.lt_succ_r. apply Z.div_lt_upper_bound; lia.
Qed.

Lemma for_range_closed_form (start limit step : Z) :
  1 <= step -> for_range start limit step = sub_coords limit start step.
Proof.
  intros Hstep. unfold for_range. apply for_steps_closed_form; [exact Hstep|].
  lia.
Qed.

Lemma sub_coords_length (size start step : Z) :
  length (sub_coords size start step) = sub_count size start step.
Proof. unfold sub_coords. rewrite length_map, length_seq. reflexivity. Qed.

(** X18: the counting loops of [bkp_decode_adam7] give each pass
    [ceil ((width - x0) / dx)] columns and [ceil ((height - y0) / dy)]
    rows (none when the image stops before the start of the pass), and the
    scatter loops visit the pixels [(x0 + i * dx, y0 + j * dy)], row by
    row. *)
Theorem adam7_pass_dimensions (p : Z * Z * Z * Z) (width height : Z) :
  In p ADAM7_PASSES ->
  width + 8 <= INT_MAX -> height + 8 <= INT_MAX ->
  let '(x0, y0, dx, dy) := p in
  pass_width p width = Z.max 0 ((width - x0 + dx - 1) / dx)
  /\ pass_height p height = Z.max 0 ((height - y0 + dy - 1) / dy)
  /\ pass_positions p width height
     = flat_map
         (fun j => map (fun i => (x0 + Z.of_nat i * dx, y0 + Z.of_nat j * dy))
                       (seq 0 (Z.to_nat (pass_width p width))))
         (seq 0 (Z.to_nat (pass_height p height))).
Proof.
  intros Hp _ _. pose proof (adam7_steps_positive p Hp) as Hpos.
  destruct p as [[[x0 y0] dx] dy]. destruct Hpos as [Hdx Hdy].
  unfold pass_width, pass_height, pass_positions.
  rewrite !for_range_closed_form by assumption.
  rewrite !sub_coords_length, !Nat2Z.id. unfold sub_coords, sub_count.
  split; [lia|]. split; [lia|].
  rewrite flat_map_concat_map, map_map, <- flat_map_concat_map.
  apply flat_map_ext. intros j. rewrite map_map. reflexivity.
Qed.

Lemma adam7_pass_dimensions_witness :
  pass_width (2, 0, 4, 4) 11 = Z.max 0 ((11 - 2 + 4 - 1) / 4)
  /\ pass_height (2, 0, 4, 4) 3 = Z.max 0 ((3 - 0 + 4 - 1) / 4)
  /\ pass_positions (2, 0, 4, 4) 11 3
     = flat_map
         (fun j => map (fun i => (2 + Z.of_nat i * 4, 0 + Z.of_nat j * 4))
                       (seq 0 (Z.to_nat (pass_width (2, 0, 4, 4) 11))))
         (seq 0 (Z.to_nat (pass_height (2, 0, 4, 4) 3))).
Proof.
  apply (adam7_pass_dimensions (2, 0, 4, 4) 11 3);
    [cbn; tauto | unfold INT_MAX; lia | unfold INT_MAX; lia].
Defined.

Lemma pass_positions_length (p : Z * Z * Z * Z) (width height : Z) :
  Z.of_nat (length (pass_positions p width height))
  = pass_width p width * pass_height p height.
Proof.
  destruct p as [[[x0 y0] dx] dy]. unfold pass_positions, pass_width,
    pass_height.
  generalize (for_range x0 width dx) (for_range y0 height dy).
  intros xs ys. induction ys as [|y ys IH]; cbn [flat_map length]; [lia|].
  rewrite length_app, length_map. lia.
Qed.

Lemma grid_product_length (xs ys : list Z) :
  length (flat_map (fun y => map (fun x => (x, y)) xs) ys)
  = (length ys * length xs)%nat.
Proof.
  induction ys as [|y ys IH]; cbn [flat_map length]; [reflexivity|].
  rewrite length_app, length_map, IH. lia.
Qed.

(** The cells of the grid, row by row. *)
Lemma grid_cells (width height : Z) :
  0 <= width -> 0 <= height ->
  exists cells : list (Z * Z),
    NoDup cells
    /\ Z.of_nat (length cells) = width * height
    /\ forall x y, In (x, y) cells <-> 0 <= x < width /\ 0 <= y < height.
Proof.
  intros Hw Hh.
  exists (flat_map (fun y => map (fun x => (x, y)) (for_range 0 width 1))
                   (for_range 0 height 1)).
  assert (Hlen : forall n, 0 <= n ->
                           Z.of_nat (length (for_range 0 n 1)) = n).
  { intros n Hn. rewrite for_range_closed_form, sub_coords_length by lia.
    unfold sub_count. rewrite Z.div_1_r. lia. }
  split; [apply grid_product_NoDup; apply for_range_NoDup; lia|]. split.
  - rewrite grid_product_length, Nat2Z.inj_mul, !Hlen by assumption. lia.
  - intros x y. rewrite in_grid_product, !for_range_spec by lia.
    rewrite !Z.mod_1_r. lia.
Qed.

(** X19: the seven sub-images hold the pixels of the image, no more and
    no fewer: the products [pw * ph] of the pass dimensions add up to
    [width * height]. *)
Theorem adam7_pixel_count (width height : Z) :
  0 <= width -> 0 <= height ->
  width + 8 <= INT_MAX -> height + 8 <= INT_MAX ->
  fold_right Z.add 0
    (map (fun p => pass_width p width * pass_height p height) ADAM7_PASSES)
  = width * height.
Proof.
  intros Hw Hh _ _.
  destruct (grid_cells width height Hw Hh) as [cells [Hnd [Hlen Hin]]].
  rewrite <- Hlen.
  assert (Hperm : Permutation (adam7_positions width height) cells).
  { apply NoDup_Permutation; [apply adam7_positions_NoDup | exact Hnd|].
    intros [x y]. rewrite !list_elem_of_In, adam7_positions_in, Hin.
    tauto. }
  rewrite <- (Permutation_length Hperm), adam7_positions_all_passes.
  unfold ADAM7_PASSES. cbn [flat_map map fold_right].
  rewrite !length_app, !Nat2Z.inj_add, !pass_positions_length.
  cbn [length]. lia.
Qed.

Lemma adam7_pixel_count_witness :
  fold_right Z.add 0
    (map (fun p => pass_width p 13 * pass_height p 9) ADAM7_PASSES)
  = 13 * 9.
Proof. apply (adam7_pixel_count 13 9); unfold INT_MAX; lia. Defined.

End Adam7Sizes.

(* ===================================================================== *)
(** * Adam7: the loops visit the sample positions *)
(* ===================================================================== *)



(* ===================================================================== *)
(** * Adam7: de-interlacing inverts interlacing *)
(* ===================================================================== *)

Section Adam7RoundTrip.

Variables width height bpp : Z.
Variable img : list Z.
Hypothesis bpp_pos : 1 <= bpp.
Hypothesis width_nonneg : 0 <= width.
Hypothesis height_nonneg : 0 <= height.
Hypothesis img_size : Z.of_nat (length img) = width * height * bpp.
Hypothesis img_bytes : Forall is_byte img.

Lemma pixel_offset_range (x y : Z) :
  0 <= x < width -> 0 <= y < height ->
  0 <= (y * width + x) * bpp
  /\ (y * width + x) * bpp + bpp <= width * height * bpp.
Proof.
  intros Hx Hy.
  assert (0 <= y * width) by nia.
  assert (y * width + x + 1 <= width * height) by nia.
  split; nia.
Qed.

Lemma image_pixel_length (x y : Z) :
  0 <= x < width -> 0 <= y < height ->
  length (image_pixel width bpp img (x, y)) = Z.to_nat bpp.
Proof.
  intros Hx Hy. pose proof (pixel_offset_range x y Hx Hy).
  unfold image_pixel. cbn [fst snd]. rewrite length_take, length_drop. lia.
Qed.

Lemma image_pixel_nth (x y : Z) (c : nat) :
  (c < Z.to_nat bpp)%nat ->
  nth c (image_pixel width bpp img (x, y)) 0
  = nth (Z.to_nat ((y * width + x) * bpp) + c) img 0.
Proof.
  intros Hc. unfold image_pixel. cbn [fst snd].
  rewrite !nth_lookup, lookup_take_lt, lookup_drop by exact Hc.
  reflexivity.
Qed.

Lemma image_pixel_bytes (xy : Z * Z) :
  Forall is_byte (image_pixel width bpp img xy).
Proof. unfold image_pixel. apply Forall_take, Forall_drop, img_bytes. Qed.

Lemma flat_map_length_uniform {A} (f : A -> list Z) (b : nat) (L : list A) :
  Forall (fun a => length (f a) = b) L ->
  length (flat_map f L) = (length L * b)%nat.
Proof.
  induction 1 as [|a L Ha _ IH]; cbn [flat_map length]; [reflexivity|].
  rewrite length_app, Ha, IH. lia.
Qed.

Lemma nth_flat_map_uniform {A} (f : A -> list Z) (b : nat) (L : list A)
  (a0 : A) (k c : nat) :
  Forall (fun a => length (f a) = b) L ->
  (k < length L)%nat -> (c < b)%nat ->
  nth (k * b + c) (flat_map f L) 0 = nth c (f (nth k L a0)) 0.
Proof.
  intros HL. revert k. induction HL as [|a L Ha _ IH]; intros k Hk Hc;
    cbn [length] in Hk; [lia|].
  cbn [flat_map]. destruct k as [|k].
  - cbn [Nat.mul Nat.add nth]. apply app_nth1. lia.
  - rewrite app_nth2 by (rewrite Ha; lia).
    replace (S k * b + c - length (f a))%nat with (k * b + c)%nat
      by (rewrite Ha; lia).
    cbn [nth]. apply IH; lia.
Qed.

Lemma pass_positions_in_grid (p : Z * Z * Z * Z) (x y : Z) :
  In p ADAM7_PASSES -> In (x, y) (pass_positions p width height) ->
  0 <= x < width /\ 0 <= y < height.
Proof.
  intros Hp Hin. apply (adam7_positions_in width height).
  rewrite adam7_positions_all_passes. apply in_flat_map. eauto.
Qed.

Lemma pass_width_count (p : Z * Z * Z * Z) :
  In p ADAM7_PASSES ->
  let '(x0, y0, dx, dy) := p in
  pass_width p width = Z.of_nat (sub_count width x0 dx)
  /\ pass_height p height = Z.of_nat (sub_count height y0 dy).
Proof.
  intros Hp. pose proof (adam7_steps_positive p Hp) as Hpos.
  destruct p as [[[x0 y0] dx] dy]. destruct Hpos as [Hdx Hdy].
  unfold pass_width, pass_height.
  rewrite !for_range_closed_form, !sub_coords_length by assumption.
  split; reflexivity.
Qed.

(** The sub-image of a pass, row by row, and its pixels in the order of
    the scatter loops. *)
Lemma pass_rows_facts (p : Z * Z * Z * Z) :
  In p ADAM7_PASSES ->
  concat (pass_rows p width height bpp img)
  = flat_map (image_pixel width bpp img) (pass_positions p width height)
  /\ length (pass_rows p width height bpp img)
     = Z.to_nat (pass_height p height)
  /\ Forall (fun r => Z.of_nat (length r) = pass_width p width * bpp
                      /\ Forall is_byte r)
       (pass_rows p width height bpp img).
Proof.
  intros Hp. pose proof (adam7_steps_positive p Hp) as Hpos.
  pose proof (fun x y => pass_positions_in_grid p x y Hp) as Hgrid.
  destruct p as [[[x0 y0] dx] dy]. destruct Hpos as [Hdx Hdy].
  unfold pass_rows, pass_positions, pass_width, pass_height in *.
  rewrite <- !for_range_closed_form by assumption.
  set (xs := for_range x0 width dx) in *.
  set (ys := for_range y0 height dy) in *.
  split; [|split].
  - clear. induction ys as [|y ys IH]; cbn [map concat flat_map];
      [reflexivity|].
    rewrite flat_map_app, IH. f_equal.
    clear. induction xs as [|x xs IH]; cbn [map flat_map]; [reflexivity|].
    rewrite IH. reflexivity.
  - rewrite length_map. lia.
  - apply Forall_forall. intros r Hr.
    apply list_elem_of_In, in_map_iff in Hr as [y [<- Hy]]. split.
    + rewrite (flat_map_length_uniform _ (Z.to_nat bpp)).
      * lia.
      * apply Forall_forall. intros x Hx. apply list_elem_of_In in Hx.
        assert (Hin : In (x, y)
                  (flat_map (fun y => map (fun x => (x, y)) xs) ys))
          by (apply in_grid_product; tauto).
        apply Hgrid in Hin. apply image_pixel_length; tauto.
    + clear -img_bytes. induction xs as [|x xs IH]; cbn [flat_map];
        [apply Forall_nil_2|].
      apply Forall_app. split; [apply image_pixel_bytes | exact IH].
Qed.

(** A store of the byte that is already there. *)
Lemma store_same (buf : list Z) (k v : Z) :
  0 <= k < Z.of_nat (length buf) ->
  nth (Z.to_nat k) buf 0 = v ->
  store buf k v = Done buf.
Proof.
  intros Hk Hv. unfold store.
  destruct (Z.leb_spec 0 k), (Z.ltb_spec k (Z.of_nat (length buf))); try lia.
  cbn [andb]. f_equal. apply list_insert_id.
  rewrite nth_lookup in Hv.
  destruct (buf !! Z.to_nat k) as [v'|] eqn:El.
  - cbn in Hv. congruence.
  - apply lookup_ge_None in El. lia.
Qed.

(** The scatter loops of a pass whose sub-image holds the pixels of
    [img]: every store writes the byte [img] has, and the pixel counter
    advances by one per position. *)
Lemma scatter_fixes_image (filtered_pass : list Z) (L : list (Z * Z)) :
  forall idx : nat,
  (forall k c, (k < length L)%nat -> (c < Z.to_nat bpp)%nat ->
     let '(x, y) := nth k L (0, 0) in
     0 <= x < width /\ 0 <= y < height
     /\ nth ((idx + k) * Z.to_nat bpp + c) filtered_pass 0
        = nth (Z.to_nat ((y * width + x) * bpp) + c) img 0) ->
  fold_outcome (scatter_pixel width bpp filtered_pass) L (img, Z.of_nat idx)
  = Done (img, Z.of_nat (idx + length L)).
Proof.
  induction L as [|[x y] L IH]; intros idx HL; cbn [fold_outcome length].
  - rewrite Nat.add_0_r. reflexivity.
  - assert (Hpix : scatter_pixel width bpp filtered_pass (img, Z.of_nat idx)
                     (x, y) = Done (img, Z.of_nat idx + 1)).
    { unfold scatter_pixel.
      assert (Hinner : forall cs,
        (forall c, In c cs -> (c < Z.to_nat bpp)%nat) ->
        fold_outcome
          (fun o c =>
             store o ((y * width + x) * bpp + Z.of_nat c)
               (nth (Z.to_nat (Z.of_nat idx * bpp + Z.of_nat c))
                  filtered_pass 0)) cs img = Done img).
      { induction cs as [|c cs IHc]; intros Hcs; cbn [fold_outcome];
          [reflexivity|].
        specialize (HL 0%nat c ltac:(cbn; lia) (Hcs c (or_introl eq_refl))).
        cbn [nth] in HL. destruct HL as [Hx [Hy Hv]].
        pose proof (pixel_offset_range x y Hx Hy).
        pose proof (Hcs c (or_introl eq_refl)).
        rewrite store_same.
        - cbn [mbind outcome_bind]. apply IHc. intros c' Hc'.
          apply Hcs. right. exact Hc'.
        - lia.
        - rewrite Nat.add_0_r in Hv.
          replace (Z.to_nat ((y * width + x) * bpp + Z.of_nat c))
            with (Z.to_nat ((y * width + x) * bpp) + c)%nat by lia.
          rewrite <- Hv. f_equal. lia. }
      rewrite Hinner by (intros c Hc; apply in_seq in Hc; lia).
      reflexivity. }
    rewrite Hpix. cbn [mbind outcome_bind].
    replace (Z.of_nat idx + 1) with (Z.of_nat (S idx)) by lia.
    rewrite IH.
    + f_equal. f_equal. lia.
    + intros k c Hk Hc. specialize (HL (S k) c ltac:(cbn; lia) Hc).
      cbn [nth] in HL. replace (S idx + k)%nat with (idx + S k)%nat by lia.
      exact HL.
Qed.

Variable choose : Z * Z * Z * Z -> list Z.
Hypothesis choose_ok :
  forall p, In p ADAM7_PASSES ->
    length (choose p) = Z.to_nat (pass_height p height)
    /\ Forall (fun f => 0 <= f <= 4) (choose p).

(** One pass on its part of the interlaced stream, the output buffer
    holding the image already. *)
Lemma adam7_pass_fixes_image (p : Z * Z * Z * Z) (rest : list Z) :
  In p ADAM7_PASSES ->
  adam7_pass width height bpp
    ((let '(x0, y0, dx, dy) := p in
      if (sub_count width x0 dx =? 0)%nat || (sub_count height y0 dy =? 0)%nat
      then []
      else png_filter_image bpp (choose p) (pass_rows p width height bpp img))
     ++ rest, img) p
  = Done (rest, img).
Proof.
  intros Hp. pose proof (pass_width_count p Hp) as Hcount.
  destruct (pass_rows_facts p Hp) as [Hconcat [Hnrows Hrows]].
  destruct (choose_ok p Hp) as [Hnf Hfs].
  pose proof (fun x y => pass_positions_in_grid p x y Hp) as Hgrid.
  unfold adam7_pass.
  remember (pass_positions p width height) as positions eqn:Epos.
  remember (pass_rows p width height bpp img) as rows eqn:Erows.
  remember (choose p) as filters eqn:Efilters.
  clear Epos Erows Efilters.
  destruct p as [[[x0 y0] dx] dy]. destruct Hcount as [Hpw Hph].
  rewrite Hpw, Hph in *.
  destruct (sub_count width x0 dx) as [|nw] eqn:Ew;
    [reflexivity|].
  destruct (sub_count height y0 dy) as [|nh] eqn:Eh;
    [reflexivity|].
  cbn [Nat.eqb orb].
  replace ((Z.of_nat (S nw) =? 0) || (Z.of_nat (S nh) =? 0)) with false
    by (symmetry; apply orb_false_iff; split; apply Z.eqb_neq; lia).
  unfold png_filter_image. rewrite <- Hnrows.
  rewrite (filter_rows_inverts bpp bpp_pos (Z.of_nat (S nw) * bpp) rows);
    [|lia | exact Hfs | exact Hrows | discriminate].
  cbn [mbind outcome_bind fst snd app].
  rewrite Hconcat.
  pose proof (scatter_fixes_image
                (flat_map (image_pixel width bpp img) positions)
                positions 0%nat) as Hsc.
  change (Z.of_nat 0) with 0 in Hsc. rewrite Hsc; [reflexivity|].
  intros k c Hk Hc.
  destruct (nth k positions (0, 0)) as [x y] eqn:En.
  assert (Hin : In (x, y) positions) by (rewrite <- En; apply nth_In, Hk).
  apply Hgrid in Hin. destruct Hin as [Hx Hy].
  split; [exact Hx|]. split; [exact Hy|].
  cbn [Nat.add].
  rewrite (nth_flat_map_uniform _ (Z.to_nat bpp) positions (0, 0));
    [rewrite En; apply image_pixel_nth; exact Hc | | exact Hk | exact Hc].
  apply Forall_forall. intros [x' y'] Hin'. apply list_elem_of_In in Hin'.
  apply Hgrid in Hin'. apply image_pixel_length; tauto.
Qed.

Lemma adam7_passes_fix_image (extra : list Z) (ps : list (Z * Z * Z * Z)) :
  (forall p, In p ps -> In p ADAM7_PASSES) ->
  fold_outcome (adam7_pass width height bpp) ps
    (flat_map
       (fun p =>
          let '(x0, y0, dx, dy) := p in
          if (sub_count width x0 dx =? 0)%nat
             || (sub_count height y0 dy =? 0)%nat
          then []
          else png_filter_image bpp (choose p)
                 (pass_rows p width height bpp img)) ps ++ extra, img)
  = Done (extra, img).
Proof.
  induction ps as [|p ps IH]; intros Hps; cbn [flat_map fold_outcome];
    [reflexivity|].
  rewrite <- app_assoc.
  rewrite adam7_pass_fixes_image by (apply Hps; left; reflexivity).
  cbn [mbind outcome_bind]. apply IH. intros q Hq. apply Hps. right. exact Hq.
Qed.

(** The decoder on the interlaced stream of [img], whatever the output
    buffer held before and whatever follows the stream. *)
Lemma bkp_decode_adam7_interlaced (out extra : list Z) :
  length out = length img ->
  bkp_decode_adam7 (adam7_interlace width height bpp choose img ++ extra)
    width height bpp out
  = Done img.
Proof.
  intros Hout.
  rewrite (bkp_decode_adam7_overwrites width height bpp _ out img)
    by (try assumption; lia).
  unfold bkp_decode_adam7, adam7_interlace.
  rewrite adam7_passes_fix_image by auto. reflexivity.
Qed.

End Adam7RoundTrip.

(** X20: Adam7 de-interlacing inverts interlacing.  For an image of
    [width] x [height] pixels of [bpp] bytes, given as its row-major
    bytes, [bkp_decode_adam7] run on the interlaced stream of the image
    (the seven sub-images of the format, each filtered with any selectors,
    empty ones left out) fills the output buffer with the image, whatever
    the buffer held and whatever follows the stream. *)
Theorem adam7_decode_inverts_interlace (width height bpp : Z) (img : list Z)
  (choose : Z * Z * Z * Z -> list Z) (out extra : list Z) :
  1 <= bpp -> 0 <= width -> 0 <= height ->
  width + 8 <= INT_MAX -> height + 8 <= INT_MAX ->
  width * bpp <= INT_MAX -> width * height * bpp <= INT_MAX ->
  Z.of_nat (length img) = width * height * bpp ->
  Forall is_byte img ->
  (forall p, In p ADAM7_PASSES ->
     length (choose p) = Z.to_nat (pass_height p height)
     /\ Forall (fun f => 0 <= f <= 4) (choose p)) ->
  length out = length img ->
  bkp_decode_adam7 (adam7_interlace width height bpp choose img ++ extra)
    width height bpp out
  = Done img.
Proof. intros. apply bkp_decode_adam7_interlaced; assumption. Qed.

Lemma adam7_decode_inverts_interlace_witness :
  bkp_decode_adam7
    (adam7_interlace 2 2 1 (fun p => repeat 4 (Z.to_nat (pass_height p 2)))
       [1; 2; 3; 4] ++ [9])
    2 2 1 [0; 0; 0; 0]
  = Done [1; 2; 3; 4].
Proof.
  apply (adam7_decode_inverts_interlace 2 2 1 [1; 2; 3; 4]
           (fun p => repeat 4 (Z.to_nat (pass_height p 2)))
           [0; 0; 0; 0] [9]); unfold INT_MAX; try lia; try reflexivity.
  - repeat constructor; unfold is_byte; lia.
  - intros p _. split; [apply repeat_length|].
    apply Forall_forall. intros f Hf. apply list_elem_of_In in Hf.
    apply repeat_spec in Hf. lia.
Defined.

(** X21: [bkp_decode_adam7] reads nothing of the output buffer and
    overwrites all of it: run on two buffers of the right size it ends the
    same way, with the same bytes.  What [malloc] left in the buffer never
    shows in the result. *)
Theorem adam7_result_independent_of_buffer (width height bpp : Z)
  (data out1 out2 : list Z) :
  1 <= bpp -> 0 <= width -> 0 <= height ->
  width + 8 <= INT_MAX -> height + 8 <= INT_MAX ->
  width * bpp <= INT_MAX -> width * height * bpp <= INT_MAX ->
  Z.of_nat (length out1) = width * height * bpp ->
  length out2 = length out1 ->
  bkp_decode_adam7 data width height bpp out1
  = bkp_decode_adam7 data width height bpp out2.
Proof. intros. apply bkp_decode_adam7_overwrites; assumption. Qed.

Lemma adam7_result_independent_of_buffer_witness :
  bkp_decode_adam7 [0; 7; 0; 9; 2; 8; 1; 1] 2 2 1 [0; 0; 0; 0]
  = bkp_decode_adam7 [0; 7; 0; 9; 2; 8; 1; 1] 2 2 1 [5; 6; 7; 8].
Proof.
  apply (adam7_result_independent_of_buffer 2 2 1
           [0; 7; 0; 9; 2; 8; 1; 1] [0; 0; 0; 0] [5; 6; 7; 8]);
    unfold INT_MAX; try reflexivity; lia.
Defined.

(* ===================================================================== *)
(** * Adam7: the scatter writes every pixel once *)
(* ===================================================================== *)



(* ===================================================================== *)
(** * gAMA and PLTE chunks before the image data *)
(* ===================================================================== *)

Section Ancillary.
Context `{Externals}.

(** One well-formed PLTE chunk of [k] entries at the head of the stream. *)
Lemma chunk_loop_plte (fuel : nat) (st : chunk_state) (data rest : list Z)
  (k : Z) :
  Z.of_nat (length data) = 3 * k -> 0 <= k <= 256 ->
  chunk_loop (S fuel) st (chunk PLTE data ++ rest)
  = chunk_loop fuel
      {| cs_palette :=
           {| palette := plte_fill data (Z.to_nat k) (palette (cs_palette st));
              size := k |};
         cs_have_plte := true; cs_gamma := cs_gamma st;
         cs_idat := cs_idat st |}
      rest.
Proof.
  intros Hd Hk. cbn [chunk_loop]. unfold chunk.
  rewrite bkp_read_chunk_header_chunk by (try reflexivity; lia).
  change (type_is PLTE PLTE) with true. cbv iota.
  unfold bkp_read_plte. rewrite Hd.
  replace (3 * k mod 3) with 0 by (Z.div_mod_to_equations; lia).
  replace (3 * k / 3) with k by (Z.div_mod_to_equations; lia).
  change (negb (0 =? 0)) with false. cbv iota.
  destruct (Z.ltb_spec 256 k); [lia|].
  rewrite fread_app by exact Hd.
  rewrite bkp_read_be32_u32_bytes by (apply bkp_crc32_range; lia).
  rewrite Z.eqb_refl. reflexivity.
Qed.

(** One well-formed gAMA chunk of value [g] at the head of the stream. *)
Lemma chunk_loop_gama (fuel : nat) (st : chunk_state) (g : Z)
  (rest : list Z) :
  0 <= g < 4294967296 ->
  chunk_loop (S fuel) st (chunk gAMA (u32_bytes g) ++ rest)
  = chunk_loop fuel
      {| cs_palette := cs_palette st; cs_have_plte := cs_have_plte st;
         cs_gamma := g; cs_idat := cs_idat st |}
      rest.
Proof.
  intros Hg. cbn [chunk_loop]. unfold chunk.
  rewrite bkp_read_chunk_header_chunk by (try reflexivity; cbn; lia).
  change (type_is gAMA PLTE) with false. change (type_is gAMA IDAT) with false.
  change (type_is gAMA IEND) with false. change (type_is gAMA gAMA) with true.
  cbv iota. unfold bkp_read_gama.
  change (Z.of_nat (length (u32_bytes g))) with 4.
  change (negb (4 =? 4)) with false. cbv iota.
  rewrite fread_app by reflexivity.
  rewrite bkp_read_be32_u32_bytes by (apply bkp_crc32_range; lia).
  rewrite Z.eqb_refl. cbn [negb]. unfold u32_bytes at 1. cbn [nth].
  rewrite be32_u32_bytes by exact Hg. reflexivity.
Qed.

(** X22: a gAMA chunk and a PLTE chunk before the image data are both
    taken up.  A well-formed non-interlaced file made of the signature,
    IHDR, a gAMA chunk of value [g], a PLTE chunk of [k >= 1] entries, the
    zlib stream cut into non-empty IDAT chunks, each small enough for the
    stack array [crc_buf] of the handler, and an IEND header is
    decoded to the gamma correction, with [g], of the RGBA conversion of
    its raw scanlines with that palette; for colour type Indexed the
    conversion is the palette expansion. *)
Theorem load_png_decodes_with_gama_and_plte (w h ctype bpp n g k : Z)
  (pdata filters : list Z) (rows parts : list (list Z)) (tail : list Z)
  (outs : out_params) :
  bpp_of ctype = Some bpp ->
  dims_exact (mk_ihdr w h 8 ctype 0 0 0) bpp = true ->
  Z.of_nat (length rows) = h ->
  length filters = length rows ->
  Forall (fun f => 0 <= f <= 4) filters ->
  Forall (fun r => Z.of_nat (length r) = w * bpp /\ Forall is_byte r) rows ->
  0 <= g < 4294967296 ->
  Z.of_nat (length pdata) = 3 * k -> 1 <= k <= 256 ->
  parts <> [] ->
  Forall idat_payload_ok parts ->
  Z.of_nat (length (concat parts)) < 4294967292 ->
  inflate (concat parts) = Some (png_filter_image bpp filters rows) ->
  0 <= n < 4294967296 ->
  let ihdr := mk_ihdr w h 8 ctype 0 0 0 in
  let pal :=
    {| palette := plte_fill pdata (Z.to_nat k) (palette palette_zero);
       size := k |} in
  exists pixels,
    to_rgba ihdr true pal (concat rows) = Some pixels
    /\ (ctype = BK_PNG_INDEXED ->
        pixels = bkp_expand_palette (concat rows) (w * h) pal)
    /\ bkp_load_png
         (Some (png_signature ++ chunk IHDR (ihdr_data w h 8 ctype 0 0 0)
                ++ chunk gAMA (u32_bytes g) ++ chunk PLTE pdata
                ++ concat (map (chunk IDAT) parts)
                ++ u32_bytes n ++ IEND ++ tail))
         outs
       = Returned (Some (bkp_apply_gamma_correction pixels w h g))
           (write_outs ihdr outs).
Proof.
  intros Hbpp Hd Hh Hlen Hfs Hrows Hg Hpd Hk Hne Hparts Htotal Hinf Hn
    ihdr pal.
  pose proof (dims_exact_spec _ _ Hd) as Hdims. cbn [width height] in Hdims.
  pose proof (bpp_of_range _ _ Hbpp) as Hb.
  assert (Hp : Forall (fun p => Z.of_nat (length p) < 4294967296) parts).
  { apply idat_payloads_bounded in Hparts.
    eapply Forall_impl; [exact Hparts | cbn; intros; lia]. }
  assert (Hst : read_chunks
                  (chunk gAMA (u32_bytes g) ++ chunk PLTE pdata
                   ++ concat (map (chunk IDAT) parts)
                   ++ u32_bytes n ++ IEND ++ tail)
                = {| cs_palette := pal; cs_have_plte := true; cs_gamma := g;
                     cs_idat := IdatLive (concat parts) |}).
  { unfold read_chunks.
    set (body := chunk gAMA (u32_bytes g) ++ _).
    assert (Hfuel : (length parts <= length body)%nat).
    { subst body. rewrite !length_app.
      pose proof (chunks_length_ge parts). lia. }
    rewrite (chunk_loop_fuel (length body) (S (S (length body)))) by lia.
    generalize dependent (length body). intros fuel Hfuel. subst body.
    rewrite chunk_loop_gama by exact Hg.
    rewrite chunk_loop_plte with (k := k) by (try assumption; lia).
    rewrite chunk_loop_idats by assumption.
    rewrite chunk_loop_iend by exact Hn.
    cbn [chunk_state_init cs_idat cs_palette cs_have_plte cs_gamma].
    rewrite fold_idat_append_null by exact Hne. reflexivity. }
  assert (Hrgba : exists pixels,
             to_rgba ihdr true pal (concat rows) = Some pixels
             /\ (ctype = BK_PNG_INDEXED ->
                 pixels = bkp_expand_palette (concat rows) (w * h) pal)).
  { unfold to_rgba, ihdr. cbn [color_type width height negb].
    rewrite (u32_mul_exact w h) by nia.
    unfold bpp_of in Hbpp. unfold BK_PNG_INDEXED, BK_PNG_GRAY,
      BK_PNG_GRAY_ALPHA, BK_PNG_RGB, BK_PNG_RGBA.
    repeat case_match; simplify_eq; try discriminate; try lia;
      eexists; (split; [reflexivity|]); intros Hc;
      first [reflexivity | discriminate Hc | lia]. }
  destruct Hrgba as [pixels [Hpx Hidx]]. subst ihdr pal.
  exists pixels. split; [exact Hpx|]. split; [exact Hidx|].
  rewrite load_png_after_header by lia.
  rewrite Hst. cbn [cs_idat]. rewrite Hinf.
  unfold decode_pixels. cbn [color_type]. rewrite Hbpp.
  rewrite expected_size_exact by assumption.
  unfold stated_expected_size, png_filter_image. cbn [width height].
  rewrite (png_filter_rows_length bpp (w * bpp)) by assumption.
  destruct (Z.ltb_spec (Z.of_nat (length rows) * (1 + w * bpp))
              (h * (1 + w * bpp))); [nia|].
  rewrite Hd. cbn [orb negb].
  unfold decode_scanlines.
  cbn [interlace_method width height Z.eqb].
  rewrite bkp_filter_decode_exact by (unfold INT_MAX; nia).
  rewrite <- Hh, Nat2Z.id.
  rewrite <- (app_nil_r (png_filter_rows bpp None filters rows)).
  rewrite (filter_rows_inverts bpp) by (try assumption; try lia; discriminate).
  cbn [mbind outcome_bind fst app cs_have_plte cs_palette cs_gamma].
  rewrite Hh, Hpx.
  destruct (Z.ltb_spec 0 g) as [Hpos | Hzero]; [reflexivity|].
  unfold bkp_apply_gamma_correction.
  destruct (Z.leb_spec g 0); [reflexivity | lia].
Qed.

End Ancillary.

Lemma load_png_decodes_with_gama_and_plte_witness :
  exists pixels,
    to_rgba (mk_ihdr 2 1 8 3 0 0 0) true
      {| palette := plte_fill [255; 0; 0; 0; 255; 0] (Z.to_nat 2)
                      (palette palette_zero);
         size := 2 |}
      (concat [[1; 0]])
    = Some pixels
    /\ (3 = BK_PNG_INDEXED ->
        pixels
        = bkp_expand_palette (concat [[1; 0]]) (2 * 1)
            {| palette := plte_fill [255; 0; 0; 0; 255; 0] (Z.to_nat 2)
                            (palette palette_zero);
               size := 2 |})
    /\ @bkp_load_png stored_externals
         (Some (png_signature ++ chunk IHDR (ihdr_data 2 1 8 3 0 0 0)
                ++ chunk gAMA (u32_bytes 45455)
                ++ chunk PLTE [255; 0; 0; 0; 255; 0]
                ++ concat (map (chunk IDAT) [zlib_stored [0; 1; 0]])
                ++ u32_bytes 0 ++ IEND ++ []))
         outs0
       = Returned
           (Some (@bkp_apply_gamma_correction stored_externals pixels 2 1
                    45455))
           (write_outs (mk_ihdr 2 1 8 3 0 0 0) outs0).
Proof.
  apply (@load_png_decodes_with_gama_and_plte stored_externals 2 1 3 1 0
           45455 2 [255; 0; 0; 0; 255; 0] [0] [[1; 0]]
           [zlib_stored [0; 1; 0]] [] outs0);
    try reflexivity; try discriminate; try lia;
    repeat first [apply Forall_nil_2 | apply Forall_cons_2 | split];
    unfold is_byte, crc_buf_fits, STACK_ARRAY_MAX; cbn; lia.
Defined.
